(** * RAPTRS: the FMU control loop, its SOC mailbox, and the SOC route manager

    A shallow embedding of

    - [software/src/fmu/comms.h]   (class [AircraftSocComms]),
    - [software/src/fmu/main.cpp]  (the control loop of [main]),
    - [software/src/soc/flight/route_mgr.cpp] (class [FGRouteMgr]),

    followed by the properties established about them.  Definitions come
    first (Part I), one module per C++ class; the mailbox (Part II), the
    control loop for arbitrary collaborators (Part III), the control loop on
    the FMU with its mission and mailbox (Part IV) and the route manager
    (Part V) follow.

    The sources of [AircraftMission], of the bodies of [AircraftSocComms]
    and of [SGRoute] are not part of the files above.  The loop of [main]
    is embedded over an interface of the methods it calls; the mission and
    the mailbox behind that interface are modelled from the specification
    and marked as such. *)

From Stdlib Require Import Strings.Byte Strings.String.
From Stdlib Require Import List NArith ZArith Bool Lia.
Import ListNotations.

Set Implicit Arguments.

(* ===================================================================== *)
(** * Part I.  Definitions                                                *)
(* ===================================================================== *)

(** ** Shared data types *)

(** [AircraftMission::Mode] and [AircraftMission::State]: the enumerators
    that [main.cpp] names. *)
Inductive Mode := Configuration | Run.

Inductive State :=
  SyncDataCollection | AsyncDataCollection | FlightControl | EffectorOutput.

Definition Mode_eqb (a b : Mode) : bool :=
  match a, b with
  | Configuration, Configuration | Run, Run => true
  | _, _ => false
  end.

Definition State_eqb (a b : State) : bool :=
  match a, b with
  | SyncDataCollection, SyncDataCollection
  | AsyncDataCollection, AsyncDataCollection
  | FlightControl, FlightControl
  | EffectorOutput, EffectorOutput => true
  | _, _ => false
  end.

(** A C++ [float] is handled by the mailbox only as its four bytes
    ([std::vector<float>] filled from the payload); it is kept as the 32-bit
    pattern those bytes form in memory order (least significant first). *)
Definition float32 := N.

Definition float_of_bytes (b0 b1 b2 b3 : byte) : float32 :=
  N.lor (Byte.to_N b0)
    (N.lor (N.shiftl (Byte.to_N b1) 8)
       (N.lor (N.shiftl (Byte.to_N b2) 16) (N.shiftl (Byte.to_N b3) 24))).

(** ** [AircraftSocComms] (comms.h) *)

Module AircraftSocComms.

(** [enum Message], in declaration order. *)
Inductive Message := ModeCommand | Configuration | SensorData | EffectorCommand.

Definition Message_eqb (a b : Message) : bool :=
  match a, b with
  | ModeCommand, ModeCommand
  | Configuration, Configuration
  | SensorData, SensorData
  | EffectorCommand, EffectorCommand => true
  | _, _ => false
  end.

(** The enumerator values, as the one-byte kind field of a frame. *)
Definition byte_of_Message (m : Message) : byte :=
  match m with
  | ModeCommand => x00
  | Configuration => x01
  | SensorData => x02
  | EffectorCommand => x03
  end.

Definition Message_of_byte (b : byte) : option Message :=
  match b with
  | x00 => Some ModeCommand
  | x01 => Some Configuration
  | x02 => Some SensorData
  | x03 => Some EffectorCommand
  | _ => None
  end.

(** Modelled from the spec: the wire format, which lives in the absent
    [comms.cpp] and [SerialLink].  A frame logically carries
    [kind: 1 byte][length: N bytes][payload: length bytes]; the width [N]
    of the length field and the coding of a mode as a byte are left open
    by the spec and are parameters here. *)
Class WireFormat := {
  length_bytes : nat;
  mode_of_byte : byte -> option Mode
}.

(** The low byte of a number. *)
Definition byte_of_N (v : N) : byte :=
  match Byte.of_N (v mod 256) with
  | Some b => b
  | None => x00
  end.

(** Modelled from the spec: the length field, least significant byte
    first, [n] bytes wide. *)
Fixpoint encode_length (n : nat) (v : N) : list byte :=
  match n with
  | O => []
  | S n' => byte_of_N v :: encode_length n' (v / 256)
  end.

(** Modelled from the spec: reading the length field back. *)
Fixpoint decode_length (bs : list byte) : N :=
  match bs with
  | [] => 0
  | b :: rest => Byte.to_N b + 256 * decode_length rest
  end.

(** Modelled from the spec: the maximum supported payload length, the
    largest the length field can carry. *)
Definition max_payload_length `{WireFormat} : N := 256 ^ N.of_nat length_bytes - 1.

(** Modelled from the spec: framing of [(kind, payload)]. *)
Definition encode_frame `{WireFormat} (m : Message) (payload : list byte) : list byte :=
  byte_of_Message m
    :: encode_length length_bytes (N.of_nat (length payload)) ++ payload.

(** Modelled from the spec: parsing of a frame; a frame with an unknown
    kind byte, a short length field or a length mismatch is malformed. *)
Definition decode_frame `{WireFormat} (f : list byte) : option (Message * list byte) :=
  match f with
  | [] => None
  | k :: rest =>
      match Message_of_byte k with
      | None => None
      | Some m =>
          let field := firstn length_bytes rest in
          let payload := skipn length_bytes rest in
          if (length field =? length_bytes)%nat
             && (N.of_nat (length payload) =? decode_length field)%N
          then Some (m, payload)
          else None
      end
  end.

(** Modelled from the spec: [SerialLink], the transport behind [bus_]:
    a reliable, ordered channel that hands over complete frames when
    polled.  [rx] holds the frames that have arrived and were not yet
    polled, oldest first; [tx] the frames written, oldest first. *)
Record SerialLink := {
  rx : list (list byte);
  tx : list (list byte)
}.

(** The data members of the class (comms.h, private section). *)
Record t := {
  bus_ : SerialLink;
  baud_ : N;
  MessageReceived_ : bool;
  ReceivedMessage_ : Message;
  ReceivedPayload_ : list byte
}.

Definition set_bus (c : t) (b : SerialLink) : t :=
  {| bus_ := b; baud_ := baud_ c;
     MessageReceived_ := MessageReceived_ c;
     ReceivedMessage_ := ReceivedMessage_ c;
     ReceivedPayload_ := ReceivedPayload_ c |}.

Definition set_MessageReceived (c : t) (b : bool) : t :=
  {| bus_ := bus_ c; baud_ := baud_ c;
     MessageReceived_ := b;
     ReceivedMessage_ := ReceivedMessage_ c;
     ReceivedPayload_ := ReceivedPayload_ c |}.

(** Modelled from the spec: [SendMessage] ([send(kind, payload)]) frames
    the message and writes it to the transport at once. *)
Definition SendMessage `{WireFormat} (m : Message) (Payload : list byte) (c : t) : t :=
  set_bus c {| rx := rx (bus_ c);
               tx := tx (bus_ c) ++ [encode_frame m Payload] |}.

(** Modelled from the spec: [SendSensorData] ([sendSensorTelemetry]) is
    [send(SensorData, buffer)]. *)
Definition SendSensorData `{WireFormat} (DataBuffer : list byte) (c : t) : t :=
  SendMessage SensorData DataBuffer c.

(** Modelled from the spec: [ReceiveMessage], the poll of the transport.
    With no frame available nothing happens; a malformed frame is taken
    off the transport and dropped. *)
Definition ReceiveMessage `{WireFormat} (b : SerialLink)
  : option (Message * list byte) * SerialLink :=
  match rx b with
  | [] => (None, b)
  | f :: rest => (decode_frame f, {| rx := rest; tx := tx b |})
  end.

(** Modelled from the spec: [CheckMessages] ([pump()]): a decoded frame
    becomes the single pending message, overwriting an unread one; with
    no frame, or a malformed one, the slot is left as it is. *)
Definition CheckMessages `{WireFormat} (c : t) : t :=
  match ReceiveMessage (bus_ c) with
  | (Some (m, p), b) =>
      {| bus_ := b; baud_ := baud_ c;
         MessageReceived_ := true;
         ReceivedMessage_ := m;
         ReceivedPayload_ := p |}
  | (None, b) => set_bus c b
  end.

(** Modelled from the spec: [tryReceive(expectedKind)], the part the
    typed accessors share: the payload is handed over and the slot
    cleared only if a message of the expected kind is pending. *)
Definition tryReceive (expectedKind : Message) (c : t) : option (list byte) * t :=
  if MessageReceived_ c && Message_eqb (ReceivedMessage_ c) expectedKind
  then (Some (ReceivedPayload_ c), set_MessageReceived c false)
  else (None, c).

(** A series of [tryReceive] calls, one per kind listed, with no pump in
    between; the results in call order. *)
Fixpoint drain (ks : list Message) (c : t) : list (option (list byte)) :=
  match ks with
  | [] => []
  | k :: rest => fst (tryReceive k c) :: drain rest (snd (tryReceive k c))
  end.

(** A message of kind [k] with payload [p] is pending. *)
Definition holds (k : Message) (p : list byte) (c : t) : Prop :=
  MessageReceived_ c = true /\ ReceivedMessage_ c = k /\ ReceivedPayload_ c = p.

(** Reading the slot without touching it. *)
Definition pending (expectedKind : Message) (c : t) : option (list byte) :=
  fst (tryReceive expectedKind c).

(** Modelled from the spec: an effector-command payload is a sequence of
    4-byte floats, in payload order. *)
Fixpoint floats_of_bytes (p : list byte) : list float32 :=
  match p with
  | b0 :: b1 :: b2 :: b3 :: rest =>
      float_of_bytes b0 b1 b2 b3 :: floats_of_bytes rest
  | _ => []
  end.

(** Modelled from the spec: the typed accessors.  Each decodes the
    pending payload; on a shape mismatch it reports failure and leaves
    the slot as it is.  The class holds no effector count, so the only
    shape check on an effector command is the multiple of 4. *)
Definition ReceiveModeCommand `{WireFormat} (c : t) : option Mode * t :=
  match pending ModeCommand c with
  | Some [b] =>
      match mode_of_byte b with
      | Some m => (Some m, snd (tryReceive ModeCommand c))
      | None => (None, c)
      end
  | _ => (None, c)
  end.

(** Modelled from the spec: a configuration payload is handed over as it
    is. *)
Definition ReceiveConfigMessage (c : t) : option (list byte) * t :=
  tryReceive Configuration c.

(** Modelled from the spec: an effector command decodes to payload-length
    / 4 floats; a length that is not a multiple of 4 is a failure. *)
Definition ReceiveEffectorCommand (c : t) : option (list float32) * t :=
  match pending EffectorCommand c with
  | Some p =>
      if (length p mod 4 =? 0)%nat
      then (Some (floats_of_bytes p), snd (tryReceive EffectorCommand c))
      else (None, c)
  | None => (None, c)
  end.

(** Modelled from the spec: a frame arriving from the peer; the transport
    queues it. *)
Definition arrive (f : list byte) (c : t) : t :=
  set_bus c {| rx := rx (bus_ c) ++ [f]; tx := tx (bus_ c) |}.

(** Modelled from the spec: the serial link between two endpoints; what
    [a] has written reaches [b] in order. *)
Definition deliver (a b : t) : t * t :=
  (set_bus a {| rx := rx (bus_ a); tx := [] |},
   set_bus b {| rx := rx (bus_ b) ++ tx (bus_ a); tx := tx (bus_ b) |}).

End AircraftSocComms.

(** ** The control loop of [main] (main.cpp) *)

(** The calls the loop makes on its collaborators, one constructor per
    method called in the [while (1)] body; arguments passed by value are
    recorded with the call. *)
Module Call.
Inductive t :=
| UpdateMode | GetMode | UpdateState | GetState
| ClearImuDataReady | ReadSyncSensors | GetDataBuffer
| SendSensorData (DataBuffer : list byte)
| ReadAsyncSensors
| ClearFlightControlFlag | ActiveControlLevels | ControlRun (ControlLevelIndex : N)
| ThrottleSafed | ComputeOutputs (safed : bool)
| ClearEffectorOutputFlag | CommandEffectors
| ReceiveEffectorCommand | UseSocEffectorComands
| SetCommands (EffectorCommands : list float32) (safed : bool)
| ReceiveConfigMessage | ConfigUpdate (ConfigBuffer : list byte)
| ReceiveModeCommand | SetRequestedMode (RequestedMode : Mode)
| CheckMessages.

Definition is_ClearImuDataReady (c : t) : bool :=
  match c with ClearImuDataReady => true | _ => false end.
Definition is_ReadAsyncSensors (c : t) : bool :=
  match c with ReadAsyncSensors => true | _ => false end.
Definition is_ClearFlightControlFlag (c : t) : bool :=
  match c with ClearFlightControlFlag => true | _ => false end.
Definition is_ComputeOutputs (c : t) : bool :=
  match c with ComputeOutputs _ => true | _ => false end.
Definition is_ClearEffectorOutputFlag (c : t) : bool :=
  match c with ClearEffectorOutputFlag => true | _ => false end.
Definition is_CommandEffectors (c : t) : bool :=
  match c with CommandEffectors => true | _ => false end.
Definition is_SetCommands (c : t) : bool :=
  match c with SetCommands _ _ => true | _ => false end.
Definition is_ConfigUpdate (c : t) : bool :=
  match c with ConfigUpdate _ => true | _ => false end.
Definition is_SetRequestedMode (c : t) : bool :=
  match c with SetRequestedMode _ => true | _ => false end.
Definition is_CheckMessages (c : t) : bool :=
  match c with CheckMessages => true | _ => false end.
(** The calls of the control-law loop. *)
Definition is_control_call (c : t) : bool :=
  match c with
  | ActiveControlLevels | ControlRun _ => true
  | _ => false
  end.
(** The mailbox reads by kind: the typed accessors. *)
Definition is_Receive (c : t) : bool :=
  match c with
  | ReceiveEffectorCommand | ReceiveConfigMessage | ReceiveModeCommand => true
  | _ => false
  end.
End Call.

(** The calls made before the first one that satisfies [p], and those made
    after it. *)
Fixpoint before (p : Call.t -> bool) (l : list Call.t) : list Call.t :=
  match l with
  | [] => []
  | c :: rest => if p c then [] else c :: before p rest
  end.

Fixpoint after_first (p : Call.t -> bool) (l : list Call.t) : list Call.t :=
  match l with
  | [] => []
  | c :: rest => if p c then rest else after_first p rest
  end.

(** How often a call occurs in a list of calls. *)
Definition count_calls (p : Call.t -> bool) (l : list Call.t) : nat :=
  length (filter p l).

(** The objects the loop works on ([Mission], [Sensors], [Control],
    [Effectors], [Config], [SocComms], [GlobalData]) are defined outside
    main.cpp.  [W] is their joint state; each method the loop calls is an
    operation on it, so that any method may change any of the objects it
    can reach.  The getters ([GetMode], [GetState], [GetDataBuffer],
    [ActiveControlLevels], [ThrottleSafed], [UseSocEffectorComands]) are
    read for their value.  A [bool f(T *out)] accessor takes the current
    value of [*out] and returns the flag with the new value. *)
Class Collaborators (W : Type) := {
  Mission_UpdateMode : W -> W;
  Mission_GetMode : W -> Mode;
  Mission_UpdateState : W -> W;
  Mission_GetState : W -> State;
  Mission_ClearImuDataReady : W -> W;
  Mission_ClearFlightControlFlag : W -> W;
  Mission_ClearEffectorOutputFlag : W -> W;
  Mission_ThrottleSafed : W -> bool;
  Mission_UseSocEffectorComands : W -> bool;
  Mission_SetRequestedMode : Mode -> W -> W;
  Sensors_ReadSyncSensors : W -> W;
  Sensors_GetDataBuffer : W -> list byte;
  Sensors_ReadAsyncSensors : W -> W;
  Control_ActiveControlLevels : W -> N;
  Control_Run : N -> W -> W;
  Effectors_ComputeOutputs : bool -> W -> W;
  Effectors_CommandEffectors : W -> W;
  Effectors_SetCommands : list float32 -> bool -> W -> W;
  Config_Update : list byte -> W -> W;
  SocComms_SendSensorData : list byte -> W -> W;
  SocComms_ReceiveEffectorCommand : list float32 -> W -> bool * list float32 * W;
  SocComms_ReceiveConfigMessage : list byte -> W -> bool * list byte * W;
  SocComms_ReceiveModeCommand : Mode -> W -> bool * Mode * W;
  SocComms_CheckMessages : W -> W
}.

(** The state [main] runs on: the collaborators and the globals of
    main.cpp that the loop reads and writes. *)
Record Main (W : Type) := {
  world : W;
  MissionMode : Mode;
  MissionState : State;
  RequestedMode : Mode;
  EffectorCommands : list float32
}.

(** [size_t] on the FMU's 32-bit core. *)
Definition SIZE_MAX : N := 2 ^ 32 - 1.
Definition size_t (n : N) : N := n mod 2 ^ 32.

Section Loop.
Context {W : Type} `{Collaborators W}.

(** A statement of the loop: it transforms the state of [main], yields a
    value, and makes calls, listed in the order made. *)
Definition Prog (A : Type) : Type := Main W -> A * Main W * list Call.t.

Definition ret {A} (a : A) : Prog A := fun s => (a, s, []).

Definition bind {A B} (c : Prog A) (k : A -> Prog B) : Prog B :=
  fun s =>
    let '(a, s1, l1) := c s in
    let '(b, s2, l2) := k a s1 in
    (b, s2, l1 ++ l2).

Definition result {A} (c : Prog A) (s : Main W) : A := fst (fst (c s)).
Definition after {A} (c : Prog A) (s : Main W) : Main W := snd (fst (c s)).
Definition calls {A} (c : Prog A) (s : Main W) : list Call.t := snd (c s).

Definition set_world (s : Main W) (w : W) : Main W :=
  {| world := w; MissionMode := MissionMode s; MissionState := MissionState s;
     RequestedMode := RequestedMode s; EffectorCommands := EffectorCommands s |}.

(** A method call that changes its object. *)
Definition call (c : Call.t) (f : W -> W) : Prog unit :=
  fun s => (tt, set_world s (f (world s)), [c]).

(** A method call made for its value. *)
Definition query {A} (c : Call.t) (f : W -> A) : Prog A :=
  fun s => (f (world s), s, [c]).

(** Reading a global of main.cpp. *)
Definition read {A} (f : Main W -> A) : Prog A := fun s => (f s, s, []).

Definition when (b : bool) (c : Prog unit) : Prog unit :=
  if b then c else ret tt.

End Loop.

Declare Scope prog_scope.
Delimit Scope prog_scope with prog.
Notation "x <- c1 ;; c2" := (bind c1 (fun x => c2))
  (at level 61, c1 at next level, right associativity) : prog_scope.
Notation "c1 ;; c2" := (bind c1 (fun _ => c2))
  (at level 61, right associativity) : prog_scope.
Open Scope prog_scope.

Section LoopBody.
Context {W : Type} `{Collaborators W}.

(** [Mission.GetMode(&MissionMode)], [Mission.GetState(&MissionState)]. *)
Definition GetMode : Prog unit :=
  fun s =>
    (tt, {| world := world s; MissionMode := Mission_GetMode (world s);
            MissionState := MissionState s; RequestedMode := RequestedMode s;
            EffectorCommands := EffectorCommands s |}, [Call.GetMode]).

Definition GetState : Prog unit :=
  fun s =>
    (tt, {| world := world s; MissionMode := MissionMode s;
            MissionState := Mission_GetState (world s);
            RequestedMode := RequestedMode s;
            EffectorCommands := EffectorCommands s |}, [Call.GetState]).

(** [SocComms.ReceiveEffectorCommand(&EffectorCommands)]. *)
Definition ReceiveEffectorCommand : Prog bool :=
  fun s =>
    let '(ok, v, w) := SocComms_ReceiveEffectorCommand (EffectorCommands s) (world s) in
    (ok, {| world := w; MissionMode := MissionMode s; MissionState := MissionState s;
            RequestedMode := RequestedMode s; EffectorCommands := v |},
     [Call.ReceiveEffectorCommand]).

(** [SocComms.ReceiveConfigMessage(&ConfigBuffer)], [ConfigBuffer] being
    a fresh local vector. *)
Definition ReceiveConfigMessage : Prog (bool * list byte) :=
  fun s =>
    let '(ok, v, w) := SocComms_ReceiveConfigMessage [] (world s) in
    ((ok, v), set_world s w, [Call.ReceiveConfigMessage]).

(** [SocComms.ReceiveModeCommand(&RequestedMode)]. *)
Definition ReceiveModeCommand : Prog bool :=
  fun s =>
    let '(ok, v, w) := SocComms_ReceiveModeCommand (RequestedMode s) (world s) in
    (ok, {| world := w; MissionMode := MissionMode s; MissionState := MissionState s;
            RequestedMode := v; EffectorCommands := EffectorCommands s |},
     [Call.ReceiveModeCommand]).

End LoopBody.

Section ControlLoop.
Context {W : Type} `{Collaborators W}.

(** One round of
    [for (size_t ControlLevelIndex = 0;
          ControlLevelIndex < Control.ActiveControlLevels();
          ControlLevelIndex++) Control.Run(ControlLevelIndex);]
    at index [i]: the bound is asked for, and either the level is run and
    the index incremented ([inl], the loop goes on) or the loop is left
    ([inr]).  The calls made so far are carried along. *)
Definition control_round (st : N * W * list Call.t)
  : (N * W * list Call.t) + (W * list Call.t) :=
  let '(i, w, l) := st in
  if (i <? size_t (Control_ActiveControlLevels w))%N
  then inl (size_t (i + 1), Control_Run i w,
            l ++ [Call.ActiveControlLevels; Call.ControlRun i])
  else inr (w, l ++ [Call.ActiveControlLevels]).

(** Up to [2 ^ d] rounds. *)
Fixpoint control_rounds (d : nat) (st : N * W * list Call.t)
  : (N * W * list Call.t) + (W * list Call.t) :=
  match d with
  | O => control_round st
  | S d' =>
      match control_rounds d' st with
      | inl st' => control_rounds d' st'
      | inr r => inr r
      end
  end.

(** The whole loop.  A [size_t] index stops below the bound at
    [SIZE_MAX] at the latest, so [2 ^ 32] rounds always reach the exit
    ([control_rounds_exit] below); the [inl] case is never taken. *)
Definition run_control_levels (w : W) : W * list Call.t :=
  match control_rounds 32 (0%N, w, []) with
  | inr r => r
  | inl (_, w', l) => (w', l)
  end.

Definition ControlLoop : Prog unit :=
  fun s =>
    let r := run_control_levels (world s) in
    (tt, set_world s (fst r), snd r).

(** The body of [while (1)] in [main], statement by statement; the guarded
    blocks are named after their guards. *)

(** [if (MissionState == AircraftMission::SyncDataCollection) { ... }] *)
Definition SyncDataCollection_block : Prog unit :=
  call Call.ClearImuDataReady Mission_ClearImuDataReady ;;
  (* read synchronous sensors *)
  call Call.ReadSyncSensors Sensors_ReadSyncSensors ;;
  (* buffer for transmitting data *)
  DataBuffer <- query Call.GetDataBuffer Sensors_GetDataBuffer ;;
  (* transmit data to SOC *)
  call (Call.SendSensorData DataBuffer) (SocComms_SendSensorData DataBuffer).

(** [if (MissionState == AircraftMission::AsyncDataCollection) { ... }] *)
Definition AsyncDataCollection_block : Prog unit :=
  (* read the asynchronous sensors *)
  call Call.ReadAsyncSensors Sensors_ReadAsyncSensors.

(** [if (MissionState == AircraftMission::FlightControl) { ... }] *)
Definition FlightControl_block : Prog unit :=
  call Call.ClearFlightControlFlag Mission_ClearFlightControlFlag ;;
  (* run control laws *)
  ControlLoop ;;
  (* compute effector PWM and SBUS commands from angles *)
  safed <- query Call.ThrottleSafed Mission_ThrottleSafed ;;
  call (Call.ComputeOutputs safed) (Effectors_ComputeOutputs safed).

(** [if (MissionState == AircraftMission::EffectorOutput) { ... }] *)
Definition EffectorOutput_block : Prog unit :=
  call Call.ClearEffectorOutputFlag Mission_ClearEffectorOutputFlag ;;
  (* command the effectors to move *)
  call Call.CommandEffectors Effectors_CommandEffectors.

(** [if (SocComms.ReceiveEffectorCommand(&EffectorCommands)) { ... }] *)
Definition soc_effector_commands : Prog unit :=
  received <- ReceiveEffectorCommand ;;
  when received (
    use <- query Call.UseSocEffectorComands Mission_UseSocEffectorComands ;;
    when use (
      (* set the received commands to be used *)
      cmds <- read (@EffectorCommands W) ;;
      safed <- query Call.ThrottleSafed Mission_ThrottleSafed ;;
      call (Call.SetCommands cmds safed) (Effectors_SetCommands cmds safed))).

(** [if (MissionMode == AircraftMission::Run) { ... }] *)
Definition Run_block : Prog unit :=
  (* update the mission state *)
  call Call.UpdateState Mission_UpdateState ;;
  GetState ;;
  st <- read (@MissionState W) ;;
  when (State_eqb st SyncDataCollection) SyncDataCollection_block ;;
  st <- read (@MissionState W) ;;
  when (State_eqb st AsyncDataCollection) AsyncDataCollection_block ;;
  st <- read (@MissionState W) ;;
  when (State_eqb st FlightControl) FlightControl_block ;;
  st <- read (@MissionState W) ;;
  when (State_eqb st EffectorOutput) EffectorOutput_block ;;
  (* effector commands from SOC *)
  soc_effector_commands.

(** [if (MissionMode == AircraftMission::Configuration) { ... }] *)
Definition Configuration_block : Prog unit :=
  (* update configuration *)
  r <- ReceiveConfigMessage ;;
  when (fst r) (
    call (Call.ConfigUpdate (snd r)) (Config_Update (snd r))).

(** [if (SocComms.ReceiveModeCommand(&RequestedMode)) { ... }] *)
Definition request_mode : Prog unit :=
  received <- ReceiveModeCommand ;;
  when received (
    req <- read (@RequestedMode W) ;;
    call (Call.SetRequestedMode req) (Mission_SetRequestedMode req)).

(** The block guarded by [MissionState == st]. *)
Definition handler (st : State) : Prog unit :=
  match st with
  | SyncDataCollection => SyncDataCollection_block
  | AsyncDataCollection => AsyncDataCollection_block
  | FlightControl => FlightControl_block
  | EffectorOutput => EffectorOutput_block
  end.

Definition loop_body : Prog unit :=
  (* update the mission mode *)
  call Call.UpdateMode Mission_UpdateMode ;;
  GetMode ;;
  mode <- read (@MissionMode W) ;;
  when (Mode_eqb mode Run) Run_block ;;
  mode <- read (@MissionMode W) ;;
  when (Mode_eqb mode Configuration) Configuration_block ;;
  (* request mode *)
  request_mode ;;
  (* check for new messages from SOC *)
  call Call.CheckMessages SocComms_CheckMessages.

(** The mode and the state a round works with: what [GetMode] reports after
    [UpdateMode], and what [GetState] reports after [UpdateState]. *)
Definition mode_of_round (s : Main W) : Mode :=
  Mission_GetMode (Mission_UpdateMode (world s)).

Definition state_of_round (s : Main W) : State :=
  Mission_GetState (Mission_UpdateState (Mission_UpdateMode (world s))).

(** The state of [main] once the mode has been updated and read. *)
Definition mode_read (s : Main W) : Main W :=
  after GetMode (set_world s (Mission_UpdateMode (world s))).

(** The state of [main], in a [Run] round, once the state has been updated
    and read, and once the block of that state is done. *)
Definition state_read (s : Main W) : Main W :=
  after GetState (set_world (mode_read s) (Mission_UpdateState (world (mode_read s)))).

Definition blocks_done (s : Main W) : Main W :=
  after (handler (state_of_round s)) (state_read s).

(** The block of the round's mode, and the state of [main] once it is
    done. *)
Definition mode_block (s : Main W) : Prog unit :=
  match mode_of_round s with
  | Run => Run_block
  | Configuration => Configuration_block
  end.

Definition mode_done (s : Main W) : Main W := after (mode_block s) (mode_read s).

(** [n] rounds of the loop. *)
Fixpoint iterate (n : nat) : Prog unit :=
  match n with
  | O => ret tt
  | S n' => loop_body ;; iterate n'
  end.

End ControlLoop.

(** ** [AircraftMission] *)

Module AircraftMission.

(** Modelled from the spec: the state of class [AircraftMission]
    (mission.h and mission.cpp are absent): the operating mode, the
    staged requested mode, the current state and the three flags. *)
Record t := {
  Mode_ : Mode;
  RequestedMode_ : Mode;
  State_ : State;
  ImuDataReady_ : bool;
  FlightControlFlag_ : bool;
  EffectorOutputFlag_ : bool
}.

(** Modelled from the spec: when a state is eligible.
    [SyncDataCollection] iff [ImuDataReady] is set, [AsyncDataCollection]
    always, [FlightControl] and [EffectorOutput] iff their flag is
    pending. *)
Definition eligible (m : t) (s : State) : bool :=
  match s with
  | SyncDataCollection => ImuDataReady_ m
  | AsyncDataCollection => true
  | FlightControl => FlightControlFlag_ m
  | EffectorOutput => EffectorOutputFlag_ m
  end.

(** Modelled from the spec: the choice [UpdateState] makes.  One state
    is current per iteration; which of the eligible ones is left open, so
    the choice is a parameter, bound to pick an eligible state. *)
Class Scheduler := {
  select_state : t -> State;
  select_eligible : forall m, eligible m (select_state m) = true
}.

(** Modelled from the spec: [UpdateMode] applies the staged request. *)
Definition UpdateMode (m : t) : t :=
  {| Mode_ := RequestedMode_ m; RequestedMode_ := RequestedMode_ m;
     State_ := State_ m; ImuDataReady_ := ImuDataReady_ m;
     FlightControlFlag_ := FlightControlFlag_ m;
     EffectorOutputFlag_ := EffectorOutputFlag_ m |}.

(** Modelled from the spec: the getters, and [UpdateState], which makes
    the scheduler's choice the current state. *)
Definition GetMode (m : t) : Mode := Mode_ m.

Definition UpdateState `{Scheduler} (m : t) : t :=
  {| Mode_ := Mode_ m; RequestedMode_ := RequestedMode_ m;
     State_ := select_state m; ImuDataReady_ := ImuDataReady_ m;
     FlightControlFlag_ := FlightControlFlag_ m;
     EffectorOutputFlag_ := EffectorOutputFlag_ m |}.

Definition GetState (m : t) : State := State_ m.

(** Modelled from the spec: a mode command is staged as the requested
    mode. *)
Definition SetRequestedMode (r : Mode) (m : t) : t :=
  {| Mode_ := Mode_ m; RequestedMode_ := r;
     State_ := State_ m; ImuDataReady_ := ImuDataReady_ m;
     FlightControlFlag_ := FlightControlFlag_ m;
     EffectorOutputFlag_ := EffectorOutputFlag_ m |}.

(** Modelled from the spec: each flag is a single boolean, set and
    cleared by the methods named after it. *)
Definition write_ImuDataReady (b : bool) (m : t) : t :=
  {| Mode_ := Mode_ m; RequestedMode_ := RequestedMode_ m;
     State_ := State_ m; ImuDataReady_ := b;
     FlightControlFlag_ := FlightControlFlag_ m;
     EffectorOutputFlag_ := EffectorOutputFlag_ m |}.

Definition write_FlightControlFlag (b : bool) (m : t) : t :=
  {| Mode_ := Mode_ m; RequestedMode_ := RequestedMode_ m;
     State_ := State_ m; ImuDataReady_ := ImuDataReady_ m;
     FlightControlFlag_ := b;
     EffectorOutputFlag_ := EffectorOutputFlag_ m |}.

Definition write_EffectorOutputFlag (b : bool) (m : t) : t :=
  {| Mode_ := Mode_ m; RequestedMode_ := RequestedMode_ m;
     State_ := State_ m; ImuDataReady_ := ImuDataReady_ m;
     FlightControlFlag_ := FlightControlFlag_ m;
     EffectorOutputFlag_ := b |}.

Definition SetImuDataReady := write_ImuDataReady true.
Definition ClearImuDataReady := write_ImuDataReady false.
Definition ClearFlightControlFlag := write_FlightControlFlag false.
Definition ClearEffectorOutputFlag := write_EffectorOutputFlag false.
(** The set side of the two pending flags, owned by a timer. *)
Definition SetFlightControlFlag := write_FlightControlFlag true.
Definition SetEffectorOutputFlag := write_EffectorOutputFlag true.

End AircraftMission.

(** ** The FMU assembled *)

(** The sensor, control-law, effector and configuration objects with the
    data tree they share, through the methods the loop calls.  They stay
    abstract: [Env] is their joint state.  [UpdateMode_effect] is what
    [Mission.UpdateMode(&Sensors,&Control,&Effectors,&GlobalData)] does to
    them on going from one mode to another.  [ConfigUpdate] is
    [Config.Update] by its contract in the spec, [Config.update(rawPayload)]:
    it configures these objects and leaves the flags of the mission to the
    interrupt, the timer and the loop. *)
Class Plant (Env : Type) := {
  ReadSyncSensors : Env -> Env;
  GetDataBuffer : Env -> list byte;
  ReadAsyncSensors : Env -> Env;
  ActiveControlLevels : Env -> N;
  ControlRun : N -> Env -> Env;
  ComputeOutputs : bool -> Env -> Env;
  CommandEffectors : Env -> Env;
  SetCommands : list float32 -> bool -> Env -> Env;
  ConfigUpdate : list byte -> Env -> Env;
  ThrottleSafed : Env -> bool;
  UseSocEffectorComands : Env -> bool;
  UpdateMode_effect : Mode -> Mode -> Env -> Env
}.

(** The globals [Mission] and [SocComms] of main.cpp, and the rest. *)
Record Fmu (Env : Type) := {
  Mission : AircraftMission.t;
  SocComms : AircraftSocComms.t;
  plant : Env
}.

Section FmuCollaborators.
Context {Env : Type} `{Plant Env}
        `{AircraftMission.Scheduler} `{AircraftSocComms.WireFormat}.

Definition on_Mission (f : AircraftMission.t -> AircraftMission.t) (w : Fmu Env) : Fmu Env :=
  {| Mission := f (Mission w); SocComms := SocComms w; plant := plant w |}.

Definition on_SocComms (f : AircraftSocComms.t -> AircraftSocComms.t) (w : Fmu Env) : Fmu Env :=
  {| Mission := Mission w; SocComms := f (SocComms w); plant := plant w |}.

Definition on_plant (f : Env -> Env) (w : Fmu Env) : Fmu Env :=
  {| Mission := Mission w; SocComms := SocComms w; plant := f (plant w) |}.

(** A typed accessor of the mailbox as a [bool f(T *out)] method. *)
Definition accessor {T} (f : AircraftSocComms.t -> option T * AircraftSocComms.t)
           (out : T) (w : Fmu Env) : bool * T * Fmu Env :=
  match f (SocComms w) with
  | (Some v, c) => (true, v, on_SocComms (fun _ => c) w)
  | (None, c) => (false, out, on_SocComms (fun _ => c) w)
  end.

#[export] Instance fmu_collaborators : Collaborators (Fmu Env) := {
  Mission_UpdateMode w :=
    {| Mission := AircraftMission.UpdateMode (Mission w);
       SocComms := SocComms w;
       plant := UpdateMode_effect (AircraftMission.Mode_ (Mission w))
                  (AircraftMission.RequestedMode_ (Mission w)) (plant w) |};
  Mission_GetMode w := AircraftMission.GetMode (Mission w);
  Mission_UpdateState := on_Mission AircraftMission.UpdateState;
  Mission_GetState w := AircraftMission.GetState (Mission w);
  Mission_ClearImuDataReady := on_Mission AircraftMission.ClearImuDataReady;
  Mission_ClearFlightControlFlag := on_Mission AircraftMission.ClearFlightControlFlag;
  Mission_ClearEffectorOutputFlag := on_Mission AircraftMission.ClearEffectorOutputFlag;
  Mission_ThrottleSafed w := ThrottleSafed (plant w);
  Mission_UseSocEffectorComands w := UseSocEffectorComands (plant w);
  Mission_SetRequestedMode r := on_Mission (AircraftMission.SetRequestedMode r);
  Sensors_ReadSyncSensors := on_plant ReadSyncSensors;
  Sensors_GetDataBuffer w := GetDataBuffer (plant w);
  Sensors_ReadAsyncSensors := on_plant ReadAsyncSensors;
  Control_ActiveControlLevels w := ActiveControlLevels (plant w);
  Control_Run i := on_plant (ControlRun i);
  Effectors_ComputeOutputs b := on_plant (ComputeOutputs b);
  Effectors_CommandEffectors := on_plant CommandEffectors;
  Effectors_SetCommands v b := on_plant (SetCommands v b);
  Config_Update buf := on_plant (ConfigUpdate buf);
  SocComms_SendSensorData buf := on_SocComms (AircraftSocComms.SendSensorData buf);
  SocComms_ReceiveEffectorCommand := accessor AircraftSocComms.ReceiveEffectorCommand;
  SocComms_ReceiveConfigMessage := accessor AircraftSocComms.ReceiveConfigMessage;
  SocComms_ReceiveModeCommand := accessor AircraftSocComms.ReceiveModeCommand;
  SocComms_CheckMessages := on_SocComms AircraftSocComms.CheckMessages
}.

(** What happens to the FMU from outside the loop: the IMU interrupt
    ([ImuInterrupt] of main.cpp, which calls [Mission.SetImuDataReady]),
    and, modelled from the spec, the timer that sets the two pending flags
    and a frame arriving from the SOC.  Outside events are taken between
    rounds. *)
Inductive External :=
| ImuInterrupt
| FlightControlTimer
| EffectorOutputTimer
| FrameArrival (f : list byte).

Definition external (e : External) (w : Fmu Env) : Fmu Env :=
  match e with
  | ImuInterrupt => on_Mission AircraftMission.SetImuDataReady w
  | FlightControlTimer => on_Mission AircraftMission.SetFlightControlFlag w
  | EffectorOutputTimer => on_Mission AircraftMission.SetEffectorOutputFlag w
  | FrameArrival f => on_SocComms (AircraftSocComms.arrive f) w
  end.

(** A step of a run: a round of the loop, or an outside event. *)
Inductive Step := Iteration | Outside (e : External).

(** The two pending flags, each with the state it makes eligible, the
    call that clears it, the call that does the work of its block, and the
    outside event that sets it. *)
Inductive PendingFlag := FlightControlFlagPending | EffectorOutputFlagPending.

Definition flag_value (f : PendingFlag) (m : AircraftMission.t) : bool :=
  match f with
  | FlightControlFlagPending => AircraftMission.FlightControlFlag_ m
  | EffectorOutputFlagPending => AircraftMission.EffectorOutputFlag_ m
  end.

Definition flag_state (f : PendingFlag) : State :=
  match f with
  | FlightControlFlagPending => FlightControl
  | EffectorOutputFlagPending => EffectorOutput
  end.

Definition flag_clear (f : PendingFlag) : Call.t :=
  match f with
  | FlightControlFlagPending => Call.ClearFlightControlFlag
  | EffectorOutputFlagPending => Call.ClearEffectorOutputFlag
  end.

Definition is_flag_clear (f : PendingFlag) : Call.t -> bool :=
  match f with
  | FlightControlFlagPending => Call.is_ClearFlightControlFlag
  | EffectorOutputFlagPending => Call.is_ClearEffectorOutputFlag
  end.

Definition is_flag_work (f : PendingFlag) : Call.t -> bool :=
  match f with
  | FlightControlFlagPending => Call.is_ComputeOutputs
  | EffectorOutputFlagPending => Call.is_CommandEffectors
  end.

Definition sets_flag (f : PendingFlag) (x : Step) : bool :=
  match f, x with
  | FlightControlFlagPending, Outside FlightControlTimer => true
  | EffectorOutputFlagPending, Outside EffectorOutputTimer => true
  | _, _ => false
  end.

(** A run of the FMU: rounds of the loop with outside events between
    them. *)
Definition step (x : Step) : Prog unit :=
  match x with
  | Iteration => loop_body
  | Outside e => fun s => (tt, set_world s (external e (world s)), [])
  end.

Fixpoint run (steps : list Step) : Prog unit :=
  match steps with
  | [] => ret tt
  | x :: rest => step x ;; run rest
  end.

End FmuCollaborators.

(** ** [FGRouteMgr] (route_mgr.cpp) *)

(** What route_mgr.cpp takes from its headers: [rapidjson::Value] with the
    three ways the file reads it, the waypoint class with its constructor
    from a JSON value, and class [SGRoute] with the methods called here. *)
Class RouteEnv := {
  Value : Type;
  HasMember : Value -> string -> bool;
  member : Value -> string -> Value;
  elements : Value -> list Value;
  SGWayPoint : Type;
  SGWayPoint_of_Value : Value -> SGWayPoint;
  SGRoute : Type;
  SGRoute_size : SGRoute -> Z;
  SGRoute_clear : SGRoute -> SGRoute;
  SGRoute_add_waypoint : SGWayPoint -> SGRoute -> SGRoute;
  SGRoute_set_current : Z -> SGRoute -> SGRoute;
  SGRoute_get_waypoint_index : SGRoute -> Z
}.

Module FGRouteMgr.

(** The two [SGRoute] objects the constructor allocates, and pointers
    to them. *)
Inductive ptr := route_a | route_b.

Definition ptr_eqb (p q : ptr) : bool :=
  match p, q with
  | route_a, route_a | route_b, route_b => true
  | _, _ => false
  end.

Record heap `{RouteEnv} := {
  at_a : SGRoute;
  at_b : SGRoute
}.

Definition load `{RouteEnv} (h : heap) (p : ptr) : SGRoute :=
  match p with route_a => at_a h | route_b => at_b h end.

Definition store `{RouteEnv} (h : heap) (p : ptr) (r : SGRoute) : heap :=
  match p with
  | route_a => {| at_a := r; at_b := at_b h |}
  | route_b => {| at_a := at_a h; at_b := r |}
  end.

Inductive StartMode := FIRST_WPT | FIRST_LEG.
Inductive CompletionMode := LOOP | EXTEND_LAST_LEG.

(** The members that [init], [swap] and [build] read or write, with the
    two mode members; the floating-point navigation members are touched
    by [update] only. *)
Record t `{RouteEnv} := {
  routes : heap;
  active : ptr;
  standby : ptr;
  pos_set : bool;
  start_mode : StartMode;
  completion_mode : CompletionMode
}.

(** A [printf]: the format and its integer arguments. *)
Record Output := printf { format : string; args : list Z }.

(** [p->f(...)] for a method [f] that changes the route. *)
Definition update_route `{RouteEnv} (p : ptr) (f : SGRoute -> SGRoute) (m : t) : t :=
  {| routes := store (routes m) p (f (load (routes m) p));
     active := active m; standby := standby m; pos_set := pos_set m;
     start_mode := start_mode m; completion_mode := completion_mode m |}.

Definition active_route `{RouteEnv} (m : t) : SGRoute := load (routes m) (active m).
Definition standby_route `{RouteEnv} (m : t) : SGRoute := load (routes m) (standby m).

(** [FGRouteMgr::swap]. *)
Definition swap `{RouteEnv} (m : t) : bool * t :=
  if (SGRoute_size (standby_route m) =? 0)%Z then
    (* standby route is empty *)
    (false, m)
  else
    (* swap standby <=> active routes *)
    let tmp := active m in
    let m1 := {| routes := routes m; active := standby m; standby := tmp;
                 pos_set := pos_set m; start_mode := start_mode m;
                 completion_mode := completion_mode m |} in
    (* set target way point to the first waypoint in the new active route *)
    let m2 := update_route (active m1) (SGRoute_set_current 0) m1 in
    let m3 := {| routes := routes m2; active := active m2; standby := standby m2;
                 pos_set := false; start_mode := start_mode m2;
                 completion_mode := completion_mode m2 |} in
    (true, m3).

(** [FGRouteMgr::build]: build a route from a property (sub) tree. *)
Definition build `{RouteEnv} (Config : Value) (m : t) : bool * t * list Output :=
  let m1 := update_route (standby m) SGRoute_clear m in
  let m2 :=
    if HasMember Config "waypoints" then
      let waypoints := member Config "waypoints" in
      fold_left
        (fun acc it =>
           let wpt := SGWayPoint_of_Value it in
           update_route (standby acc) (SGRoute_add_waypoint wpt) acc)
        (elements waypoints) m1
    else m1 in
  (true, m2,
   [printf "loaded %d waypoints\n" [SGRoute_size (standby_route m2)]]).

(** How [init] ends: it returns, or it leaves the process by [exit]. *)
Inductive Outcome `{RouteEnv} :=
| Returned (m : t)
| Exited (code : Z).

(** [FGRouteMgr::init].  The lookups and registrations in the definition
    tree bind file-level pointers and do not touch the routes; they are
    left out. *)
Definition init `{RouteEnv} (Config : Value) (m : t) : Outcome * list Output :=
  let out0 := [printf "Initializing Route Manager...\n" []] in
  let m1 := update_route (active m) SGRoute_clear m in
  let m2 := update_route (standby m1) SGRoute_clear m1 in
  let '(ok, m3, out1) := build Config m2 in
  if negb ok then
    (Exited (-1),
     out0 ++ out1 ++
     [printf "Detected an internal inconsistency in the route\n" [];
      printf " configuration.  See earlier errors for details.\n" []])
  else
    (* build() constructs the new route in the "standby" slot,
       swap it to "active" *)
    (Returned (snd (swap m3)), out0 ++ out1).

(** The two route pointers of a manager point to different objects: the
    constructor makes it so, and [swap] keeps it so. *)
Definition distinct_routes `{RouteEnv} (m : t) : Prop := active m <> standby m.

(** The object as the constructor leaves it, given the two fresh routes. *)
Definition create `{RouteEnv} (fresh_active fresh_standby : SGRoute) : t :=
  {| routes := {| at_a := fresh_active; at_b := fresh_standby |};
     active := route_a; standby := route_b;
     pos_set := false; start_mode := FIRST_WPT; completion_mode := LOOP |}.

End FGRouteMgr.

(** ** Concrete instances

    Small instances of the parameters above, on which the definitions can
    be run. *)

Module Sample.

(** A one-byte length field; modes coded by their position in
    [Configuration, Run]. *)
#[export] Instance wire : AircraftSocComms.WireFormat := {
  length_bytes := 1;
  mode_of_byte b :=
    match b with
    | x00 => Some Configuration
    | x01 => Some Run
    | _ => None
    end
}.

(** A scheduler that takes the eligible states in the order sync data,
    flight control, effector output, and polls the asynchronous sensors
    when none of these is due. *)
Definition by_priority (m : AircraftMission.t) : State :=
  if AircraftMission.ImuDataReady_ m then SyncDataCollection
  else if AircraftMission.FlightControlFlag_ m then FlightControl
  else if AircraftMission.EffectorOutputFlag_ m then EffectorOutput
  else AsyncDataCollection.

Lemma by_priority_eligible m :
  AircraftMission.eligible m (by_priority m) = true.
Proof.
  unfold by_priority.
  destruct (AircraftMission.ImuDataReady_ m) eqn:Hi; [exact Hi|].
  destruct (AircraftMission.FlightControlFlag_ m) eqn:Hf; [exact Hf|].
  destruct (AircraftMission.EffectorOutputFlag_ m) eqn:He; [exact He|].
  reflexivity.
Qed.

#[export] Instance scheduler : AircraftMission.Scheduler := {
  select_state := by_priority;
  select_eligible := by_priority_eligible
}.

(** A plant with two control levels that counts the calls made on it. *)
#[export] Instance counting_plant : Plant nat := {
  ReadSyncSensors n := S n;
  GetDataBuffer _ := [x0a; x0b];
  ReadAsyncSensors n := S n;
  ActiveControlLevels _ := 2%N;
  ControlRun _ n := S n;
  ComputeOutputs _ n := S n;
  CommandEffectors n := S n;
  SetCommands _ _ n := S n;
  ConfigUpdate _ n := S n;
  ThrottleSafed _ := false;
  UseSocEffectorComands _ := true;
  UpdateMode_effect _ _ n := n
}.

Definition link : AircraftSocComms.SerialLink :=
  {| AircraftSocComms.rx := []; AircraftSocComms.tx := [] |}.

(** A mailbox with nothing pending (the slot's kind and payload are
    whatever was last stored). *)
Definition idle : AircraftSocComms.t :=
  {| AircraftSocComms.bus_ := link;
     AircraftSocComms.baud_ := 1500000;
     AircraftSocComms.MessageReceived_ := false;
     AircraftSocComms.ReceivedMessage_ := AircraftSocComms.ModeCommand;
     AircraftSocComms.ReceivedPayload_ := [] |}.

(** A mailbox holding a message. *)
Definition holding (k : AircraftSocComms.Message) (p : list byte) : AircraftSocComms.t :=
  {| AircraftSocComms.bus_ := link;
     AircraftSocComms.baud_ := 1500000;
     AircraftSocComms.MessageReceived_ := true;
     AircraftSocComms.ReceivedMessage_ := k;
     AircraftSocComms.ReceivedPayload_ := p |}.

Definition mission (requested : Mode) (imu fc eo : bool) : AircraftMission.t :=
  {| AircraftMission.Mode_ := requested;
     AircraftMission.RequestedMode_ := requested;
     AircraftMission.State_ := AsyncDataCollection;
     AircraftMission.ImuDataReady_ := imu;
     AircraftMission.FlightControlFlag_ := fc;
     AircraftMission.EffectorOutputFlag_ := eo |}.

Definition fmu (m : AircraftMission.t) (c : AircraftSocComms.t) : Main (Fmu nat) :=
  {| world := {| Mission := m; SocComms := c; plant := 0 |};
     MissionMode := Configuration;
     MissionState := SyncDataCollection;
     RequestedMode := Configuration;
     EffectorCommands := [] |}.

(** A payload of 255 bytes, the longest a one-byte length field allows. *)
Definition longest : list byte := repeat x5a 255.

(** A JSON value, read the way route_mgr.cpp reads one. *)
#[local] Unset Elimination Schemes.
Inductive json :=
| JNull
| JNumber (z : Z)
| JArray (items : list json)
| JObject (members : list (string * json)).
#[local] Set Elimination Schemes.

Fixpoint lookup (name : string) (members : list (string * json)) : option json :=
  match members with
  | [] => None
  | (n, v) :: rest => if String.eqb n name then Some v else lookup name rest
  end.

(** A route as a vector of waypoints with the index of the current one;
    [set_current] takes an index inside the route only. *)
Record route := {
  waypoints : list json;
  current_wp : Z
}.

#[export] Instance route_env : RouteEnv := {
  Value := json;
  HasMember v name :=
    match v with
    | JObject members =>
        match lookup name members with Some _ => true | None => false end
    | _ => false
    end;
  member v name :=
    match v with
    | JObject members =>
        match lookup name members with Some x => x | None => JNull end
    | _ => JNull
    end;
  elements v := match v with JArray items => items | _ => [] end;
  SGWayPoint := json;
  SGWayPoint_of_Value v := v;
  SGRoute := route;
  SGRoute_size r := Z.of_nat (length (waypoints r));
  SGRoute_clear _ := {| waypoints := []; current_wp := 0 |};
  SGRoute_add_waypoint wp r :=
    {| waypoints := waypoints r ++ [wp]; current_wp := current_wp r |};
  SGRoute_set_current n r :=
    if ((0 <=? n) && (n <? Z.of_nat (length (waypoints r))))%Z
    then {| waypoints := waypoints r; current_wp := n |}
    else r;
  SGRoute_get_waypoint_index := current_wp
}.

Definition empty_route : route := {| waypoints := []; current_wp := 0 |}.

(** A manager flying a two-point route, at its second point, with a
    three-point route on standby. *)
Definition manager : FGRouteMgr.t :=
  {| FGRouteMgr.routes :=
       {| FGRouteMgr.at_a := {| waypoints := [JNumber 1; JNumber 2]; current_wp := 1 |};
          FGRouteMgr.at_b := {| waypoints := [JNumber 3; JNumber 4; JNumber 5];
                                current_wp := 2 |} |};
     FGRouteMgr.active := FGRouteMgr.route_a;
     FGRouteMgr.standby := FGRouteMgr.route_b;
     FGRouteMgr.pos_set := true;
     FGRouteMgr.start_mode := FGRouteMgr.FIRST_WPT;
     FGRouteMgr.completion_mode := FGRouteMgr.LOOP |}.

(** The same with nothing on standby. *)
Definition manager_no_standby : FGRouteMgr.t :=
  {| FGRouteMgr.routes :=
       {| FGRouteMgr.at_a := {| waypoints := [JNumber 1; JNumber 2]; current_wp := 1 |};
          FGRouteMgr.at_b := empty_route |};
     FGRouteMgr.active := FGRouteMgr.route_a;
     FGRouteMgr.standby := FGRouteMgr.route_b;
     FGRouteMgr.pos_set := true;
     FGRouteMgr.start_mode := FGRouteMgr.FIRST_WPT;
     FGRouteMgr.completion_mode := FGRouteMgr.LOOP |}.

End Sample.


(** ** More of the control loop: the meaning of the control-law loop *)

Section ControlLevelsMeaning.
Context {W : Type} `{Collaborators W}.

(** [for (size_t ControlLevelIndex = i;
         ControlLevelIndex < Control.ActiveControlLevels();
         ControlLevelIndex++) Control.Run(ControlLevelIndex);]
    as a relation: started at index [i] in world [w], the loop ends in
    world [w'] having made the calls [l].  Each test asks for the bound
    again. *)
Inductive for_levels : N -> W -> W -> list Call.t -> Prop :=
| for_levels_exit (i : N) (w : W) :
    (i <? size_t (Control_ActiveControlLevels w))%N = false ->
    for_levels i w w [Call.ActiveControlLevels]
| for_levels_round (i : N) (w w' : W) (l : list Call.t) :
    (i <? size_t (Control_ActiveControlLevels w))%N = true ->
    for_levels (size_t (i + 1)) (Control_Run i w) w' l ->
    for_levels i w w' (Call.ActiveControlLevels :: Call.ControlRun i :: l).

(** The calls of a loop that runs the levels [0] to [n - 1], and the world
    it leaves. *)
Definition level_calls (n : nat) : list Call.t :=
  flat_map (fun i => [Call.ActiveControlLevels; Call.ControlRun (N.of_nat i)])
    (seq 0 n)
  ++ [Call.ActiveControlLevels].

Definition run_levels (n : nat) (w : W) : W :=
  fold_left (fun w' i => Control_Run (N.of_nat i) w') (seq 0 n) w.

End ControlLevelsMeaning.

Definition is_ControlRun (c : Call.t) : bool :=
  match c with Call.ControlRun _ => true | _ => false end.

Definition is_SendSensorData (c : Call.t) : bool :=
  match c with Call.SendSensorData _ => true | _ => false end.

(** ** More of [FGRouteMgr]: [update] and [new_waypoint] (route_mgr.cpp) *)

(** [SGWayPoint::RELATIVE] and [SGWayPoint::ABSOLUTE]. *)
Inductive WaypointMode := RELATIVE | ABSOLUTE.

(** What [update] and [new_waypoint] take from outside the file beyond
    [RouteEnv]: the numbers ([float] and [double] alike are values of
    [real], handled only through the operations listed, so that nothing is
    said of their values or of rounding; the members written are declared
    in route_mgr.hxx, so a narrowing on storing them is not told apart),
    [<math.h>], the other constructors of [SGWayPoint] with
    [CourseAndDistance] in its two forms (each yielding the course and
    the distance), and the remaining methods of [SGRoute] called here.
    Sizes and indices are the integers they denote, as in [RouteEnv]. *)
Class RouteNav `{RouteEnv} := {
  real : Type;
  r_add : real -> real -> real;
  r_sub : real -> real -> real;
  r_mul : real -> real -> real;
  r_div : real -> real -> real;
  r_ltb : real -> real -> bool;
  r_sqrt : real -> real;
  r_sin : real -> real;
  r_cos : real -> real;
  M_PI : real;
  c_0 : real;
  c_0_1 : real;
  c_50 : real;
  c_180 : real;
  c_360 : real;
  c_minus_180 : real;
  SGWayPoint_at : real -> real -> SGWayPoint;
  SGWayPoint_make : real -> real -> WaypointMode -> SGWayPoint;
  CourseAndDistance_to : SGWayPoint -> real -> real -> real * real;
  CourseAndDistance_from : SGWayPoint -> SGWayPoint -> real * real;
  SGRoute_refresh_offset_positions : SGWayPoint -> real -> SGRoute -> SGRoute;
  SGRoute_increment_current : SGRoute -> SGRoute;
  SGRoute_get_previous : SGRoute -> SGWayPoint;
  SGRoute_get_current : SGRoute -> SGWayPoint;
  SGRoute_set_acquired : bool -> SGRoute -> SGRoute;
  SGRoute_get_remaining_distance_from_current_waypoint : SGRoute -> real
}.

Module FGRouteNav.
Import FGRouteMgr.

Section WithNav.
Context `{RouteNav}.

(** [static const double r2d = 180.0 / M_PI], [d2r = M_PI / 180.0]. *)
Definition r2d : real := r_div c_180 M_PI.
Definition d2r : real := r_div M_PI c_180.

(** What the file-level pointers bound by [init] point to when [update]
    runs. *)
Record Sensed := {
  vn : real;
  ve : real;
  track : real;
  lat_rad : real;
  lon_rad : real;
  gps_fix : Z
}.

(** The members [update] writes besides those of [FGRouteMgr.t], and its
    [static int count]. *)
Record Nav := {
  course_error_rad : real;
  xtrack_m : real;
  nav_dist_m : real;
  leg_course : real;
  dist_remaining_m : real;
  count : Z
}.

(** A [printf] of numbers. *)
Record Say := say { text : string; values : list real }.

Definition set_pos_set (b : bool) (m : t) : t :=
  {| routes := routes m; active := active m; standby := standby m;
     pos_set := b; start_mode := start_mode m;
     completion_mode := completion_mode m |}.

Definition set_start_mode (x : StartMode) (m : t) : t :=
  {| routes := routes m; active := active m; standby := standby m;
     pos_set := pos_set m; start_mode := x;
     completion_mode := completion_mode m |}.

(** [if ( x < -180.0 ) { x += 360.0; } else if ( x > 180.0 ) { x -= 360.0; }],
    which [update] applies to [angle] and to [course_error]. *)
Definition wrap_half_turn (x : real) : real :=
  if r_ltb x c_minus_180 then r_add x c_360
  else if r_ltb c_180 x then r_sub x c_360
  else x.

(** [if ( !pos_set && *gps_fix == 1 ) { ... }] *)
Definition position (inp : Sensed) (lon_deg lat_deg : real) (m : t) : t * list Say :=
  if negb (pos_set m) && (gps_fix inp =? 1)%Z then
    (set_pos_set true
       (update_route (active m)
          (SGRoute_refresh_offset_positions (SGWayPoint_at lon_deg lat_deg) c_0) m),
     [say "Positioning relative waypoints...\n" []])
  else (m, []).

(** The route start up logic. *)
Definition start_up (m : t) : t :=
  match start_mode m with
  | FIRST_LEG =>
      if (SGRoute_get_waypoint_index (active_route m) =? 0)%Z then
        if (1 <? SGRoute_size (active_route m))%Z
        then update_route (active m) SGRoute_increment_current m
        else set_start_mode FIRST_WPT m
      else m
  | FIRST_WPT => m
  end.

(** The logic to mark completion of leg and move to next leg. *)
Definition complete_leg (nav_dist : real) (m : t) : t :=
  match completion_mode m with
  | LOOP =>
      if r_ltb nav_dist c_50 then
        update_route (active m) SGRoute_increment_current
          (update_route (active m) (SGRoute_set_acquired true) m)
      else m
  | EXTEND_LAST_LEG =>
      if r_ltb nav_dist c_50 then
        let m1 := update_route (active m) (SGRoute_set_acquired true) m in
        if (SGRoute_get_waypoint_index (active_route m1)
            <? SGRoute_size (active_route m1) - 1)%Z
        then update_route (active m1) SGRoute_increment_current m1
        else (* follow the last leg forever *) m1
      else m
  end.

(** [FGRouteMgr::update]. *)
Definition update (inp : Sensed) (m : t) (nv : Nav) : t * Nav * list Say :=
  let gs_mps := r_sqrt (r_add (r_mul (vn inp) (vn inp)) (r_mul (ve inp) (ve inp))) in
  let track_deg := r_mul (track inp) r2d in
  let lat_deg := r_mul (lat_rad inp) r2d in
  let lon_deg := r_mul (lon_rad inp) r2d in
  let '(m1, out1) := position inp lon_deg lat_deg m in
  let '(m4, nv4, out4) :=
    if (0 <? SGRoute_size (active_route m1))%Z then
      let m2 := start_up m1 in
      (* track current waypoint of route *)
      let prev := SGRoute_get_previous (active_route m2) in
      let wp := SGRoute_get_current (active_route m2) in
      (* compute direct-to course and distance *)
      let '(direct_course, direct_distance) :=
        CourseAndDistance_to wp lon_deg lat_deg in
      (* compute leg course and distance *)
      let '(leg_course', leg_distance) := CourseAndDistance_from wp prev in
      (* difference between ideal (leg) course and direct course *)
      let angle := wrap_half_turn (r_sub leg_course' direct_course) in
      (* compute course error *)
      let course_error := wrap_half_turn (r_sub leg_course' track_deg) in
      let course_error_rad' := r_mul course_error d2r in
      (* compute cross-track error *)
      let angle_rad := r_mul angle d2r in
      let xtrack_m' := r_mul (r_sin angle_rad) direct_distance in
      let dist_m := r_mul (r_cos angle_rad) direct_distance in
      let nav_dist_m' := dist_m in
      let '(count', out2) :=
        if (10 <? count nv)%Z
        then (0%Z,
              [say "crs:%.0f err:%.0f xtrk:%.1f dist:%.0f\n"
                 [leg_course'; course_error; xtrack_m'; nav_dist_m']])
        else ((count nv + 1)%Z, []) in
      (* estimate distance remaining to completion of route *)
      let dist_remaining_m' :=
        r_add nav_dist_m'
          (SGRoute_get_remaining_distance_from_current_waypoint (active_route m2)) in
      let m3 := complete_leg nav_dist_m' m2 in
      (m3,
       {| course_error_rad := course_error_rad'; xtrack_m := xtrack_m';
          nav_dist_m := nav_dist_m'; leg_course := leg_course';
          dist_remaining_m := dist_remaining_m'; count := count' |},
       out2)
    else (m1, nv, []) in
  let _ := r_ltb c_0_1 gs_mps in
  (m4, nv4, out1 ++ out4).

(** [update] called once for each of the inputs, in order. *)
Fixpoint updates (inputs : list Sensed) (m : t) (nv : Nav) : t * Nav * list Say :=
  match inputs with
  | [] => (m, nv, [])
  | inp :: rest =>
      let '(m1, nv1, out1) := update inp m nv in
      let '(m2, nv2, out2) := updates rest m1 nv1 in
      (m2, nv2, out1 ++ out2)
  end.

Definition is_positioning (o : Say) : bool :=
  String.eqb (text o) "Positioning relative waypoints...\n".

Definition is_status (o : Say) : bool :=
  String.eqb (text o) "crs:%.0f err:%.0f xtrk:%.1f dist:%.0f\n".

(** What [update] and [new_waypoint] leave alone in going from [m] to
    [m']: the two route pointers, the standby route and the completion
    mode. *)
Definition keeps_standby (m m' : t) : Prop :=
  active m' = active m
  /\ standby m' = standby m
  /\ standby_route m' = standby_route m
  /\ completion_mode m' = completion_mode m.

(** [FGRouteMgr::new_waypoint]. *)
Definition new_waypoint (field1 field2 : real) (mode : Z) (m : t) : Z * t :=
  if (mode =? 0)%Z then
    (* relative waypoint *)
    let wp := SGWayPoint_make field2 field1 RELATIVE in
    (1%Z, update_route (standby m) (SGRoute_add_waypoint wp) m)
  else if (mode =? 1)%Z then
    (* absolute waypoint *)
    let wp := SGWayPoint_make field1 field2 ABSOLUTE in
    (1%Z, update_route (standby m) (SGRoute_add_waypoint wp) m)
  else (1%Z, m).

(** The waypoints a configuration lists: the elements of its member
    ["waypoints"], none when it has no such member. *)
Definition listed (Config : Value) : list Value :=
  if HasMember Config "waypoints" then elements (member Config "waypoints") else [].

(** A route with the waypoints of the values added in order. *)
Definition add_all (vs : list Value) (r : SGRoute) : SGRoute :=
  fold_left (fun acc it => SGRoute_add_waypoint (SGWayPoint_of_Value it) acc) vs r.

End WithNav.
End FGRouteNav.

(** ** A sample of the numbers and of the rest of the route classes *)

Module NavSample.
Import Sample.

(** A waypoint is the array of its coordinates (and of its mode, when it
    has one). *)
Definition coordinate (wp : json) (k : nat) : Z :=
  match wp with
  | JArray items => match nth k items JNull with JNumber z => z | _ => 0%Z end
  | _ => 0%Z
  end.

(** Distances are taken along the axes. *)
Definition axis_distance (wp : json) (lon lat : Z) : Z :=
  (Z.abs (coordinate wp 0 - lon) + Z.abs (coordinate wp 1 - lat))%Z.

(** Numbers in thousandths, with the sine and cosine of a small angle;
    all courses are 0; a route goes round its waypoints. *)
#[export] Instance nav : @RouteNav route_env := {
  real := Z;
  r_add := Z.add;
  r_sub := Z.sub;
  r_mul a b := (a * b / 1000)%Z;
  r_div a b := (a * 1000 / b)%Z;
  r_ltb := Z.ltb;
  r_sqrt a := Z.sqrt (a * 1000);
  r_sin a := a;
  r_cos _ := 1000%Z;
  M_PI := 3142%Z;
  c_0 := 0%Z;
  c_0_1 := 100%Z;
  c_50 := 50000%Z;
  c_180 := 180000%Z;
  c_360 := 360000%Z;
  c_minus_180 := (-180000)%Z;
  SGWayPoint_at lon lat := JArray [JNumber lon; JNumber lat];
  SGWayPoint_make a b mode :=
    JArray [JNumber a; JNumber b;
            JNumber (match mode with RELATIVE => 0 | ABSOLUTE => 1 end)];
  CourseAndDistance_to wp lon lat := (0%Z, axis_distance wp lon lat);
  CourseAndDistance_from wp prev :=
    (0%Z, axis_distance wp (coordinate prev 0) (coordinate prev 1));
  SGRoute_refresh_offset_positions _ _ r := r;
  SGRoute_increment_current r :=
    {| waypoints := waypoints r;
       current_wp := ((current_wp r + 1) mod Z.max 1 (Z.of_nat (length (waypoints r))))%Z |};
  SGRoute_get_previous r := nth (Z.to_nat (current_wp r - 1)) (waypoints r) JNull;
  SGRoute_get_current r := nth (Z.to_nat (current_wp r)) (waypoints r) JNull;
  SGRoute_set_acquired _ r := r;
  SGRoute_get_remaining_distance_from_current_waypoint _ := 0%Z
}.

(** What the sensors report at the origin, at rest, with the given GPS
    fix. *)
Definition sensed (fix_type : Z) : FGRouteNav.Sensed :=
  {| FGRouteNav.vn := 0%Z; FGRouteNav.ve := 0%Z; FGRouteNav.track := 0%Z;
     FGRouteNav.lat_rad := 0%Z; FGRouteNav.lon_rad := 0%Z;
     FGRouteNav.gps_fix := fix_type |}.

(** The navigation outputs before the first [update]. *)
Definition nav0 : FGRouteNav.Nav :=
  {| FGRouteNav.course_error_rad := 0%Z; FGRouteNav.xtrack_m := 0%Z;
     FGRouteNav.nav_dist_m := 0%Z; FGRouteNav.leg_course := 0%Z;
     FGRouteNav.dist_remaining_m := 0%Z; FGRouteNav.count := 0%Z |}.

(** [Sample.manager] before its waypoints are positioned. *)
Definition manager_unset : FGRouteMgr.t :=
  {| FGRouteMgr.routes := FGRouteMgr.routes manager;
     FGRouteMgr.active := FGRouteMgr.route_a;
     FGRouteMgr.standby := FGRouteMgr.route_b;
     FGRouteMgr.pos_set := false;
     FGRouteMgr.start_mode := FGRouteMgr.FIRST_WPT;
     FGRouteMgr.completion_mode := FGRouteMgr.LOOP |}.

(** A manager with no route to fly and a three-point route on standby. *)
Definition manager_no_route : FGRouteMgr.t :=
  {| FGRouteMgr.routes :=
       {| FGRouteMgr.at_a := empty_route;
          FGRouteMgr.at_b := {| waypoints := [JNumber 3; JNumber 4; JNumber 5];
                                current_wp := 2 |} |};
     FGRouteMgr.active := FGRouteMgr.route_a;
     FGRouteMgr.standby := FGRouteMgr.route_b;
     FGRouteMgr.pos_set := true;
     FGRouteMgr.start_mode := FGRouteMgr.FIRST_WPT;
     FGRouteMgr.completion_mode := FGRouteMgr.LOOP |}.

(** A configuration listing two waypoints, and one listing none. *)
Definition two_waypoints : json :=
  JObject [("waypoints"%string, JArray [JNumber 7; JNumber 8])].

Definition no_waypoints : json := JObject [("name"%string, JNumber 0)].

End NavSample.

(** ** The bytes of a float *)

(** Modelled from the spec: the four bytes a float occupies, in memory
    order, least significant first: what [float_of_bytes] reads back. *)
Definition bytes_of_float (x : float32) : list byte :=
  [AircraftSocComms.byte_of_N x;
   AircraftSocComms.byte_of_N (N.shiftr x 8);
   AircraftSocComms.byte_of_N (N.shiftr x 16);
   AircraftSocComms.byte_of_N (N.shiftr x 24)].

(** ** The states taken in order *)

(** Modelled from the spec: the fixed order of the states (section 4.2:
    sync data collection, async data collection, flight control, effector
    output), taken round. *)
Definition next_state (st : State) : State :=
  match st with
  | SyncDataCollection => AsyncDataCollection
  | AsyncDataCollection => FlightControl
  | FlightControl => EffectorOutput
  | EffectorOutput => SyncDataCollection
  end.

(** Modelled from the spec: the choice of [UpdateState] (mission.cpp is
    absent).  The eligible states are evaluated in the fixed order, and
    one state is current per iteration (section 3; main.cpp reads one
    [MissionState] per iteration): the state that becomes current is the
    first eligible one after the current state in that order.
    [AsyncDataCollection] has no flag gate, so one is always found. *)
Definition in_order_state (m : AircraftMission.t) : State :=
  let s1 := next_state (AircraftMission.State_ m) in
  let s2 := next_state s1 in
  let s3 := next_state s2 in
  if AircraftMission.eligible m s1 then s1
  else if AircraftMission.eligible m s2 then s2
  else if AircraftMission.eligible m s3 then s3
  else AsyncDataCollection.

Lemma in_order_eligible (m : AircraftMission.t) :
  AircraftMission.eligible m (in_order_state m) = true.
Proof.
  destruct m as [md rq st imu fc eo]. unfold in_order_state.
  destruct st, imu, fc, eo; reflexivity.
Qed.

(** Modelled from the spec: [UpdateState] making this choice. *)
Definition in_order : AircraftMission.Scheduler :=
  {| AircraftMission.select_state := in_order_state;
     AircraftMission.select_eligible := in_order_eligible |}.

(** How many iterations it takes at most to come from one state to
    another in the fixed order: between 1 and 4. *)
Definition turns (from target : State) : nat :=
  if State_eqb (next_state from) target then 1
  else if State_eqb (next_state (next_state from)) target then 2
  else if State_eqb (next_state (next_state (next_state from))) target then 3
  else 4.

(** The rounds among the steps of a run. *)
Definition iterations (steps : list Step) : nat :=
  length (filter (fun x => match x with Iteration => true | Outside _ => false end)
            steps).

Section FmuRuns.
Context {Env : Type} `{Plant Env}
        `{AircraftMission.Scheduler} `{AircraftSocComms.WireFormat}.

(** Every round of the run is a round with [Mode == Run]. *)
Fixpoint rounds_in_Run (steps : list Step) (s : Main (Fmu Env)) : bool :=
  match steps with
  | [] => true
  | x :: rest =>
      match x with
      | Iteration => Mode_eqb (mode_of_round s) Run
      | Outside _ => true
      end
      && rounds_in_Run rest (after (step x) s)
  end.

End FmuRuns.

(* ===================================================================== *)
(** * Part II.  The mailbox                                               *)
(* ===================================================================== *)

Section MailboxFacts.
Import AircraftSocComms.
Context `{WireFormat}.

Lemma Message_eqb_refl (m : Message) : Message_eqb m m = true.
Proof. destruct m; reflexivity. Qed.

Lemma Message_eqb_eq (a b : Message) : Message_eqb a b = true <-> a = b.
Proof. destruct a, b; simpl; split; congruence. Qed.

Lemma Message_eqb_neq (a b : Message) : a <> b -> Message_eqb a b = false.
Proof.
  intros Hab. destruct (Message_eqb a b) eqn:E; [|reflexivity].
  apply Message_eqb_eq in E. contradiction.
Qed.

Lemma Message_of_byte_of_Message (m : Message) :
  Message_of_byte (byte_of_Message m) = Some m.
Proof. destruct m; reflexivity. Qed.

(** *** The length field *)

Lemma to_N_byte_of_N (v : N) : Byte.to_N (byte_of_N v) = (v mod 256)%N.
Proof.
  unfold byte_of_N.
  destruct (Byte.of_N (v mod 256)) as [b|] eqn:E.
  - apply Byte.to_of_N. exact E.
  - apply Byte.of_N_None_iff in E.
    pose proof (N.mod_lt v 256). lia.
Qed.

Lemma length_encode_length (n : nat) (v : N) : length (encode_length n v) = n.
Proof.
  revert v. induction n as [|n IH]; intros v; simpl; [reflexivity|].
  now rewrite IH.
Qed.

Lemma decode_encode_length (n : nat) (v : N) :
  decode_length (encode_length n v) = (v mod 256 ^ N.of_nat n)%N.
Proof.
  revert v. induction n as [|n IH]; intros v.
  - simpl. now rewrite N.mod_1_r.
  - cbn [encode_length decode_length].
    rewrite IH, to_N_byte_of_N, Nnat.Nat2N.inj_succ, N.pow_succ_r'.
    rewrite (N.Div0.mod_mul_r v 256). reflexivity.
Qed.

Lemma decode_encode_length_small (n : nat) (v : N) :
  (v < 256 ^ N.of_nat n)%N -> decode_length (encode_length n v) = v.
Proof.
  intros Hv. rewrite decode_encode_length. now apply N.mod_small.
Qed.

Lemma max_payload_length_spec (v : N) :
  (v <= max_payload_length)%N <-> (v < 256 ^ N.of_nat length_bytes)%N.
Proof.
  unfold max_payload_length.
  assert (0 < 256 ^ N.of_nat length_bytes)%N
    by (apply N.neq_0_lt_0, N.pow_nonzero; discriminate).
  lia.
Qed.

(** *** Frames *)

Lemma decode_encode_frame (m : Message) (p : list byte) :
  (N.of_nat (length p) <= max_payload_length)%N ->
  decode_frame (encode_frame m p) = Some (m, p).
Proof.
  intros Hp. apply max_payload_length_spec in Hp.
  unfold decode_frame, encode_frame.
  rewrite Message_of_byte_of_Message.
  set (field := encode_length length_bytes (N.of_nat (length p))).
  assert (Hlen : length field = length_bytes) by apply length_encode_length.
  assert (Hfst : firstn length_bytes (field ++ p) = field).
  { rewrite <- Hlen, firstn_app, firstn_all, Nat.sub_diag. simpl.
    apply app_nil_r. }
  assert (Hskp : skipn length_bytes (field ++ p) = p).
  { rewrite <- Hlen, skipn_app, skipn_all, Nat.sub_diag. reflexivity. }
  cbv zeta. rewrite Hfst, Hskp, Hlen, Nat.eqb_refl.
  unfold field. rewrite decode_encode_length_small by exact Hp.
  now rewrite N.eqb_refl.
Qed.

(** *** Pumping *)

Lemma CheckMessages_idle (c : t) :
  rx (bus_ c) = [] -> CheckMessages c = c.
Proof.
  intros Hrx. unfold CheckMessages, ReceiveMessage. rewrite Hrx.
  destruct c as [[r x] ? ? ? ?]; simpl in *. reflexivity.
Qed.

Lemma CheckMessages_arrive (c : t) (m : Message) (p : list byte) :
  rx (bus_ c) = [] ->
  (N.of_nat (length p) <= max_payload_length)%N ->
  CheckMessages (arrive (encode_frame m p) c)
  = {| bus_ := {| rx := []; tx := tx (bus_ c) |}; baud_ := baud_ c;
       MessageReceived_ := true; ReceivedMessage_ := m;
       ReceivedPayload_ := p |}.
Proof.
  intros Hrx Hp.
  unfold CheckMessages, ReceiveMessage, arrive.
  cbn [bus_ rx tx set_bus]. rewrite Hrx. cbn [app].
  rewrite decode_encode_frame by exact Hp. reflexivity.
Qed.

Lemma CheckMessages_arrive_any (c : t) (f : list byte) :
  rx (bus_ c) = [] -> rx (bus_ (CheckMessages (arrive f c))) = [].
Proof.
  intros Hrx.
  unfold CheckMessages, ReceiveMessage, arrive.
  cbn [bus_ rx tx set_bus]. rewrite Hrx. cbn [app].
  destruct (decode_frame f) as [[m p]|]; reflexivity.
Qed.

(** *** Receiving by kind *)

Lemma tryReceive_match (c : t) :
  MessageReceived_ c = true ->
  tryReceive (ReceivedMessage_ c) c
  = (Some (ReceivedPayload_ c), set_MessageReceived c false).
Proof.
  intros Hp. unfold tryReceive. now rewrite Hp, Message_eqb_refl.
Qed.

Lemma tryReceive_mismatch (c : t) (k : Message) :
  ReceivedMessage_ c <> k -> tryReceive k c = (None, c).
Proof.
  intros Hk. unfold tryReceive.
  now rewrite (Message_eqb_neq Hk), andb_false_r.
Qed.

Lemma tryReceive_empty (c : t) (k : Message) :
  MessageReceived_ c = false -> tryReceive k c = (None, c).
Proof. intros Hp. unfold tryReceive. now rewrite Hp. Qed.

(** Whatever [tryReceive] hands over is the stored payload, and the
    stored kind and payload stay as they are. *)
Lemma tryReceive_payload (c : t) (k : Message) :
  (fst (tryReceive k c) = None \/ fst (tryReceive k c) = Some (ReceivedPayload_ c))
  /\ ReceivedPayload_ (snd (tryReceive k c)) = ReceivedPayload_ c
  /\ ReceivedMessage_ (snd (tryReceive k c)) = ReceivedMessage_ c.
Proof.
  unfold tryReceive.
  destruct (MessageReceived_ c && Message_eqb (ReceivedMessage_ c) k);
    simpl; auto.
Qed.

Lemma drain_payload (ks : list Message) (c : t) :
  Forall (fun r => r = None \/ r = Some (ReceivedPayload_ c)) (drain ks c).
Proof.
  revert c. induction ks as [|k ks IH]; intros c; simpl; constructor.
  - apply tryReceive_payload.
  - destruct (tryReceive_payload c k) as (_ & Hp & _).
    rewrite <- Hp. apply IH.
Qed.

End MailboxFacts.

Section MailboxClaims.
Import AircraftSocComms.
Context `{WireFormat}.

(** C5 (kind-selective drain).  With a message of kind [K] pending, a
    [tryReceive] for any other kind reports absent and leaves the whole
    mailbox, and so the pending flag, the stored kind and the stored
    payload, as it was; a [tryReceive K] made next, with no pump in
    between, hands over the payload and clears the slot. *)
Theorem kind_selective_drain (c : t) (K expectedKind : Message) :
  MessageReceived_ c = true ->
  ReceivedMessage_ c = K ->
  expectedKind <> K ->
  tryReceive expectedKind c = (None, c)
  /\ fst (tryReceive K (snd (tryReceive expectedKind c))) = Some (ReceivedPayload_ c)
  /\ MessageReceived_ (snd (tryReceive K (snd (tryReceive expectedKind c)))) = false.
Proof.
  intros Hpending HK Hneq. subst K.
  assert (Hmiss : tryReceive expectedKind c = (None, c))
    by (apply tryReceive_mismatch; congruence).
  rewrite Hmiss. cbn [snd].
  rewrite (tryReceive_match c Hpending). cbn [fst snd].
  repeat split.
Qed.

(** C2 (single-slot overwrite).  Let a frame [S1], of any kind and even
    malformed, arrive and be pumped, then the frame of a message
    [(k2, p2)] arrive and be pumped, with no [tryReceive] in between.
    Then the slot holds exactly [(k2, p2)]; a [tryReceive] yields [p2]
    for kind [k2] and nothing for any other kind; and in any series of
    [tryReceive] calls that follows, every result is absent or [p2], so
    that the payload of [S1], when it differs, is never returned. *)
Theorem single_slot_overwrite (c : t) (S1 : list byte) (k2 : Message) (p2 : list byte) :
  rx (bus_ c) = [] ->
  (N.of_nat (length p2) <= max_payload_length)%N ->
  let c1 := CheckMessages (arrive S1 c) in
  let c2 := CheckMessages (arrive (encode_frame k2 p2) c1) in
  MessageReceived_ c2 = true
  /\ ReceivedMessage_ c2 = k2
  /\ ReceivedPayload_ c2 = p2
  /\ (forall k, fst (tryReceive k c2) = if Message_eqb k2 k then Some p2 else None)
  /\ (forall ks, Forall (fun r => r = None \/ r = Some p2) (drain ks c2))
  /\ (forall k1 p1, S1 = encode_frame k1 p1 -> p1 <> p2 ->
      forall ks, ~ In (Some p1) (drain ks c2)).
Proof.
  intros Hrx Hp2 c1 c2.
  assert (Hrx1 : rx (bus_ c1) = []) by (apply CheckMessages_arrive_any; exact Hrx).
  assert (Hc2 : c2 = {| bus_ := {| rx := []; tx := tx (bus_ c1) |};
                        baud_ := baud_ c1; MessageReceived_ := true;
                        ReceivedMessage_ := k2; ReceivedPayload_ := p2 |})
    by (apply CheckMessages_arrive; assumption).
  assert (Hall : forall ks, Forall (fun r => r = None \/ r = Some p2) (drain ks c2)).
  { intros ks. pose proof (drain_payload ks c2) as Hd.
    replace (ReceivedPayload_ c2) with p2 in Hd by (rewrite Hc2; reflexivity).
    exact Hd. }
  repeat split; try (rewrite Hc2; reflexivity); [| exact Hall |].
  - intros k. rewrite Hc2. unfold tryReceive. cbn [MessageReceived_ ReceivedMessage_ andb].
    destruct (Message_eqb k2 k); reflexivity.
  - intros k1 p1 _ Hne ks Hin.
    pose proof (Hall ks) as Hd. rewrite Forall_forall in Hd.
    destruct (Hd _ Hin) as [E|E]; congruence.
Qed.

(** Round trip for every payload the length field can describe. *)
Lemma round_trip_upto_max (kind : Message) (payload : list byte) (a b : t) :
  (N.of_nat (length payload) <= max_payload_length)%N ->
  tx (bus_ a) = [] ->
  rx (bus_ b) = [] ->
  let peer := snd (deliver (SendMessage kind payload a) b) in
  decode_frame (encode_frame kind payload) = Some (kind, payload)
  /\ fst (tryReceive kind (CheckMessages peer)) = Some payload.
Proof.
  intros Hp Htx Hrx peer. split; [now apply decode_encode_frame|].
  assert (Hpeer : peer = arrive (encode_frame kind payload) b).
  { unfold peer, deliver, SendMessage, arrive.
    cbn [snd bus_ tx rx set_bus]. now rewrite Htx. }
  rewrite Hpeer, CheckMessages_arrive by assumption.
  unfold tryReceive. cbn [MessageReceived_ ReceivedMessage_ ReceivedPayload_ andb].
  now rewrite Message_eqb_refl.
Qed.

(** C7 (round trip).  For every kind and every payload of length 0, 1
    or the largest the length field supports: the frame written by
    [SendMessage kind payload] decodes to [(kind, payload)], and after
    the link has carried it to the peer, the peer's [CheckMessages]
    followed by [tryReceive kind] yields the payload byte for byte. *)
Theorem round_trip (kind : Message) (payload : list byte) (a b : t) :
  (0 < length_bytes)%nat ->
  (length payload = 0%nat \/ length payload = 1%nat
   \/ N.of_nat (length payload) = max_payload_length) ->
  tx (bus_ a) = [] ->
  rx (bus_ b) = [] ->
  let peer := snd (deliver (SendMessage kind payload a) b) in
  decode_frame (encode_frame kind payload) = Some (kind, payload)
  /\ fst (tryReceive kind (CheckMessages peer)) = Some payload.
Proof.
  intros Hn Hlen. apply round_trip_upto_max.
  assert (H1 : (1 <= max_payload_length)%N).
  { apply max_payload_length_spec.
    destruct length_bytes as [|n]; [lia|].
    rewrite Nnat.Nat2N.inj_succ, N.pow_succ_r'.
    assert (0 < 256 ^ N.of_nat n)%N
      by (apply N.neq_0_lt_0, N.pow_nonzero; discriminate).
    lia. }
  destruct Hlen as [E|[E|E]]; rewrite E; simpl; lia.
Qed.

(** *** The effector-command accessor *)

Lemma ReceiveEffectorCommand_misaligned (c : t) :
  MessageReceived_ c = true ->
  ReceivedMessage_ c = EffectorCommand ->
  (length (ReceivedPayload_ c) mod 4 <> 0)%nat ->
  ReceiveEffectorCommand c = (None, c).
Proof.
  intros Hp Hk Hlen. unfold ReceiveEffectorCommand, pending.
  rewrite <- Hk, (tryReceive_match c Hp). cbn [fst].
  apply Nat.eqb_neq in Hlen. now rewrite Hlen.
Qed.

Lemma ReceiveEffectorCommand_aligned (c : t) :
  MessageReceived_ c = true ->
  ReceivedMessage_ c = EffectorCommand ->
  (length (ReceivedPayload_ c) mod 4 = 0)%nat ->
  ReceiveEffectorCommand c
  = (Some (floats_of_bytes (ReceivedPayload_ c)), set_MessageReceived c false).
Proof.
  intros Hp Hk Hlen. unfold ReceiveEffectorCommand, pending.
  rewrite <- Hk, (tryReceive_match c Hp). cbn [fst snd].
  apply Nat.eqb_eq in Hlen. now rewrite Hlen.
Qed.

(** A payload of [4 * n] bytes decodes to [n] floats, the [i]-th made of
    bytes [4 * i] to [4 * i + 3]. *)
Lemma floats_of_bytes_spec (n : nat) (p : list byte) :
  length p = (4 * n)%nat ->
  length (floats_of_bytes p) = n
  /\ forall i, (i < n)%nat ->
       nth i (floats_of_bytes p) 0%N
       = float_of_bytes (nth (4 * i) p x00) (nth (4 * i + 1) p x00)
           (nth (4 * i + 2) p x00) (nth (4 * i + 3) p x00).
Proof.
  revert p. induction n as [|n IH]; intros p Hlen.
  - destruct p; [|discriminate]. split; [reflexivity|]. intros i Hi. lia.
  - destruct p as [|b0 [|b1 [|b2 [|b3 rest]]]]; try (simpl in Hlen; lia).
    assert (Hrest : length rest = (4 * n)%nat) by (simpl in Hlen; lia).
    destruct (IH rest Hrest) as [IHlen IHnth].
    cbn [floats_of_bytes]. split; [simpl; now rewrite IHlen|].
    intros [|i] Hi; [reflexivity|].
    replace (4 * S i)%nat with (S (S (S (S (4 * i))))) by lia.
    cbn [nth Nat.add]. rewrite IHnth by lia.
    replace (4 * i + 1)%nat with (S (4 * i)) by lia.
    replace (4 * i + 2)%nat with (S (S (4 * i))) by lia.
    replace (4 * i + 3)%nat with (S (S (S (4 * i)))) by lia.
    reflexivity.
Qed.

(** *** A float and its four bytes *)

Lemma lor_shiftl_add (a b n : N) :
  (a < 2 ^ n)%N -> N.lor a (N.shiftl b n) = (a + b * 2 ^ n)%N.
Proof.
  intros Ha. rewrite <- N.shiftl_mul_pow2.
  assert (Hd : N.land a (N.shiftl b n) = 0%N).
  { apply N.bits_inj. intros i. rewrite N.land_spec, N.bits_0.
    destruct (N.lt_ge_cases i n) as [Hi|Hi].
    - rewrite N.shiftl_spec_low by exact Hi. apply andb_false_r.
    - rewrite <- (N.mod_small a (2 ^ n)) by exact Ha.
      rewrite N.mod_pow2_bits_high by exact Hi. reflexivity. }
  rewrite <- N.lxor_lor by exact Hd. symmetry. apply N.add_nocarry_lxor. exact Hd.
Qed.

Lemma to_N_below_256 (b : byte) : (Byte.to_N b < 256)%N.
Proof. pose proof (Byte.to_N_bounded b). lia. Qed.

(** The 32-bit pattern as a number: byte [k] weighs [256 ^ k]. *)
Lemma float_of_bytes_sum (b0 b1 b2 b3 : byte) :
  float_of_bytes b0 b1 b2 b3
  = (Byte.to_N b0
     + 256 * (Byte.to_N b1 + 256 * (Byte.to_N b2 + 256 * Byte.to_N b3)))%N.
Proof.
  unfold float_of_bytes.
  pose proof (to_N_below_256 b0). pose proof (to_N_below_256 b1).
  pose proof (to_N_below_256 b2).
  replace (N.shiftl (Byte.to_N b3) 24)
    with (N.shiftl (N.shiftl (Byte.to_N b3) 8) 16)
    by (rewrite N.shiftl_shiftl; reflexivity).
  rewrite <- N.shiftl_lor.
  replace (N.shiftl (N.lor (Byte.to_N b2) (N.shiftl (Byte.to_N b3) 8)) 16)
    with (N.shiftl (N.shiftl (N.lor (Byte.to_N b2) (N.shiftl (Byte.to_N b3) 8)) 8) 8)
    by (rewrite N.shiftl_shiftl; reflexivity).
  rewrite <- N.shiftl_lor.
  rewrite !lor_shiftl_add by (change (2 ^ 8)%N with 256%N; assumption).
  change (2 ^ 8)%N with 256%N. lia.
Qed.

Lemma float_of_bytes_32_bits (b0 b1 b2 b3 : byte) :
  (float_of_bytes b0 b1 b2 b3 < 2 ^ 32)%N.
Proof.
  rewrite float_of_bytes_sum.
  pose proof (to_N_below_256 b0). pose proof (to_N_below_256 b1).
  pose proof (to_N_below_256 b2). pose proof (to_N_below_256 b3).
  change (2 ^ 32)%N with 4294967296%N. lia.
Qed.

Lemma byte_of_N_low (b : byte) (x : N) : byte_of_N (Byte.to_N b + 256 * x) = b.
Proof.
  unfold byte_of_N.
  rewrite (N.mul_comm 256 x), N.Div0.mod_add.
  rewrite N.mod_small by apply to_N_below_256.
  now rewrite Byte.of_to_N.
Qed.

Lemma div_256_low (b : byte) (x : N) : ((Byte.to_N b + 256 * x) / 256 = x)%N.
Proof.
  rewrite (N.mul_comm 256 x), N.div_add by discriminate.
  rewrite (N.div_small (Byte.to_N b)) by apply to_N_below_256. apply N.add_0_l.
Qed.

(** The bytes of the float made of four bytes are these bytes. *)
Lemma bytes_of_float_of_bytes (b0 b1 b2 b3 : byte) :
  bytes_of_float (float_of_bytes b0 b1 b2 b3) = [b0; b1; b2; b3].
Proof.
  unfold bytes_of_float. rewrite float_of_bytes_sum.
  set (r1 := (Byte.to_N b1 + 256 * (Byte.to_N b2 + 256 * Byte.to_N b3))%N).
  assert (H8 : N.shiftr (Byte.to_N b0 + 256 * r1) 8 = r1).
  { rewrite N.shiftr_div_pow2. change (2 ^ 8)%N with 256%N. apply div_256_low. }
  assert (H16 : N.shiftr (Byte.to_N b0 + 256 * r1) 16
                = (Byte.to_N b2 + 256 * Byte.to_N b3)%N).
  { change 16%N with (8 + 8)%N. rewrite <- N.shiftr_shiftr, H8.
    rewrite N.shiftr_div_pow2. change (2 ^ 8)%N with 256%N. apply div_256_low. }
  assert (H24 : N.shiftr (Byte.to_N b0 + 256 * r1) 24 = Byte.to_N b3).
  { change 24%N with (16 + 8)%N. rewrite <- N.shiftr_shiftr, H16.
    rewrite N.shiftr_div_pow2. change (2 ^ 8)%N with 256%N. apply div_256_low. }
  rewrite H8, H16, H24. unfold r1. rewrite !byte_of_N_low.
  replace (Byte.to_N b3) with (Byte.to_N b3 + 256 * 0)%N by lia.
  now rewrite byte_of_N_low.
Qed.

(** Decoding loses nothing: the bytes of the floats of a payload of
    [4 * n] bytes are the payload, and each float is a 32-bit pattern. *)
Lemma floats_of_bytes_exact (n : nat) (p : list byte) :
  length p = (4 * n)%nat ->
  flat_map bytes_of_float (floats_of_bytes p) = p
  /\ Forall (fun x => (x < 2 ^ 32)%N) (floats_of_bytes p).
Proof.
  revert p. induction n as [|n IH]; intros p Hlen.
  - destruct p; [|discriminate]. split; [reflexivity|constructor].
  - destruct p as [|b0 [|b1 [|b2 [|b3 rest]]]]; try (simpl in Hlen; lia).
    assert (Hrest : length rest = (4 * n)%nat) by (simpl in Hlen; lia).
    destruct (IH rest Hrest) as [IHb IHf].
    cbn [floats_of_bytes flat_map]. split.
    + rewrite bytes_of_float_of_bytes, IHb. reflexivity.
    + constructor; [apply float_of_bytes_32_bits|exact IHf].
Qed.

End MailboxClaims.

Section MailboxSamples.
Import Sample.

(** C5 at a mailbox holding a mode command, polled for an effector
  command first. *)
Lemma kind_selective_drain_witness :
let c := Sample.holding AircraftSocComms.ModeCommand [x01] in
AircraftSocComms.tryReceive AircraftSocComms.EffectorCommand c = (None, c)
/\ fst (AircraftSocComms.tryReceive AircraftSocComms.ModeCommand
          (snd (AircraftSocComms.tryReceive AircraftSocComms.EffectorCommand c)))
   = Some [x01]
/\ AircraftSocComms.MessageReceived_
     (snd (AircraftSocComms.tryReceive AircraftSocComms.ModeCommand
             (snd (AircraftSocComms.tryReceive AircraftSocComms.EffectorCommand c))))
   = false.
Proof.
intros c.
apply (@kind_selective_drain c AircraftSocComms.ModeCommand AircraftSocComms.EffectorCommand);
  [reflexivity | reflexivity | discriminate].
Defined.

(** C2 with a configuration frame overwritten by an effector command. *)
Lemma single_slot_overwrite_witness :
let S1 := AircraftSocComms.encode_frame AircraftSocComms.Configuration [x41; x42] in
let c1 := AircraftSocComms.CheckMessages (AircraftSocComms.arrive S1 Sample.idle) in
let c2 := AircraftSocComms.CheckMessages
            (AircraftSocComms.arrive
               (AircraftSocComms.encode_frame AircraftSocComms.EffectorCommand
                  [x01; x02; x03; x04]) c1) in
AircraftSocComms.ReceivedMessage_ c2 = AircraftSocComms.EffectorCommand
/\ AircraftSocComms.ReceivedPayload_ c2 = [x01; x02; x03; x04]
/\ fst (AircraftSocComms.tryReceive AircraftSocComms.Configuration c2) = None.
Proof.
intros S1 c1 c2.
destruct (@single_slot_overwrite Sample.wire Sample.idle S1
            AircraftSocComms.EffectorCommand [x01; x02; x03; x04])
  as (_ & Hk & Hp & Hr & _); [reflexivity | vm_compute; discriminate |].
split; [exact Hk | split; [exact Hp | exact (Hr AircraftSocComms.Configuration)]].
Defined.

(** C7 at the longest payload of a one-byte length field. *)
Lemma round_trip_witness :
fst (AircraftSocComms.tryReceive AircraftSocComms.SensorData
       (AircraftSocComms.CheckMessages
          (snd (AircraftSocComms.deliver
                  (AircraftSocComms.SendMessage AircraftSocComms.SensorData
                     Sample.longest Sample.idle)
                  Sample.idle))))
= Some Sample.longest.
Proof.
apply (@round_trip Sample.wire AircraftSocComms.SensorData Sample.longest
         Sample.idle Sample.idle);
  [ simpl; lia | right; right; reflexivity | reflexivity | reflexivity ].
Defined.

End MailboxSamples.


(* ===================================================================== *)
(** * Part III.  The control loop, for any collaborators                  *)
(* ===================================================================== *)

Lemma Mode_eqb_eq (a b : Mode) : Mode_eqb a b = true <-> a = b.
Proof. destruct a, b; simpl; split; congruence. Qed.

Lemma State_eqb_eq (a b : State) : State_eqb a b = true <-> a = b.
Proof. destruct a, b; simpl; split; congruence. Qed.

Lemma count_calls_app (p : Call.t -> bool) (l1 l2 : list Call.t) :
  count_calls p (l1 ++ l2) = count_calls p l1 + count_calls p l2.
Proof. unfold count_calls. now rewrite filter_app, length_app. Qed.

Lemma count_calls_cons (p : Call.t -> bool) (c : Call.t) (l : list Call.t) :
  count_calls p (c :: l) = (if p c then 1 else 0) + count_calls p l.
Proof. unfold count_calls. simpl. destruct (p c); reflexivity. Qed.

Lemma count_calls_none (p : Call.t -> bool) (l : list Call.t) :
  Forall (fun c => p c = false) l -> count_calls p l = 0.
Proof.
  induction 1 as [|c l Hc _ IH]; [reflexivity|].
  rewrite count_calls_cons, Hc, IH. reflexivity.
Qed.

Section ControlLevels.
Context {W : Type} `{Collaborators W}.

(** What holds of the world and the calls before the loop and is kept by
    every round holds when the rounds are over. *)
Lemma control_rounds_inv (P : W -> list Call.t -> Prop) :
  (forall i w l, P w l ->
     P (Control_Run i w) (l ++ [Call.ActiveControlLevels; Call.ControlRun i])) ->
  (forall w l, P w l -> P w (l ++ [Call.ActiveControlLevels])) ->
  forall d i w l, P w l ->
    match control_rounds d (i, w, l) with
    | inl (_, w', l') => P w' l'
    | inr (w', l') => P w' l'
    end.
Proof.
  intros Hrun Hexit. induction d as [|d IH]; intros i w l HP.
  - cbn [control_rounds control_round].
    destruct (i <? size_t (Control_ActiveControlLevels w))%N; auto.
  - cbn [control_rounds]. pose proof (IH i w l HP) as H1.
    destruct (control_rounds d (i, w, l)) as [[[i1 w1] l1]|[w1 l1]];
      [apply IH; exact H1 | exact H1].
Qed.

(** While the loop goes on the index counts the rounds and stays a
    [size_t]. *)
Lemma control_rounds_index (d : nat) (i : N) (w : W) (l : list Call.t) :
  forall i' w' l', control_rounds d (i, w, l) = inl (i', w', l') ->
    i' = (i + 2 ^ N.of_nat d)%N /\ (i' < 2 ^ 32)%N.
Proof.
  revert i w l. induction d as [|d IH]; intros i w l i' w' l' E.
  - cbn [control_rounds control_round] in E.
    destruct (i <? size_t (Control_ActiveControlLevels w))%N eqn:Hlt; [|discriminate].
    apply N.ltb_lt in Hlt.
    assert (size_t (Control_ActiveControlLevels w) < 2 ^ 32)%N
      by (apply N.mod_lt; discriminate).
    injection E as <- _ _.
    assert (Hs : size_t (i + 1) = (i + 1)%N) by (apply N.mod_small; lia).
    rewrite Hs. simpl. lia.
  - cbn [control_rounds] in E.
    destruct (control_rounds d (i, w, l)) as [[[i1 w1] l1]|r] eqn:E1; [|discriminate].
    destruct (IH _ _ _ _ _ _ E1) as [-> _].
    destruct (IH _ _ _ _ _ _ E) as [-> Hb].
    split; [|exact Hb].
    rewrite Nnat.Nat2N.inj_succ, N.pow_succ_r'. lia.
Qed.

(** The loop over the control levels always comes to its end. *)
Lemma control_rounds_exit (w : W) :
  exists r, control_rounds 32 (0%N, w, []) = inr r.
Proof.
  destruct (control_rounds 32 (0%N, w, [])) as [[[i' w'] l']|r] eqn:E.
  - apply control_rounds_index in E. destruct E as [-> Hb].
    exfalso. revert Hb. apply N.le_ngt. simpl. lia.
  - now exists r.
Qed.

Lemma run_control_levels_inv (P : W -> list Call.t -> Prop) (w : W) :
  (forall i w l, P w l ->
     P (Control_Run i w) (l ++ [Call.ActiveControlLevels; Call.ControlRun i])) ->
  (forall w l, P w l -> P w (l ++ [Call.ActiveControlLevels])) ->
  P w [] ->
  P (fst (run_control_levels w)) (snd (run_control_levels w)).
Proof.
  intros Hrun Hexit H0. unfold run_control_levels.
  pose proof (control_rounds_inv P Hrun Hexit 32 0%N w [] H0) as Hinv.
  destruct (control_rounds 32 (0%N, w, [])) as [[[i' w'] l']|[w' l']]; exact Hinv.
Qed.

Lemma run_control_levels_calls (w : W) :
  Forall (fun c => Call.is_control_call c = true) (snd (run_control_levels w)).
Proof.
  apply (run_control_levels_inv
           (fun _ l => Forall (fun c => Call.is_control_call c = true) l)).
  - intros i w0 l Hl. apply Forall_app. split; [exact Hl|].
    repeat constructor.
  - intros w0 l Hl. apply Forall_app. split; [exact Hl|].
    repeat constructor.
  - constructor.
Qed.

(** A call that is not one of the loop's is not made in it. *)
Lemma count_calls_control (p : Call.t -> bool) (w : W) :
  (forall c, Call.is_control_call c = true -> p c = false) ->
  count_calls p (snd (run_control_levels w)) = 0.
Proof.
  intros Hp. apply count_calls_none.
  eapply Forall_impl; [|apply run_control_levels_calls].
  exact Hp.
Qed.

End ControlLevels.

#[global] Opaque run_control_levels.

Section ProgFacts.
Context {W : Type} `{Collaborators W}.

Lemma calls_bind {A B} (c : Prog A) (k : A -> Prog B) (s : Main W) :
  calls (bind c k) s = calls c s ++ calls (k (result c s)) (after c s).
Proof.
  unfold calls, after, result, bind.
  destruct (c s) as [[a s1] l1]. cbn [fst snd].
  destruct (k a s1) as [[b s2] l2]. reflexivity.
Qed.

Lemma after_bind {A B} (c : Prog A) (k : A -> Prog B) (s : Main W) :
  after (bind c k) s = after (k (result c s)) (after c s).
Proof.
  unfold after, result, bind.
  destruct (c s) as [[a s1] l1]. cbn [fst snd].
  destruct (k a s1) as [[b s2] l2]. reflexivity.
Qed.

Lemma result_bind {A B} (c : Prog A) (k : A -> Prog B) (s : Main W) :
  result (bind c k) s = result (k (result c s)) (after c s).
Proof.
  unfold after, result, bind.
  destruct (c s) as [[a s1] l1]. cbn [fst snd].
  destruct (k a s1) as [[b s2] l2]. reflexivity.
Qed.

Lemma calls_when (b : bool) (c : Prog unit) (s : Main W) :
  calls (when b c) s = if b then calls c s else [].
Proof. destruct b; reflexivity. Qed.

Lemma after_when (b : bool) (c : Prog unit) (s : Main W) :
  after (when b c) s = if b then after c s else s.
Proof. destruct b; reflexivity. Qed.

Lemma calls_call (c : Call.t) (f : W -> W) (s : Main W) : calls (call c f) s = [c].
Proof. reflexivity. Qed.

Lemma after_call (c : Call.t) (f : W -> W) (s : Main W) :
  after (call c f) s = set_world s (f (world s)).
Proof. reflexivity. Qed.

Lemma calls_query {A} (c : Call.t) (f : W -> A) (s : Main W) : calls (query c f) s = [c].
Proof. reflexivity. Qed.

Lemma after_query {A} (c : Call.t) (f : W -> A) (s : Main W) : after (query c f) s = s.
Proof. reflexivity. Qed.

Lemma result_query {A} (c : Call.t) (f : W -> A) (s : Main W) :
  result (query c f) s = f (world s).
Proof. reflexivity. Qed.

Lemma calls_read {A} (f : Main W -> A) (s : Main W) : calls (read f) s = [].
Proof. reflexivity. Qed.

Lemma after_read {A} (f : Main W -> A) (s : Main W) : after (read f) s = s.
Proof. reflexivity. Qed.

Lemma result_read {A} (f : Main W -> A) (s : Main W) : result (read f) s = f s.
Proof. reflexivity. Qed.

Lemma calls_ControlLoop (s : Main W) :
  calls ControlLoop s = snd (run_control_levels (world s)).
Proof.
  unfold calls, ControlLoop. destruct (run_control_levels (world s)). reflexivity.
Qed.

Lemma after_ControlLoop (s : Main W) :
  after ControlLoop s = set_world s (fst (run_control_levels (world s))).
Proof.
  unfold after, ControlLoop. destruct (run_control_levels (world s)). reflexivity.
Qed.

Lemma calls_GetMode (s : Main W) : calls GetMode s = [Call.GetMode].
Proof. reflexivity. Qed.

Lemma calls_GetState (s : Main W) : calls GetState s = [Call.GetState].
Proof. reflexivity. Qed.

Lemma calls_ReceiveEffectorCommand (s : Main W) :
  calls ReceiveEffectorCommand s = [Call.ReceiveEffectorCommand].
Proof.
  unfold calls, ReceiveEffectorCommand.
  destruct (SocComms_ReceiveEffectorCommand _ _) as [[ok v] w]. reflexivity.
Qed.

Lemma calls_ReceiveConfigMessage (s : Main W) :
  calls ReceiveConfigMessage s = [Call.ReceiveConfigMessage].
Proof.
  unfold calls, ReceiveConfigMessage.
  destruct (SocComms_ReceiveConfigMessage _ _) as [[ok v] w]. reflexivity.
Qed.

Lemma calls_ReceiveModeCommand (s : Main W) :
  calls ReceiveModeCommand s = [Call.ReceiveModeCommand].
Proof.
  unfold calls, ReceiveModeCommand.
  destruct (SocComms_ReceiveModeCommand _ _) as [[ok v] w]. reflexivity.
Qed.

End ProgFacts.

Create Rewrite HintDb prog.
#[export] Hint Rewrite @calls_bind @after_bind @result_bind @calls_when @after_when
  @calls_call @after_call @calls_query @after_query @result_query
  @calls_read @after_read @result_read @calls_ControlLoop @after_ControlLoop
  @calls_GetMode @calls_GetState @calls_ReceiveEffectorCommand
  @calls_ReceiveConfigMessage @calls_ReceiveModeCommand : prog.

Section Blocks.
Context {W : Type} `{Collaborators W}.

Lemma calls_SyncDataCollection_block (s : Main W) :
  calls SyncDataCollection_block s
  = [Call.ClearImuDataReady; Call.ReadSyncSensors; Call.GetDataBuffer;
     Call.SendSensorData
       (Sensors_GetDataBuffer
          (Sensors_ReadSyncSensors (Mission_ClearImuDataReady (world s))))].
Proof. reflexivity. Qed.

Lemma calls_FlightControl_block (s : Main W) :
  exists levels safed,
    calls FlightControl_block s
    = Call.ClearFlightControlFlag :: levels
        ++ [Call.ThrottleSafed; Call.ComputeOutputs safed]
    /\ Forall (fun c => Call.is_control_call c = true) levels.
Proof.
  unfold FlightControl_block. autorewrite with prog. cbn [app].
  eexists _, _. split; [reflexivity|]. apply run_control_levels_calls.
Qed.

End Blocks.

Section RoundFacts.
Context {W : Type} `{Collaborators W}.

(** *** What the blocks leave of the globals *)

Lemma MissionState_after_handler (st : State) (s : Main W) :
  MissionState (after (handler st) s) = MissionState s.
Proof. destruct st; reflexivity. Qed.

Lemma MissionMode_after_handler (st : State) (s : Main W) :
  MissionMode (after (handler st) s) = MissionMode s.
Proof. destruct st; reflexivity. Qed.

Lemma MissionMode_after_ReceiveEffectorCommand (s : Main W) :
  MissionMode (after ReceiveEffectorCommand s) = MissionMode s.
Proof.
  unfold after, ReceiveEffectorCommand.
  destruct (SocComms_ReceiveEffectorCommand _ _) as [[ok v] w]. reflexivity.
Qed.

Lemma MissionMode_after_soc_effector_commands (s : Main W) :
  MissionMode (after soc_effector_commands s) = MissionMode s.
Proof.
  unfold soc_effector_commands. autorewrite with prog.
  destruct (result ReceiveEffectorCommand s);
    [destruct (Mission_UseSocEffectorComands _)|];
    cbn [set_world MissionMode];
    apply MissionMode_after_ReceiveEffectorCommand.
Qed.

(** *** The calls of the blocks *)

Lemma calls_handler (st : State) (s : Main W) :
  calls (handler st) s
  = match st with
    | SyncDataCollection =>
        [Call.ClearImuDataReady; Call.ReadSyncSensors; Call.GetDataBuffer;
         Call.SendSensorData
           (Sensors_GetDataBuffer
              (Sensors_ReadSyncSensors (Mission_ClearImuDataReady (world s))))]
    | AsyncDataCollection => [Call.ReadAsyncSensors]
    | FlightControl =>
        Call.ClearFlightControlFlag
          :: snd (run_control_levels (Mission_ClearFlightControlFlag (world s)))
          ++ [Call.ThrottleSafed;
              Call.ComputeOutputs
                (Mission_ThrottleSafed
                   (fst (run_control_levels
                           (Mission_ClearFlightControlFlag (world s)))))]
    | EffectorOutput => [Call.ClearEffectorOutputFlag; Call.CommandEffectors]
    end.
Proof.
  destruct st; reflexivity.
Qed.

Lemma calls_soc_effector_commands (s : Main W) :
  let s1 := after ReceiveEffectorCommand s in
  calls soc_effector_commands s
  = Call.ReceiveEffectorCommand
      :: (if result ReceiveEffectorCommand s
          then Call.UseSocEffectorComands
                 :: (if Mission_UseSocEffectorComands (world s1)
                     then [Call.ThrottleSafed;
                           Call.SetCommands (EffectorCommands s1)
                             (Mission_ThrottleSafed (world s1))]
                     else [])
          else []).
Proof.
  intros s1. unfold soc_effector_commands. autorewrite with prog. fold s1.
  destruct (result ReceiveEffectorCommand s);
    [destruct (Mission_UseSocEffectorComands (world s1))|]; reflexivity.
Qed.

Lemma calls_Configuration_block (s : Main W) :
  calls Configuration_block s
  = Call.ReceiveConfigMessage
      :: (if fst (result ReceiveConfigMessage s)
          then [Call.ConfigUpdate (snd (result ReceiveConfigMessage s))]
          else []).
Proof.
  unfold Configuration_block. autorewrite with prog.
  destruct (fst (result ReceiveConfigMessage s)); reflexivity.
Qed.

Lemma calls_request_mode (s : Main W) :
  calls request_mode s
  = Call.ReceiveModeCommand
      :: (if result ReceiveModeCommand s
          then [Call.SetRequestedMode (RequestedMode (after ReceiveModeCommand s))]
          else []).
Proof.
  unfold request_mode. autorewrite with prog.
  destruct (result ReceiveModeCommand s); reflexivity.
Qed.

(** *** The round, block by block *)

(** A [Run] round reads the state once and runs the one block guarded by
    it: the blocks do not write [MissionState], so the four tests single
    out one of them. *)
Lemma Run_block_dispatch (s : Main W) :
  let s2 := after GetState (set_world s (Mission_UpdateState (world s))) in
  let st := Mission_GetState (Mission_UpdateState (world s)) in
  calls Run_block s
  = Call.UpdateState :: Call.GetState :: calls (handler st) s2
      ++ calls soc_effector_commands (after (handler st) s2)
  /\ after Run_block s = after soc_effector_commands (after (handler st) s2).
Proof.
  intros s2 st.
  assert (Hst : MissionState s2 = st) by reflexivity.
  unfold Run_block. autorewrite with prog. fold s2.
  pose proof (MissionState_after_handler SyncDataCollection) as Hs.
  pose proof (MissionState_after_handler AsyncDataCollection) as Ha.
  pose proof (MissionState_after_handler FlightControl) as Hf.
  pose proof (MissionState_after_handler EffectorOutput) as He.
  cbn [handler] in Hs, Ha, Hf, He.
  clearbody s2 st.
  destruct st; rewrite Hst; cbn [State_eqb handler app];
    repeat (progress (rewrite ?Hs, ?Ha, ?Hf, ?He, ?Hst; cbn [State_eqb app]));
    rewrite ?app_nil_r; split; reflexivity.
Qed.

Lemma MissionMode_after_Run_block (s : Main W) :
  MissionMode (after Run_block s) = MissionMode s.
Proof.
  destruct (Run_block_dispatch s) as [_ ->].
  now rewrite MissionMode_after_soc_effector_commands, MissionMode_after_handler.
Qed.

Lemma loop_body_dispatch (s : Main W) :
  let s1 := mode_read s in
  let block := match mode_of_round s with
               | Run => Run_block
               | Configuration => Configuration_block
               end in
  calls loop_body s
  = Call.UpdateMode :: Call.GetMode :: calls block s1
      ++ calls request_mode (after block s1) ++ [Call.CheckMessages]
  /\ after loop_body s
     = set_world (after request_mode (after block s1))
         (SocComms_CheckMessages (world (after request_mode (after block s1)))).
Proof.
  intros s1 block.
  assert (Hm : MissionMode s1 = mode_of_round s) by reflexivity.
  unfold loop_body. autorewrite with prog. fold (mode_read s). fold s1.
  subst block. clearbody s1.
  destruct (mode_of_round s); rewrite Hm; cbn [Mode_eqb app];
    rewrite ?MissionMode_after_Run_block, ?Hm; cbn [Mode_eqb app];
    split; reflexivity.
Qed.

End RoundFacts.

Section RoundCounts.
Context {W : Type} `{Collaborators W}.

Lemma before_app (p : Call.t -> bool) (l1 l2 : list Call.t) :
  Forall (fun c => p c = false) l1 ->
  before p (l1 ++ l2) = l1 ++ before p l2.
Proof.
  induction 1 as [|c l Hc _ IH]; [reflexivity|].
  cbn [app before]. now rewrite Hc, IH.
Qed.

Lemma after_first_app (p : Call.t -> bool) (l1 l2 : list Call.t) :
  Forall (fun c => p c = false) l1 ->
  after_first p (l1 ++ l2) = after_first p l2.
Proof.
  induction 1 as [|c l Hc _ IH]; [reflexivity|].
  cbn [app after_first]. now rewrite Hc, IH.
Qed.

Lemma filter_none (p : Call.t -> bool) (l : list Call.t) :
  Forall (fun c => p c = false) l -> filter p l = [].
Proof.
  induction 1 as [|c l Hc _ IH]; [reflexivity|].
  cbn [filter]. now rewrite Hc.
Qed.

End RoundCounts.

(** Splits a round into its cases: the mode, the state, and what the
    accessors and switches return.  The states between the blocks and the
    calls of the control-law loop are kept as variables. *)
Ltac round_cases s :=
  let Hc := fresh "Hcalls" in
  destruct (loop_body_dispatch s) as [Hc _]; cbv zeta in Hc; rewrite Hc; clear Hc;
  unfold mode_of_round, state_of_round in *;
  let Hmode := fresh "Hmode" in
  destruct (Mission_GetMode (Mission_UpdateMode (world s))) eqn:Hmode;
  cbv iota;
  [ generalize (after Configuration_block (mode_read s)); intros ?;
    rewrite calls_Configuration_block
  | generalize (after Run_block (mode_read s)); intros ?;
    let Hr := fresh "Hrun" in
    destruct (Run_block_dispatch (mode_read s)) as [Hr _]; cbv zeta in Hr;
    rewrite Hr; clear Hr;
    change (world (mode_read s)) with (Mission_UpdateMode (world s)) in *;
    let Hst := fresh "Hstate" in
    destruct (Mission_GetState (Mission_UpdateState (Mission_UpdateMode (world s))))
      eqn:Hst;
    match goal with
    | |- context [calls soc_effector_commands ?x] => generalize x; intros ?
    end;
    rewrite ?calls_handler, calls_soc_effector_commands;
    try match goal with
        | |- context [run_control_levels ?w] =>
            let Hl := fresh "Hlevels" in
            pose proof (run_control_levels_calls w) as Hl;
            destruct (run_control_levels w) as [? ?]; cbn [fst snd] in *
        end ];
  rewrite calls_request_mode;
  cbn [Mode_eqb State_eqb andb];
  repeat match goal with
         | |- context [if ?b then _ else _] => destruct b
         end.

(** The calls of the control-law loop satisfy none of the predicates on
    calls used below. *)
Ltac apart :=
  eapply Forall_impl; [|eassumption];
  let c := fresh "c" in intros c; destruct c; simpl; congruence.

Ltac count_round :=
  cbn [app andb Mode_eqb State_eqb];
  repeat first
    [ rewrite count_calls_cons
    | rewrite count_calls_app
    | rewrite count_calls_none by apart ];
  cbn; try reflexivity; try lia.

Ltac list_round :=
  cbn [app andb Mode_eqb State_eqb];
  repeat first
    [ progress cbn [app before after_first filter
                    Call.is_CheckMessages Call.is_Receive]
    | rewrite <- app_assoc
    | rewrite before_app by apart
    | rewrite after_first_app by apart
    | rewrite filter_app
    | rewrite filter_none by apart ].

Section RoundClaims.
Context {W : Type} `{Collaborators W}.

Lemma handler_runs (s : Main W) :
  let l := calls loop_body s in
  let on st := if Mode_eqb (mode_of_round s) Run && State_eqb (state_of_round s) st
               then 1 else 0 in
  count_calls Call.is_ClearImuDataReady l = on SyncDataCollection
  /\ count_calls Call.is_ReadAsyncSensors l = on AsyncDataCollection
  /\ count_calls Call.is_ClearFlightControlFlag l = on FlightControl
  /\ count_calls Call.is_ComputeOutputs l = on FlightControl
  /\ count_calls Call.is_ClearEffectorOutputFlag l = on EffectorOutput
  /\ count_calls Call.is_CommandEffectors l = on EffectorOutput.
Proof.
  cbv zeta. repeat split; round_cases s; count_round.
Qed.

End RoundClaims.

Section RoundOrder.
Context {W : Type} `{Collaborators W}.

(** C4, as the code has it.  In a round with [Mode == Run] the state is
    read once and exactly one of the four guarded blocks runs, the one of
    that state; in a round with another mode none runs.
    [Sensors.ReadAsyncSensors] is therefore called exactly once in a [Run]
    round whose state is [AsyncDataCollection], and not at all in a round
    in which the block of [SyncDataCollection], [FlightControl] or
    [EffectorOutput] runs. *)
Theorem async_read_in_its_state_only (s : Main W) :
  let l := calls loop_body s in
  count_calls Call.is_ReadAsyncSensors l
  = (if Mode_eqb (mode_of_round s) Run
        && State_eqb (state_of_round s) AsyncDataCollection
     then 1 else 0)
  /\ count_calls Call.is_ClearImuDataReady l
     + count_calls Call.is_ReadAsyncSensors l
     + count_calls Call.is_ClearFlightControlFlag l
     + count_calls Call.is_ClearEffectorOutputFlag l
     = (if Mode_eqb (mode_of_round s) Run then 1 else 0).
Proof.
  destruct (handler_runs s) as (Hs & Ha & Hf & _ & He & _). cbv zeta in *.
  split; [exact Ha|].
  rewrite Hs, Ha, Hf, He.
  destruct (mode_of_round s), (state_of_round s); reflexivity.
Qed.

(** C8, as the code has it.  The calls of a round come in this order:
    [Mission.UpdateMode] and [Mission.GetMode] first; then, in a [Run]
    round, [UpdateState], [GetState] and the block of the state read; only
    then the mailbox is read by kind, [ReceiveEffectorCommand] in a [Run]
    round or [ReceiveConfigMessage] in a [Configuration] round, followed by
    [ReceiveModeCommand] in either; and [SocComms.CheckMessages], the pump,
    is called exactly once, as the last call of the round. *)
Theorem round_order (s : Main W) :
  let l := calls loop_body s in
  firstn 2 l = [Call.UpdateMode; Call.GetMode]
  /\ before Call.is_Receive l
     = match mode_of_round s with
       | Run =>
           Call.UpdateMode :: Call.GetMode :: Call.UpdateState :: Call.GetState
             :: calls (handler (state_of_round s))
                  (after GetState
                     (set_world (mode_read s)
                        (Mission_UpdateState (world (mode_read s)))))
       | Configuration => [Call.UpdateMode; Call.GetMode]
       end
  /\ filter Call.is_Receive l
     = match mode_of_round s with
       | Run => [Call.ReceiveEffectorCommand; Call.ReceiveModeCommand]
       | Configuration => [Call.ReceiveConfigMessage; Call.ReceiveModeCommand]
       end
  /\ l = before Call.is_CheckMessages l ++ [Call.CheckMessages]
  /\ count_calls Call.is_CheckMessages l = 1.
Proof.
  cbv zeta. split; [|split; [|split; [|split]]].
  - destruct (loop_body_dispatch s) as [-> _]. reflexivity.
  - round_cases s; rewrite ?calls_handler; list_round; reflexivity.
  - round_cases s; list_round; reflexivity.
  - round_cases s; list_round; reflexivity.
  - round_cases s; count_round.
Qed.

End RoundOrder.

Section RoundStates.
Context {W : Type} `{Collaborators W}.

Lemma calls_loop_body_Run (s : Main W) :
  mode_of_round s = Run ->
  calls loop_body s
  = Call.UpdateMode :: Call.GetMode :: Call.UpdateState :: Call.GetState
      :: calls (handler (state_of_round s)) (state_read s)
      ++ calls soc_effector_commands (blocks_done s)
      ++ calls request_mode (mode_done s) ++ [Call.CheckMessages]
  /\ mode_done s = after soc_effector_commands (blocks_done s).
Proof.
  intros Hmode.
  destruct (loop_body_dispatch s) as [Hc _]. cbv zeta in Hc.
  destruct (Run_block_dispatch (mode_read s)) as [Hr Ha]. cbv zeta in Hr, Ha.
  unfold mode_done, mode_block. rewrite Hc, Hmode, Hr, Ha.
  fold (state_read s). change (Mission_GetState _) with (state_of_round s).
  fold (blocks_done s). cbn [app]. rewrite <- app_assoc. split; reflexivity.
Qed.

Lemma calls_loop_body_Configuration (s : Main W) :
  mode_of_round s = Configuration ->
  calls loop_body s
  = Call.UpdateMode :: Call.GetMode
      :: calls Configuration_block (mode_read s)
      ++ calls request_mode (mode_done s) ++ [Call.CheckMessages]
  /\ mode_done s = after Configuration_block (mode_read s).
Proof.
  intros Hmode.
  destruct (loop_body_dispatch s) as [Hc _]. cbv zeta in Hc.
  unfold mode_done, mode_block. rewrite Hc, Hmode. split; reflexivity.
Qed.

Lemma after_loop_body (s : Main W) :
  after loop_body s
  = set_world (after request_mode (mode_done s))
      (SocComms_CheckMessages (world (after request_mode (mode_done s)))).
Proof. destruct (loop_body_dispatch s) as [_ Ha]. exact Ha. Qed.

(** The blocks of the states make no call that is driven by a message. *)
Lemma handler_no_message_call (p : Call.t -> bool) (st : State) (s : Main W) :
  (forall c, p c = true ->
     Call.is_SetCommands c || Call.is_ConfigUpdate c || Call.is_SetRequestedMode c
     = true) ->
  count_calls p (calls (handler st) s) = 0.
Proof.
  intros Hp. apply count_calls_none. rewrite calls_handler.
  assert (Hno : forall c,
             Call.is_SetCommands c || Call.is_ConfigUpdate c
               || Call.is_SetRequestedMode c = false -> p c = false).
  { intros c Hc. destruct (p c) eqn:E; [|reflexivity].
    apply Hp in E. congruence. }
  destruct st.
  - repeat constructor; apply Hno; reflexivity.
  - repeat constructor; apply Hno; reflexivity.
  - pose proof (run_control_levels_calls
                  (Mission_ClearFlightControlFlag (world s))) as Hl.
    destruct (run_control_levels _) as [w' levels]. cbn [fst snd] in *.
    constructor; [apply Hno; reflexivity|].
    apply Forall_app. split.
    + eapply Forall_impl; [|exact Hl].
      intros c Hc. apply Hno. destruct c; simpl in *; congruence.
    + repeat constructor; apply Hno; reflexivity.
  - repeat constructor; apply Hno; reflexivity.
Qed.

End RoundStates.

(** *** The calls driven by messages *)

Section MessageCalls.
Context {W : Type} `{Collaborators W}.

Lemma filter_handler_message_call (p : Call.t -> bool) (st : State) (s : Main W) :
  (forall c, p c = true ->
     Call.is_SetCommands c || Call.is_ConfigUpdate c || Call.is_SetRequestedMode c
     = true) ->
  filter p (calls (handler st) s) = [].
Proof.
  intros Hp. apply length_zero_iff_nil.
  exact (handler_no_message_call p st s Hp).
Qed.

Ltac message_call :=
  let c := fresh "c" in
  let E := fresh "E" in
  intros c E; destruct c; simpl in *; congruence.

Ltac filter_round s :=
  let Hmode := fresh "Hmode" in
  destruct (mode_of_round s) eqn:Hmode;
  [ destruct (calls_loop_body_Configuration s Hmode) as [-> ->];
    rewrite calls_Configuration_block
  | destruct (calls_loop_body_Run s Hmode) as [-> ->];
    rewrite calls_soc_effector_commands ];
  rewrite calls_request_mode;
  cbn [Mode_eqb andb filter app
       Call.is_SetCommands Call.is_ConfigUpdate Call.is_SetRequestedMode];
  rewrite ?filter_app, ?filter_handler_message_call by message_call;
  repeat match goal with
         | |- context [if ?b then _ else _] =>
             lazymatch b with
             | andb _ _ => fail
             | _ => destruct b
             end
         end;
  reflexivity.

(** [Effectors.SetCommands] is called in a [Run] round in which an effector
    command was received and the mission lets the SOC command the
    effectors, once, with the commands received; and in no other round. *)
Lemma filter_SetCommands (s : Main W) :
  let s1 := after ReceiveEffectorCommand (blocks_done s) in
  filter Call.is_SetCommands (calls loop_body s)
  = if Mode_eqb (mode_of_round s) Run
       && result ReceiveEffectorCommand (blocks_done s)
       && Mission_UseSocEffectorComands (world s1)
    then [Call.SetCommands (EffectorCommands s1) (Mission_ThrottleSafed (world s1))]
    else [].
Proof. cbv zeta. filter_round s. Qed.

(** [Config.Update] is called in a [Configuration] round in which a
    configuration message was received, once, with the text received; and
    in no other round. *)
Lemma filter_ConfigUpdate (s : Main W) :
  filter Call.is_ConfigUpdate (calls loop_body s)
  = if Mode_eqb (mode_of_round s) Configuration
       && fst (result ReceiveConfigMessage (mode_read s))
    then [Call.ConfigUpdate (snd (result ReceiveConfigMessage (mode_read s)))]
    else [].
Proof. filter_round s. Qed.

(** [Mission.SetRequestedMode] is called in a round, of either mode, in
    which a mode command was received, once, with the mode received. *)
Lemma filter_SetRequestedMode (s : Main W) :
  filter Call.is_SetRequestedMode (calls loop_body s)
  = if result ReceiveModeCommand (mode_done s)
    then [Call.SetRequestedMode
            (RequestedMode (after ReceiveModeCommand (mode_done s)))]
    else [].
Proof. filter_round s. Qed.

End MessageCalls.

(* ===================================================================== *)
(** * Part IV.  The control loop on the FMU                               *)
(* ===================================================================== *)

Section FmuFacts.
Context {Env : Type} `{Plant Env}
        `{AircraftMission.Scheduler} `{AircraftSocComms.WireFormat}.

Implicit Types (s : Main (Fmu Env)) (w : Fmu Env).

(** *** The mode and the state of a round *)

Lemma Fmu_mode_of_round s :
  mode_of_round s = AircraftMission.RequestedMode_ (Mission (world s)).
Proof. reflexivity. Qed.

Lemma Fmu_state_of_round s :
  state_of_round s
  = AircraftMission.select_state (AircraftMission.UpdateMode (Mission (world s))).
Proof. reflexivity. Qed.

(** The state of a round is an eligible one. *)
Lemma Fmu_state_eligible s :
  AircraftMission.eligible (Mission (world s)) (state_of_round s) = true.
Proof.
  rewrite Fmu_state_of_round.
  pose proof (AircraftMission.select_eligible
                (AircraftMission.UpdateMode (Mission (world s)))) as He.
  destruct (AircraftMission.select_state _); exact He.
Qed.

(** *** The control-law loop touches neither the mission nor the mailbox *)

Lemma Fmu_run_control_levels w :
  Mission (fst (run_control_levels w)) = Mission w
  /\ SocComms (fst (run_control_levels w)) = SocComms w.
Proof.
  apply (run_control_levels_inv
           (fun w' _ => Mission w' = Mission w /\ SocComms w' = SocComms w)).
  - intros i w0 l Hw. exact Hw.
  - intros w0 l Hw. exact Hw.
  - split; reflexivity.
Qed.

(** *** The mission through the blocks *)

Lemma Mission_after_handler (st : State) s :
  Mission (world (after (handler st) s))
  = match st with
    | SyncDataCollection => AircraftMission.ClearImuDataReady (Mission (world s))
    | AsyncDataCollection => Mission (world s)
    | FlightControl => AircraftMission.ClearFlightControlFlag (Mission (world s))
    | EffectorOutput => AircraftMission.ClearEffectorOutputFlag (Mission (world s))
    end.
Proof.
  destruct st; [reflexivity | reflexivity | | reflexivity].
  cbn [handler]. unfold FlightControl_block. autorewrite with prog.
  destruct (Fmu_run_control_levels (Mission_ClearFlightControlFlag (world s)))
    as [Hm _].
  destruct (run_control_levels _) as [w' levels]. cbn [fst snd] in *.
  cbn [world set_world Effectors_ComputeOutputs fmu_collaborators on_plant Mission].
  exact Hm.
Qed.

Lemma SocComms_after_handler (st : State) s :
  SocComms (world (after (handler st) s))
  = match st with
    | SyncDataCollection =>
        AircraftSocComms.SendSensorData
          (GetDataBuffer (ReadSyncSensors (plant (world s)))) (SocComms (world s))
    | _ => SocComms (world s)
    end.
Proof.
  destruct st; [reflexivity | reflexivity | | reflexivity].
  cbn [handler]. unfold FlightControl_block. autorewrite with prog.
  destruct (Fmu_run_control_levels (Mission_ClearFlightControlFlag (world s)))
    as [_ Hc].
  destruct (run_control_levels _) as [w' levels]. cbn [fst snd] in *.
  cbn [world set_world Effectors_ComputeOutputs fmu_collaborators on_plant SocComms].
  exact Hc.
Qed.


(** *** The mailbox accessors as the loop calls them *)

Lemma Fmu_ReceiveEffectorCommand s :
  let r := AircraftSocComms.ReceiveEffectorCommand (SocComms (world s)) in
  result ReceiveEffectorCommand s = match fst r with Some _ => true | None => false end
  /\ Mission (world (after ReceiveEffectorCommand s)) = Mission (world s)
  /\ SocComms (world (after ReceiveEffectorCommand s)) = snd r.
Proof.
  unfold result, after, ReceiveEffectorCommand.
  cbn [SocComms_ReceiveEffectorCommand fmu_collaborators]. unfold accessor.
  destruct (AircraftSocComms.ReceiveEffectorCommand _) as [[v|] c];
    cbn; repeat split.
Qed.

Lemma Fmu_ReceiveConfigMessage s :
  let r := AircraftSocComms.ReceiveConfigMessage (SocComms (world s)) in
  result ReceiveConfigMessage s
  = match fst r with Some v => (true, v) | None => (false, []) end
  /\ Mission (world (after ReceiveConfigMessage s)) = Mission (world s)
  /\ SocComms (world (after ReceiveConfigMessage s)) = snd r.
Proof.
  unfold result, after, ReceiveConfigMessage.
  cbn [SocComms_ReceiveConfigMessage fmu_collaborators]. unfold accessor.
  destruct (AircraftSocComms.ReceiveConfigMessage _) as [[v|] c];
    cbn; repeat split.
Qed.

Lemma Fmu_ReceiveModeCommand s :
  let r := AircraftSocComms.ReceiveModeCommand (SocComms (world s)) in
  result ReceiveModeCommand s = match fst r with Some _ => true | None => false end
  /\ RequestedMode (after ReceiveModeCommand s)
     = match fst r with Some m => m | None => RequestedMode s end
  /\ Mission (world (after ReceiveModeCommand s)) = Mission (world s)
  /\ SocComms (world (after ReceiveModeCommand s)) = snd r.
Proof.
  unfold result, after, ReceiveModeCommand.
  cbn [SocComms_ReceiveModeCommand fmu_collaborators]. unfold accessor.
  destruct (AircraftSocComms.ReceiveModeCommand _) as [[v|] c];
    cbn; repeat split.
Qed.

(** *** The mission and the mailbox through the blocks of the modes *)

Lemma Fmu_after_soc_effector_commands s :
  Mission (world (after soc_effector_commands s)) = Mission (world s)
  /\ SocComms (world (after soc_effector_commands s))
     = snd (AircraftSocComms.ReceiveEffectorCommand (SocComms (world s))).
Proof.
  destruct (Fmu_ReceiveEffectorCommand s) as (_ & Hm & Hc). cbv zeta in *.
  unfold soc_effector_commands. autorewrite with prog.
  destruct (result ReceiveEffectorCommand s);
    [destruct (Mission_UseSocEffectorComands _)|];
    cbn [world set_world Effectors_SetCommands fmu_collaborators on_plant
         Mission SocComms];
    split; assumption.
Qed.

Lemma Fmu_after_Configuration_block s :
  Mission (world (after Configuration_block s)) = Mission (world s)
  /\ SocComms (world (after Configuration_block s))
     = snd (AircraftSocComms.ReceiveConfigMessage (SocComms (world s))).
Proof.
  destruct (Fmu_ReceiveConfigMessage s) as (_ & Hm & Hc). cbv zeta in *.
  unfold Configuration_block. autorewrite with prog.
  destruct (fst (result ReceiveConfigMessage s));
    cbn [world set_world Config_Update fmu_collaborators on_plant Mission SocComms];
    split; assumption.
Qed.

Lemma Fmu_after_request_mode s :
  let r := AircraftSocComms.ReceiveModeCommand (SocComms (world s)) in
  Mission (world (after request_mode s))
  = match fst r with
    | Some m => AircraftMission.SetRequestedMode m (Mission (world s))
    | None => Mission (world s)
    end
  /\ SocComms (world (after request_mode s)) = snd r.
Proof.
  destruct (Fmu_ReceiveModeCommand s) as (Hr & Hq & Hm & Hc). cbv zeta in *.
  unfold request_mode. autorewrite with prog. rewrite Hr.
  destruct (fst (AircraftSocComms.ReceiveModeCommand (SocComms (world s))));
    cbn [world set_world Mission_SetRequestedMode fmu_collaborators on_Mission
         Mission SocComms];
    rewrite ?Hq, ?Hm; split; try reflexivity; assumption.
Qed.

(** *** The mission and the mailbox at the stations of a round *)

Lemma Fmu_mode_read s :
  Mission (world (mode_read s)) = AircraftMission.UpdateMode (Mission (world s))
  /\ SocComms (world (mode_read s)) = SocComms (world s).
Proof. split; reflexivity. Qed.

Lemma Fmu_state_read s :
  Mission (world (state_read s))
  = AircraftMission.UpdateState (AircraftMission.UpdateMode (Mission (world s)))
  /\ SocComms (world (state_read s)) = SocComms (world s).
Proof. split; reflexivity. Qed.

End FmuFacts.

Section FmuMailbox.
Import AircraftSocComms.
Context {Env : Type} `{Plant Env}
        `{AircraftMission.Scheduler} `{WireFormat}.

Implicit Types (s : Main (Fmu Env)).

Lemma holds_SendSensorData (k : Message) (p buf : list byte) (c : t) :
  holds k p c -> holds k p (SendSensorData buf c).
Proof. intros Hh. exact Hh. Qed.

(** A pending message is still pending when the blocks of the states are
    done. *)
Lemma holds_blocks_done (k : Message) (p : list byte) s :
  holds k p (SocComms (world s)) -> holds k p (SocComms (world (blocks_done s))).
Proof.
  intros Hh. unfold blocks_done. rewrite SocComms_after_handler.
  destruct (state_of_round s); try exact Hh.
Qed.

Lemma ReceiveEffectorCommand_other (k : Message) (p : list byte) (c : t) :
  holds k p c -> k <> EffectorCommand -> ReceiveEffectorCommand c = (None, c).
Proof.
  intros (_ & Hk & _) Hne. unfold ReceiveEffectorCommand, pending.
  rewrite tryReceive_mismatch by congruence. reflexivity.
Qed.

Lemma ReceiveConfigMessage_other (k : Message) (p : list byte) (c : t) :
  holds k p c -> k <> Configuration -> ReceiveConfigMessage c = (None, c).
Proof.
  intros (_ & Hk & _) Hne. unfold ReceiveConfigMessage.
  apply tryReceive_mismatch. congruence.
Qed.

Lemma ReceiveConfigMessage_holds (p : list byte) (c : t) :
  holds Configuration p c ->
  ReceiveConfigMessage c = (Some p, set_MessageReceived c false).
Proof.
  intros (Hr & Hk & Hp). unfold ReceiveConfigMessage.
  rewrite <- Hk, tryReceive_match by exact Hr. now rewrite Hp.
Qed.

Lemma ReceiveModeCommand_holds (b : byte) (m : Mode) (c : t) :
  holds ModeCommand [b] c -> mode_of_byte b = Some m ->
  ReceiveModeCommand c = (Some m, set_MessageReceived c false).
Proof.
  intros (Hr & Hk & Hp) Hm. unfold ReceiveModeCommand, pending.
  rewrite <- Hk, tryReceive_match by exact Hr. cbn [fst snd].
  now rewrite Hp, Hm.
Qed.

(** A pending message that is not for the block of the round's mode is
    still pending when that block is done. *)
Lemma holds_mode_done (k : Message) (p : list byte) s :
  holds k p (SocComms (world s)) ->
  k <> EffectorCommand -> k <> Configuration ->
  holds k p (SocComms (world (mode_done s))).
Proof.
  intros Hh Hne Hnc. destruct (mode_of_round s) eqn:Hmode.
  - destruct (calls_loop_body_Configuration s Hmode) as [_ ->].
    destruct (Fmu_after_Configuration_block (mode_read s)) as [_ ->].
    rewrite (ReceiveConfigMessage_other (k:=k) (p:=p)); assumption.
  - destruct (calls_loop_body_Run s Hmode) as [_ ->].
    destruct (Fmu_after_soc_effector_commands (blocks_done s)) as [_ ->].
    pose proof (holds_blocks_done s Hh) as Hb.
    rewrite (ReceiveEffectorCommand_other Hb Hne). exact Hb.
Qed.

(** C6 (effector commands of the wrong shape).  When the pending message
    is an effector command whose payload length is not a multiple of 4,
    [ReceiveEffectorCommand] reports failure and leaves the mailbox as it
    is, and the round makes no call to [Effectors.SetCommands]; when the
    payload has [4 * n] bytes the accessor succeeds and takes the message
    out of the slot, and what it yields is exactly [n] floats in payload
    order: the [i]-th is the 32-bit pattern of bytes [4 * i] to
    [4 * i + 3] of the payload, and the bytes of the floats, one float
    after the other, are the payload again, so that no byte is lost,
    changed or moved. *)
Theorem effector_command_shape :
  (forall s (p : list byte),
      holds EffectorCommand p (SocComms (world s)) ->
      (length p mod 4 <> 0)%nat ->
      ReceiveEffectorCommand (SocComms (world s)) = (None, SocComms (world s))
      /\ count_calls Call.is_SetCommands (calls loop_body s) = 0%nat)
  /\ (forall (c : t) (n : nat) (p : list byte),
         holds EffectorCommand p c ->
         length p = (4 * n)%nat ->
         exists fl,
           fst (ReceiveEffectorCommand c) = Some fl
           /\ length fl = n
           /\ (forall i, (i < n)%nat ->
                  nth i fl 0%N
                  = float_of_bytes (nth (4 * i) p x00) (nth (4 * i + 1) p x00)
                      (nth (4 * i + 2) p x00) (nth (4 * i + 3) p x00))
           /\ flat_map bytes_of_float fl = p
           /\ Forall (fun x => (x < 2 ^ 32)%N) fl
           /\ snd (ReceiveEffectorCommand c) = set_MessageReceived c false).
Proof.
  split.
  - intros s p Hh Hlen.
    assert (Hfail : forall c, holds EffectorCommand p c ->
                              ReceiveEffectorCommand c = (None, c)).
    { intros c (Hr & Hk & Hp). apply ReceiveEffectorCommand_misaligned; congruence. }
    split; [apply Hfail; exact Hh|].
    unfold count_calls. rewrite filter_SetCommands. cbv zeta.
    destruct (Fmu_ReceiveEffectorCommand (blocks_done s)) as (-> & _).
    rewrite (Hfail _ (holds_blocks_done s Hh)). cbn [fst].
    now rewrite andb_false_r.
  - intros c n p (Hr & Hk & Hp) Hlen.
    exists (floats_of_bytes p).
    rewrite ReceiveEffectorCommand_aligned; try assumption.
    + rewrite Hp. cbn [fst snd].
      destruct (floats_of_bytes_spec n p Hlen) as [Hn Hnth].
      destruct (floats_of_bytes_exact n p Hlen) as [Hbytes Hbits].
      split; [reflexivity|]. split; [exact Hn|]. split; [exact Hnth|].
      split; [exact Hbytes|]. split; [exact Hbits|reflexivity].
    + rewrite Hp, Hlen. now rewrite Nat.mul_comm, Nat.Div0.mod_mul.
Qed.

End FmuMailbox.

Section FmuModes.
Context {Env : Type} `{Plant Env}
        `{AircraftMission.Scheduler} `{AircraftSocComms.WireFormat}.

Implicit Types (s : Main (Fmu Env)).

(** C3 (mode gating).  In a round with [Mode == Run], whatever the
    collaborators, [Config.Update] is not called; a round in which it is
    called is a round with [Mode == Configuration]; and on the FMU a
    pending configuration message is passed to [Config.Update], text
    unchanged, in a [Configuration] round.  A pending mode command, a
    one-byte payload coding a mode, is received in a round of either mode:
    [Mission.SetRequestedMode] is called once, with the mode commanded,
    and that mode is the requested mode when the round ends. *)
Theorem mode_gating :
  (forall (W : Type) (C : Collaborators W) (s : Main W),
      mode_of_round s = Run ->
      count_calls Call.is_ConfigUpdate (calls loop_body s) = 0%nat)
  /\ (forall (W : Type) (C : Collaborators W) (s : Main W),
         (1 <= count_calls Call.is_ConfigUpdate (calls loop_body s))%nat ->
         mode_of_round s = Configuration)
  /\ (forall s (p : list byte),
         mode_of_round s = Configuration ->
         AircraftSocComms.holds AircraftSocComms.Configuration p (SocComms (world s)) ->
         filter Call.is_ConfigUpdate (calls loop_body s) = [Call.ConfigUpdate p])
  /\ (forall s (b : byte) (m : Mode),
         AircraftSocComms.holds AircraftSocComms.ModeCommand [b] (SocComms (world s)) ->
         AircraftSocComms.mode_of_byte b = Some m ->
         filter Call.is_SetRequestedMode (calls loop_body s)
         = [Call.SetRequestedMode m]
         /\ AircraftMission.RequestedMode_ (Mission (world (after loop_body s))) = m).
Proof.
  split; [|split; [|split]].
  - intros W C s Hmode. unfold count_calls.
    now rewrite filter_ConfigUpdate, Hmode.
  - intros W C s Hcount. unfold count_calls in Hcount.
    rewrite filter_ConfigUpdate in Hcount.
    destruct (mode_of_round s); [reflexivity|]. simpl in Hcount. lia.
  - intros s p Hmode Hh.
    rewrite filter_ConfigUpdate, Hmode. cbn [Mode_eqb andb].
    destruct (Fmu_ReceiveConfigMessage (mode_read s)) as (-> & _).
    destruct (Fmu_mode_read s) as [_ ->].
    rewrite (ReceiveConfigMessage_holds Hh). reflexivity.
  - intros s b m Hh Hm.
    assert (Hd : AircraftSocComms.holds AircraftSocComms.ModeCommand [b] (SocComms (world (mode_done s))))
      by (apply holds_mode_done; [exact Hh | discriminate | discriminate]).
    pose proof (ReceiveModeCommand_holds Hd Hm) as Hrecv.
    split.
    + rewrite filter_SetRequestedMode.
      destruct (Fmu_ReceiveModeCommand (mode_done s)) as (-> & -> & _).
      now rewrite Hrecv.
    + rewrite after_loop_body.
      destruct (Fmu_after_request_mode (mode_done s)) as [Hmis _].
      cbv zeta in Hmis. rewrite Hrecv in Hmis. cbn [fst] in Hmis.
      cbn [world set_world SocComms_CheckMessages fmu_collaborators on_SocComms
           Mission].
      now rewrite Hmis.
Qed.

End FmuModes.

Section FmuFlags.
Context {Env : Type} `{Plant Env}
        `{AircraftMission.Scheduler} `{AircraftSocComms.WireFormat}.

Implicit Types (s : Main (Fmu Env)) (f : PendingFlag).

(** Whether the block of a pending flag runs in the round. *)
Lemma flag_block_runs f s :
  count_calls (is_flag_clear f) (calls loop_body s)
  = (if Mode_eqb (mode_of_round s) Run
        && State_eqb (state_of_round s) (flag_state f) then 1 else 0)
  /\ count_calls (is_flag_work f) (calls loop_body s)
     = (if Mode_eqb (mode_of_round s) Run
           && State_eqb (state_of_round s) (flag_state f) then 1 else 0).
Proof.
  destruct (handler_runs s) as (_ & _ & Hfc & Hfw & Hec & Hew). cbv zeta in *.
  destruct f; split; assumption.
Qed.

(** The block of a pending flag runs only when the flag is pending. *)
Lemma flag_block_needs_flag f s :
  Mode_eqb (mode_of_round s) Run && State_eqb (state_of_round s) (flag_state f)
  = true ->
  flag_value f (Mission (world s)) = true.
Proof.
  intros Hran. apply andb_prop in Hran. destruct Hran as [_ Hst].
  apply State_eqb_eq in Hst.
  pose proof (Fmu_state_eligible s) as He. rewrite Hst in He.
  destruct f; exact He.
Qed.

(** When it runs, the round begins with the calls up to the reading of
    the state, and the very next call clears the flag. *)
Lemma flag_block_clears_first f s :
  Mode_eqb (mode_of_round s) Run && State_eqb (state_of_round s) (flag_state f)
  = true ->
  firstn 5 (calls loop_body s)
  = [Call.UpdateMode; Call.GetMode; Call.UpdateState; Call.GetState; flag_clear f].
Proof.
  intros Hran. apply andb_prop in Hran. destruct Hran as [Hmode Hst].
  apply Mode_eqb_eq in Hmode. apply State_eqb_eq in Hst.
  destruct (calls_loop_body_Run s Hmode) as [-> _].
  rewrite Hst, calls_handler.
  destruct f; cbn [flag_state flag_clear]; [|reflexivity].
  destruct (run_control_levels _) as [w' levels]. reflexivity.
Qed.

(** The flag after a round: cleared if its block ran, as before if not. *)
Lemma flag_after_round f s :
  flag_value f (Mission (world (after loop_body s)))
  = flag_value f (Mission (world s))
    && negb (Mode_eqb (mode_of_round s) Run
             && State_eqb (state_of_round s) (flag_state f)).
Proof.
  rewrite after_loop_body.
  cbn [world set_world SocComms_CheckMessages fmu_collaborators on_SocComms Mission].
  destruct (Fmu_after_request_mode (mode_done s)) as [-> _].
  assert (Hreq : flag_value f
                   match fst (AircraftSocComms.ReceiveModeCommand
                                (SocComms (world (mode_done s)))) with
                   | Some m => AircraftMission.SetRequestedMode m
                                 (Mission (world (mode_done s)))
                   | None => Mission (world (mode_done s))
                   end
                 = flag_value f (Mission (world (mode_done s)))).
  { destruct (fst _); destruct f; reflexivity. }
  rewrite Hreq. clear Hreq.
  destruct (mode_of_round s) eqn:Hmode; cbn [Mode_eqb andb negb].
  - destruct (calls_loop_body_Configuration s Hmode) as [_ ->].
    destruct (Fmu_after_Configuration_block (mode_read s)) as [-> _].
    rewrite andb_true_r. destruct f; reflexivity.
  - destruct (calls_loop_body_Run s Hmode) as [_ ->].
    destruct (Fmu_after_soc_effector_commands (blocks_done s)) as [-> _].
    unfold blocks_done. rewrite Mission_after_handler.
    destruct (Fmu_state_read s) as [-> _].
    destruct (state_of_round s), f; cbn; rewrite ?andb_true_r, ?andb_false_r;
      reflexivity.
Qed.

(** A step that is not the setting of the flag, taken with the flag clear,
    does not run the block of the flag and leaves the flag clear. *)
Lemma flag_clear_step f (x : Step) s :
  sets_flag f x = false ->
  flag_value f (Mission (world s)) = false ->
  count_calls (is_flag_clear f) (calls (step x) s) = 0
  /\ count_calls (is_flag_work f) (calls (step x) s) = 0
  /\ flag_value f (Mission (world (after (step x) s))) = false.
Proof.
  intros Hx Hclear. destruct x as [|e]; cbn [step].
  - destruct (flag_block_runs f s) as [Hc Hw].
    pose proof (flag_after_round f s) as Ha.
    destruct (Mode_eqb (mode_of_round s) Run
              && State_eqb (state_of_round s) (flag_state f)) eqn:Hran.
    + apply flag_block_needs_flag in Hran. congruence.
    + rewrite Hc, Hw, Ha, Hclear. repeat split.
  - split; [reflexivity|split; [reflexivity|]].
    destruct e, f; try discriminate; exact Hclear.
Qed.

(** No re-execution without a fresh set: along any run in which the flag
    is not set from outside, begun with the flag clear, the block of the
    flag does not run and the flag stays clear. *)
Lemma flag_clear_run f (steps : list Step) s :
  forallb (fun x => negb (sets_flag f x)) steps = true ->
  flag_value f (Mission (world s)) = false ->
  count_calls (is_flag_clear f) (calls (run steps) s) = 0
  /\ count_calls (is_flag_work f) (calls (run steps) s) = 0
  /\ flag_value f (Mission (world (after (run steps) s))) = false.
Proof.
  revert s. induction steps as [|x steps IH]; intros s Hsteps Hclear.
  - repeat split. exact Hclear.
  - cbn [forallb] in Hsteps. apply andb_prop in Hsteps.
    destruct Hsteps as [Hx Hrest]. apply negb_true_iff in Hx.
    destruct (flag_clear_step f x s Hx Hclear) as (Hc & Hw & Ha).
    destruct (IH (after (step x) s) Hrest Ha) as (Hc' & Hw' & Ha').
    cbn [run]. rewrite calls_bind, after_bind, !count_calls_app, Hc, Hw, Hc', Hw'.
    repeat split. exact Ha'.
Qed.

(** A round runs the block of one state, so at most one of the two
    flagged blocks. *)
Lemma one_flag_block_per_round s :
  count_calls (is_flag_clear FlightControlFlagPending) (calls loop_body s)
  + count_calls (is_flag_clear EffectorOutputFlagPending) (calls loop_body s)
  <= 1.
Proof.
  destruct (flag_block_runs FlightControlFlagPending s) as [-> _].
  destruct (flag_block_runs EffectorOutputFlagPending s) as [-> _].
  destruct (mode_of_round s), (state_of_round s); cbn; lia.
Qed.

(** *** Runs *)

Lemma run_app (a b : list Step) s :
  calls (run (a ++ b)) s = calls (run a) s ++ calls (run b) (after (run a) s)
  /\ after (run (a ++ b)) s = after (run b) (after (run a) s).
Proof.
  revert s. induction a as [|x a IH]; intros s.
  - split; reflexivity.
  - cbn [app run]. rewrite !calls_bind, !after_bind.
    destruct (IH (after (step x) s)) as [-> ->].
    now rewrite app_assoc.
Qed.

(** The current state after a round: the state of the round in a [Run]
    round, the state as it was in a [Configuration] round. *)
Lemma State_after_round s :
  AircraftMission.State_ (Mission (world (after loop_body s)))
  = match mode_of_round s with
    | Run => state_of_round s
    | Configuration => AircraftMission.State_ (Mission (world s))
    end.
Proof.
  rewrite after_loop_body.
  cbn [world set_world SocComms_CheckMessages fmu_collaborators on_SocComms Mission].
  destruct (Fmu_after_request_mode (mode_done s)) as [-> _].
  assert (Hreq : AircraftMission.State_
                   match fst (AircraftSocComms.ReceiveModeCommand
                                (SocComms (world (mode_done s)))) with
                   | Some m => AircraftMission.SetRequestedMode m
                                 (Mission (world (mode_done s)))
                   | None => Mission (world (mode_done s))
                   end
                 = AircraftMission.State_ (Mission (world (mode_done s)))).
  { destruct (fst _); reflexivity. }
  rewrite Hreq. clear Hreq.
  destruct (mode_of_round s) eqn:Hmode.
  - destruct (calls_loop_body_Configuration s Hmode) as [_ ->].
    destruct (Fmu_after_Configuration_block (mode_read s)) as [-> _].
    reflexivity.
  - destruct (calls_loop_body_Run s Hmode) as [_ ->].
    destruct (Fmu_after_soc_effector_commands (blocks_done s)) as [-> _].
    unfold blocks_done. rewrite Mission_after_handler.
    destruct (Fmu_state_read s) as [-> _].
    rewrite Fmu_state_of_round.
    destruct (AircraftMission.select_state _) eqn:Hst; cbn; exact Hst.
Qed.

(** An outside event clears no flag and leaves the current state. *)
Lemma flag_after_outside f (e : External) (w : Fmu Env) :
  flag_value f (Mission w) = true ->
  flag_value f (Mission (external e w)) = true
  /\ AircraftMission.State_ (Mission (external e w))
     = AircraftMission.State_ (Mission w).
Proof. intros Hf. destruct e, f; split; try reflexivity; exact Hf. Qed.

End FmuFlags.

Section FlagBlocks.
Context {W : Type} `{Collaborators W}.

Lemma count_calls_zero (p : Call.t -> bool) (l : list Call.t) :
  count_calls p l = 0 -> Forall (fun c => p c = false) l.
Proof.
  induction l as [|c l IH]; [constructor|].
  rewrite count_calls_cons. destruct (p c) eqn:Hc; [discriminate|].
  intros Hl. constructor; [exact Hc|apply IH; exact Hl].
Qed.

(** A round in which the block of a pending flag does not run makes none
    of the calls of that block: it does not clear the flag, it does not do
    the work, and, for the flight-control flag, it runs no control law. *)
Lemma flag_block_silent (f : PendingFlag) (s : Main W) :
  Mode_eqb (mode_of_round s) Run && State_eqb (state_of_round s) (flag_state f)
  = false ->
  Forall (fun c => is_flag_clear f c = false
                   /\ is_flag_work f c = false
                   /\ (f = FlightControlFlagPending ->
                       Call.is_control_call c = false))
    (calls loop_body s).
Proof.
  intros Hran.
  assert (Hnone : count_calls
                    (fun c => is_flag_clear f c || is_flag_work f c
                              || match f with
                                 | FlightControlFlagPending => Call.is_control_call c
                                 | EffectorOutputFlagPending => false
                                 end)
                    (calls loop_body s) = 0).
  { revert Hran.
    destruct f; round_cases s;
      cbn [flag_state is_flag_clear is_flag_work Mode_eqb State_eqb andb];
      intros Hran; try discriminate Hran; count_round. }
  apply count_calls_zero in Hnone.
  eapply Forall_impl; [|exact Hnone].
  intros c Hc. cbv beta in Hc.
  apply orb_false_elim in Hc. destruct Hc as [Hc Hctl].
  apply orb_false_elim in Hc. destruct Hc as [Hclear Hwork].
  split; [exact Hclear|]. split; [exact Hwork|].
  intros ->. exact Hctl.
Qed.

End FlagBlocks.

(** ** The edge trigger, with the states taken in order *)

Section FmuInOrder.
Context {Env : Type} `{Plant Env} `{AircraftSocComms.WireFormat}.
#[local] Existing Instance in_order.

Implicit Types (s : Main (Fmu Env)) (f : PendingFlag).

Lemma turns_positive (from target : State) : 1 <= turns from target <= 4.
Proof. destruct from, target; cbn; lia. Qed.

(** With the flag pending, the state that becomes current is the flag's
    or one that is nearer to it in the order. *)
Lemma in_order_nearer f (m : AircraftMission.t) :
  flag_value f m = true ->
  in_order_state m = flag_state f
  \/ turns (in_order_state m) (flag_state f)
     < turns (AircraftMission.State_ m) (flag_state f).
Proof.
  destruct m as [md rq st imu fc eo]. unfold in_order_state.
  destruct f; cbn [flag_value AircraftMission.FlightControlFlag_
                   AircraftMission.EffectorOutputFlag_];
    intros ->; destruct st, imu; try destruct fc; try destruct eo; cbn;
    first [left; reflexivity | right; lia].
Qed.

(** The block of a pending flag runs once within the rounds it takes to
    come to the flag's state, and the flag is clear from then on. *)
Lemma served_in_turn f (window : list Step) :
  forall s,
    flag_value f (Mission (world s)) = true ->
    rounds_in_Run window s = true ->
    turns (AircraftMission.State_ (Mission (world s))) (flag_state f)
    <= iterations window ->
    forallb (fun x => negb (sets_flag f x)) window = true ->
    count_calls (is_flag_clear f) (calls (run window) s) = 1
    /\ count_calls (is_flag_work f) (calls (run window) s) = 1
    /\ (exists pre post,
          calls (run window) s = pre ++ Call.GetState :: flag_clear f :: post
          /\ Forall (fun c => is_flag_clear f c = false
                              /\ is_flag_work f c = false
                              /\ (f = FlightControlFlagPending ->
                                  Call.is_control_call c = false)) pre)
    /\ flag_value f (Mission (world (after (run window) s))) = false.
Proof.
  induction window as [|x window IH]; intros s Hf Hrun Hturns Hset.
  - pose proof (turns_positive (AircraftMission.State_ (Mission (world s)))
                  (flag_state f)).
    cbn in Hturns. lia.
  - cbn [rounds_in_Run] in Hrun. apply andb_prop in Hrun. destruct Hrun as [Hx Hrun].
    cbn [forallb] in Hset. apply andb_prop in Hset. destruct Hset as [_ Hset].
    cbn [run]. rewrite calls_bind, after_bind.
    destruct x as [|e].
    + (* a round *)
      apply Mode_eqb_eq in Hx. cbn [step] in *.
      destruct (flag_block_runs f s) as [Hc Hw].
      pose proof (flag_after_round f s) as Ha.
      rewrite Hx in Hc, Hw, Ha. cbn [Mode_eqb andb] in Hc, Hw, Ha.
      destruct (State_eqb (state_of_round s) (flag_state f)) eqn:Hst.
      * (* the block of the flag runs in this round *)
        assert (Hclear : flag_value f (Mission (world (after loop_body s))) = false)
          by (rewrite Ha; apply andb_false_r).
        destruct (flag_clear_run f window (after loop_body s) Hset Hclear)
          as (Hc' & Hw' & Ha').
        assert (Hran : Mode_eqb (mode_of_round s) Run
                       && State_eqb (state_of_round s) (flag_state f) = true)
          by (rewrite Hx, Hst; reflexivity).
        pose proof (flag_block_clears_first f s Hran) as Hfirst.
        rewrite !count_calls_app, Hc, Hw, Hc', Hw'.
        split; [reflexivity|]. split; [reflexivity|]. split; [|exact Ha'].
        exists [Call.UpdateMode; Call.GetMode; Call.UpdateState],
               (skipn 5 (calls loop_body s) ++ calls (run window) (after loop_body s)).
        split.
        -- rewrite <- (firstn_skipn 5 (calls loop_body s)) at 1.
           rewrite Hfirst. reflexivity.
        -- destruct f; repeat constructor.
      * (* another block runs; the flag stays pending, its turn is nearer *)
        assert (Hpend : flag_value f (Mission (world (after loop_body s))) = true)
          by (rewrite Ha, Hf; reflexivity).
        assert (Hnear : turns (AircraftMission.State_
                                 (Mission (world (after loop_body s))))
                          (flag_state f)
                        <= iterations window).
        { rewrite State_after_round, Hx, Fmu_state_of_round.
          destruct (@in_order_nearer f
                      (AircraftMission.UpdateMode (Mission (world s))))
            as [Heq|Hlt].
          - destruct f; exact Hf.
          - rewrite Fmu_state_of_round in Hst.
            change (AircraftMission.select_state
                      (AircraftMission.UpdateMode (Mission (world s))))
              with (in_order_state (AircraftMission.UpdateMode (Mission (world s))))
              in Hst.
            rewrite Heq in Hst. destruct f; discriminate Hst.
          - change (AircraftMission.select_state
                      (AircraftMission.UpdateMode (Mission (world s))))
              with (in_order_state (AircraftMission.UpdateMode (Mission (world s)))).
            change (AircraftMission.State_
                      (AircraftMission.UpdateMode (Mission (world s))))
              with (AircraftMission.State_ (Mission (world s))) in Hlt.
            cbn [iterations filter length] in Hturns. unfold iterations. lia. }
        destruct (IH (after loop_body s) Hpend Hrun Hnear Hset)
          as (Hc' & Hw' & (pre & post & Hl & Hpre) & Ha').
        assert (Hquiet : Forall (fun c => is_flag_clear f c = false
                                         /\ is_flag_work f c = false
                                         /\ (f = FlightControlFlagPending ->
                                             Call.is_control_call c = false))
                           (calls loop_body s)).
        { apply flag_block_silent. rewrite Hx, Hst. reflexivity. }
        rewrite !count_calls_app, Hc, Hw, Hc', Hw'.
        split; [reflexivity|]. split; [reflexivity|]. split; [|exact Ha'].
        exists (calls loop_body s ++ pre), post. split.
        -- rewrite Hl. now rewrite app_assoc.
        -- apply Forall_app. split; assumption.
    + (* an outside event *)
      cbn [step] in *.
      change (calls (fun s0 : Main (Fmu Env) =>
                       (tt, set_world s0 (external e (world s0)), [])) s)
        with (@nil Call.t).
      change (after (fun s0 : Main (Fmu Env) =>
                       (tt, set_world s0 (external e (world s0)), [])) s)
        with (set_world s (external e (world s))) in *.
      destruct (flag_after_outside f e (world s) Hf) as [Hpend Hst].
      assert (Hnear : turns (AircraftMission.State_
                               (Mission (world (set_world s (external e (world s))))))
                        (flag_state f)
                      <= iterations window).
      { cbn [world set_world]. rewrite Hst. exact Hturns. }
      destruct (IH (set_world s (external e (world s))) Hpend Hrun Hnear Hset)
        as (Hc' & Hw' & Hfirst & Ha').
      cbn [app]. split; [exact Hc'|]. split; [exact Hw'|]. split; assumption.
Qed.


End FmuInOrder.

(** ** The loop on concrete inputs *)

Section LoopSamples.
Import Sample.

(** C4 as stated fails: in a [Run] round whose state is
    [SyncDataCollection] the synchronous block runs and
    [ReadAsyncSensors] is not called. *)
Lemma async_read_counterexample :
  let s := fmu (mission Run true false false) idle in
  mode_of_round s = Run
  /\ count_calls Call.is_ClearImuDataReady (calls loop_body s) = 1
  /\ count_calls Call.is_ReadAsyncSensors (calls loop_body s) = 0.
Proof. vm_compute. repeat split. Qed.

(** C8 as stated fails: the round reads the mailbox by kind first and
    pumps it last; no read follows the pump within the round. *)
Lemma round_order_counterexample :
  let l := calls loop_body (fmu (mission Run false false false) idle) in
  l = [Call.UpdateMode; Call.GetMode; Call.UpdateState; Call.GetState;
       Call.ReadAsyncSensors; Call.ReceiveEffectorCommand;
       Call.ReceiveModeCommand; Call.CheckMessages]
  /\ count_calls Call.is_Receive (before Call.is_CheckMessages l) = 2
  /\ count_calls Call.is_Receive (after_first Call.is_CheckMessages l) = 0.
Proof. vm_compute. repeat split. Qed.

(** C6 at a 10-byte effector command, and at the 12 bytes of the floats
    1.0, 2.0 and 3.0, whose patterns are 3f800000, 40000000 and 40400000
    in hexadecimal. *)
Lemma effector_command_shape_witness :
  let ten := repeat x01 10 in
  let twelve := [x00; x00; x80; x3f; x00; x00; x00; x40; x00; x00; x40; x40] in
  let s := fmu (mission Run false false false)
               (holding AircraftSocComms.EffectorCommand ten) in
  (AircraftSocComms.ReceiveEffectorCommand (SocComms (world s))
   = (None, SocComms (world s))
   /\ count_calls Call.is_SetCommands (calls loop_body s) = 0)
  /\ fst (AircraftSocComms.ReceiveEffectorCommand
            (holding AircraftSocComms.EffectorCommand twelve))
     = Some [1065353216; 1073741824; 1077936128]%N
  /\ flat_map bytes_of_float [1065353216; 1073741824; 1077936128]%N = twelve.
Proof.
  intros ten twelve s.
  destruct (@effector_command_shape nat counting_plant scheduler wire)
    as [Hbad Hgood].
  split.
  - apply (Hbad s ten); [repeat split | vm_compute; discriminate].
  - destruct (Hgood (holding AircraftSocComms.EffectorCommand twelve) 3 twelve)
      as (fl & Hfl & Hlen & Hnth & Hbytes & _); [repeat split | reflexivity |].
    assert (Hval : fl = [1065353216; 1073741824; 1077936128]%N).
    { destruct fl as [|a [|b [|c [|d fl]]]]; try discriminate Hlen.
      pose proof (Hnth 0 (Nat.lt_0_succ 2)) as H0.
      pose proof (Hnth 1 (proj1 (Nat.succ_lt_mono 0 2) (Nat.lt_0_succ 1))) as H1.
      pose proof (Hnth 2 (Nat.lt_succ_diag_r 2)) as H2.
      cbn [nth] in H0, H1, H2. rewrite H0, H1, H2. reflexivity. }
    rewrite <- Hval. split; [exact Hfl|exact Hbytes].
Defined.

(** C3 at a [Run] round with a mode command pending. *)
Lemma mode_gating_witness :
  let s := fmu (mission Run false false false)
               (holding AircraftSocComms.ModeCommand [x00]) in
  count_calls Call.is_ConfigUpdate (calls loop_body s) = 0
  /\ filter Call.is_SetRequestedMode (calls loop_body s)
     = [Call.SetRequestedMode Configuration]
  /\ AircraftMission.RequestedMode_ (Mission (world (after loop_body s)))
     = Configuration.
Proof.
  intros s.
  destruct (@mode_gating nat counting_plant scheduler wire)
    as (Hrun & _ & _ & Hmode).
  split; [apply Hrun; reflexivity|].
  apply (Hmode s x00 Configuration); [repeat split | reflexivity].
Defined.

End LoopSamples.

Section InOrderSamples.
#[local] Existing Instance Sample.counting_plant.
#[local] Existing Instance Sample.wire.
#[local] Existing Instance in_order.


End InOrderSamples.

(* ===================================================================== *)
(** * Part V.  The route manager                                          *)
(* ===================================================================== *)

Section RouteManager.
Import FGRouteMgr.
Context `{RouteEnv}.

Lemma load_store_same (h : heap) (p : ptr) (r : SGRoute) :
  load (store h p r) p = r.
Proof. destruct p; reflexivity. Qed.

Lemma load_store_other (h : heap) (p q : ptr) (r : SGRoute) :
  p <> q -> load (store h p r) q = load h q.
Proof. destruct p, q; intros Hpq; try reflexivity; contradiction. Qed.

Lemma create_distinct_routes (a b : SGRoute) : distinct_routes (create a b).
Proof. unfold distinct_routes. simpl. discriminate. Qed.

Lemma update_route_pointers (p : ptr) (f : SGRoute -> SGRoute) (m : t) :
  active (update_route p f m) = active m
  /\ standby (update_route p f m) = standby m
  /\ pos_set (update_route p f m) = pos_set m.
Proof. repeat split. Qed.

Lemma swap_distinct_routes (m : t) :
  distinct_routes m -> distinct_routes (snd (swap m)).
Proof.
  unfold distinct_routes, swap. intros Hm.
  destruct (SGRoute_size (standby_route m) =? 0)%Z; simpl; congruence.
Qed.

(** C9 ([build] never fails).  For every configuration and every manager
    [build] returns [true]; so [init] never takes the branch that prints
    the inconsistency message and leaves by [exit(-1)]: it always returns,
    having printed its greeting and the number of waypoints loaded. *)
Theorem build_never_fails (Config : Value) (m : t) :
  fst (fst (build Config m)) = true
  /\ (forall code : Z, fst (init Config m) <> Exited code)
  /\ (exists m' : t, fst (init Config m) = Returned m')
  /\ (exists n : Z,
        snd (init Config m)
        = [printf "Initializing Route Manager...\n" [];
           printf "loaded %d waypoints\n" [n]]).
Proof.
  split; [reflexivity|].
  unfold init.
  destruct (build Config _) as [[ok m3] out1] eqn:Hb.
  assert (Hok : ok = true).
  { change ok with (fst (fst (ok, m3, out1))). rewrite <- Hb. reflexivity. }
  assert (Hout : exists n, out1 = [printf "loaded %d waypoints\n" [n]]).
  { change out1 with (snd (ok, m3, out1)). rewrite <- Hb.
    unfold build. cbn [snd]. eexists. reflexivity. }
  subst ok. cbn [negb fst snd].
  split; [discriminate|]. split; [eexists; reflexivity|].
  destruct Hout as [n ->]. exists n. reflexivity.
Qed.

(** C10 ([swap] is all or nothing).  With an empty standby route [swap]
    returns [false] and the manager is unchanged: active route, standby
    route, current waypoint and [pos_set] are as they were.  Otherwise it
    returns [true]; the route pointers have changed places; the new active
    route is the old standby one after [set_current(0)], so its current
    waypoint is index 0 for any route class whose [set_current(0)] takes
    on a non-empty route; the new standby route is the old active one,
    untouched; and [pos_set] is false. *)
Theorem swap_all_or_nothing (m : t) :
  distinct_routes m ->
  (SGRoute_size (standby_route m) = 0%Z -> swap m = (false, m))
  /\ (SGRoute_size (standby_route m) <> 0%Z ->
      let m' := snd (swap m) in
      fst (swap m) = true
      /\ active m' = standby m
      /\ standby m' = active m
      /\ active_route m' = SGRoute_set_current 0 (standby_route m)
      /\ standby_route m' = active_route m
      /\ pos_set m' = false
      /\ start_mode m' = start_mode m
      /\ completion_mode m' = completion_mode m
      /\ ((forall r : SGRoute,
              SGRoute_size r <> 0%Z ->
              SGRoute_get_waypoint_index (SGRoute_set_current 0 r) = 0%Z) ->
          SGRoute_get_waypoint_index (active_route m') = 0%Z)).
Proof.
  intros Hapart. unfold swap. split.
  - intros Hempty. apply Z.eqb_eq in Hempty. now rewrite Hempty.
  - intros Hsome. pose proof Hsome as Hsize. apply Z.eqb_neq in Hsome.
    rewrite Hsome. cbv zeta. cbn [fst snd].
    unfold active_route, standby_route, update_route in *.
    cbn [routes active standby pos_set start_mode completion_mode].
    assert (Hnew : load (store (routes m) (standby m)
                           (SGRoute_set_current 0 (load (routes m) (standby m))))
                     (standby m)
                   = SGRoute_set_current 0 (load (routes m) (standby m)))
      by apply load_store_same.
    assert (Hold : load (store (routes m) (standby m)
                           (SGRoute_set_current 0 (load (routes m) (standby m))))
                     (active m)
                   = load (routes m) (active m))
      by (apply load_store_other; unfold distinct_routes in Hapart; congruence).
    rewrite Hnew, Hold. repeat split.
    intros Hlaw. apply Hlaw. exact Hsize.
Qed.

End RouteManager.

Section RouteSamples.
Import Sample.

(** C10 on a manager with a three-point standby route, and on one with
    an empty standby route. *)
Lemma swap_all_or_nothing_witness :
  FGRouteMgr.swap manager_no_standby = (false, manager_no_standby)
  /\ fst (FGRouteMgr.swap manager) = true
  /\ FGRouteMgr.active_route (snd (FGRouteMgr.swap manager))
     = {| waypoints := [JNumber 3; JNumber 4; JNumber 5]; current_wp := 0 |}
  /\ FGRouteMgr.standby_route (snd (FGRouteMgr.swap manager))
     = {| waypoints := [JNumber 1; JNumber 2]; current_wp := 1 |}
  /\ FGRouteMgr.pos_set (snd (FGRouteMgr.swap manager)) = false.
Proof.
  assert (Hd0 : FGRouteMgr.distinct_routes manager_no_standby)
    by (unfold FGRouteMgr.distinct_routes; simpl; discriminate).
  assert (Hd1 : FGRouteMgr.distinct_routes manager)
    by (unfold FGRouteMgr.distinct_routes; simpl; discriminate).
  destruct (@swap_all_or_nothing route_env manager_no_standby Hd0) as [Hfail _].
  destruct (@swap_all_or_nothing route_env manager Hd1) as [_ Hswap].
  split; [apply Hfail; reflexivity|].
  destruct Hswap as (Hret & _ & _ & Hact & Hstb & Hpos & _);
    [vm_compute; discriminate|].
  split; [exact Hret|]. split; [exact Hact|]. split; [exact Hstb|exact Hpos].
Defined.

End RouteSamples.

(* ===================================================================== *)
(** * Part VI.  More of the control loop                                  *)
(* ===================================================================== *)

Section ControlLevelsFacts.
Context {W : Type} `{Collaborators W}.

(** The loop has one outcome. *)
Lemma for_levels_unique (i : N) (w w1 : W) (l1 : list Call.t) :
  for_levels i w w1 l1 ->
  forall w2 l2, for_levels i w w2 l2 -> w1 = w2 /\ l1 = l2.
Proof.
  induction 1 as [i w Hi|i w w1 l1 Hi _ IH]; intros w2 l2 H2;
    inversion H2; subst; try congruence.
  - split; reflexivity.
  - match goal with Hr : for_levels _ _ w2 _ |- _ =>
      destruct (IH _ _ Hr) as [-> ->] end.
    split; reflexivity.
Qed.

(** Rounds run by [control_rounds] are rounds of the loop: what the loop
    does from where they stop, it does from where they started. *)
Lemma control_rounds_for_levels (d : nat) (i : N) (w : W) (l : list Call.t) :
  match control_rounds d (i, w, l) with
  | inl (i1, w1, l1) =>
      exists l2, l1 = l ++ l2
                 /\ forall w' l3, for_levels i1 w1 w' l3 ->
                                  for_levels i w w' (l2 ++ l3)
  | inr (w', l') => exists l2, l' = l ++ l2 /\ for_levels i w w' l2
  end.
Proof.
  revert i w l. induction d as [|d IH]; intros i w l.
  - cbn [control_rounds control_round].
    destruct (i <? size_t (Control_ActiveControlLevels w))%N eqn:Hi.
    + exists [Call.ActiveControlLevels; Call.ControlRun i]. split; [reflexivity|].
      intros w' l3 H3. cbn [app]. now apply for_levels_round.
    + exists [Call.ActiveControlLevels]. split; [reflexivity|].
      now apply for_levels_exit.
  - cbn [control_rounds]. pose proof (IH i w l) as H1.
    destruct (control_rounds d (i, w, l)) as [[[i1 w1] l1]|[w1 l1]]; [|exact H1].
    destruct H1 as (l2 & -> & Hgo).
    pose proof (IH i1 w1 (l ++ l2)) as H2.
    destruct (control_rounds d (i1, w1, l ++ l2)) as [[[i2 w2] l2']|[w2 l2']].
    + destruct H2 as (l3 & -> & Hgo2). exists (l2 ++ l3).
      split; [now rewrite app_assoc|].
      intros w' l4 H4. rewrite <- app_assoc. apply Hgo, Hgo2, H4.
    + destruct H2 as (l3 & -> & Hfin). exists (l2 ++ l3).
      split; [now rewrite app_assoc|]. apply Hgo, Hfin.
Qed.

(** The loop function is the loop: it ends, by a failed test, having made
    the calls of the rounds in order. *)
#[local] Transparent run_control_levels.

Lemma run_control_levels_for_levels (w : W) :
  for_levels 0 w (fst (run_control_levels w)) (snd (run_control_levels w)).
Proof.
  unfold run_control_levels.
  pose proof (control_rounds_for_levels 32 0%N w []) as Hm.
  pose proof (control_rounds_index 32 0%N w []) as Hi.
  destruct (control_rounds 32 (0%N, w, [])) as [[[i' w'] l']|[w' l']].
  - exfalso. destruct (Hi _ _ _ eq_refl) as [-> Hb].
    revert Hb. apply N.le_ngt. simpl. lia.
  - destruct Hm as (l2 & Hl & Hfor). cbn [app] in Hl. subst l2. exact Hfor.
Qed.

#[global] Opaque run_control_levels.

(** A loop started at a [size_t] index runs fewer levels than there are
    indices above it. *)
Lemma for_levels_bound (i : N) (w w' : W) (l : list Call.t) :
  for_levels i w w' l ->
  (N.of_nat (count_calls is_ControlRun l) <= SIZE_MAX - i)%N.
Proof.
  induction 1 as [i w Hi|i w w' l Hi _ IH].
  - cbn. lia.
  - apply N.ltb_lt in Hi.
    assert (size_t (Control_ActiveControlLevels w) < 2 ^ 32)%N
      by (apply N.mod_lt; discriminate).
    assert (Hs : size_t (i + 1) = (i + 1)%N) by (apply N.mod_small; lia).
    rewrite Hs in IH.
    rewrite !count_calls_cons. cbn [is_ControlRun Nat.add].
    unfold SIZE_MAX in *. lia.
Qed.

End ControlLevelsFacts.

Section ControlLevelsExtras.
Context {W : Type} `{Collaborators W}.

(** X1.  The loop over the control levels always terminates, whatever
    [Control.Run] does to the number of active levels: the function that
    runs it yields the outcome of the loop started at index 0, its last
    call is the test that fails, and it calls [Control.Run] fewer than
    [2 ^ 32] times. *)
Theorem control_loop_terminates (w : W) :
  for_levels 0 w (fst (run_control_levels w)) (snd (run_control_levels w))
  /\ (exists l, snd (run_control_levels w) = l ++ [Call.ActiveControlLevels])
  /\ (N.of_nat (count_calls is_ControlRun (snd (run_control_levels w))) < 2 ^ 32)%N.
Proof.
  pose proof (run_control_levels_for_levels w) as Hfor.
  destruct (run_control_levels w) as [w' l]. cbn [fst snd] in *.
  split; [exact Hfor|]. split.
  - clear -Hfor. induction Hfor as [i w Hi|i w w' l Hi _ [l0 ->]].
    + now exists [].
    + now exists (Call.ActiveControlLevels :: Call.ControlRun i :: l0).
  - apply for_levels_bound in Hfor. unfold SIZE_MAX in Hfor. lia.
Qed.

(** With a bound that [Control.Run] leaves alone, the loop from index [k]
    runs the levels [k] to [n - 1] in order. *)
Lemma for_levels_stable (w0 : W) :
  (forall i w, Control_ActiveControlLevels (Control_Run i w)
               = Control_ActiveControlLevels w) ->
  let n := N.to_nat (size_t (Control_ActiveControlLevels w0)) in
  forall m k w,
    k + m = n ->
    Control_ActiveControlLevels w = Control_ActiveControlLevels w0 ->
    for_levels (N.of_nat k) w
      (fold_left (fun w' i => Control_Run (N.of_nat i) w') (seq k m) w)
      (flat_map (fun i => [Call.ActiveControlLevels; Call.ControlRun (N.of_nat i)])
         (seq k m)
       ++ [Call.ActiveControlLevels]).
Proof.
  intros Hst n.
  assert (Hn : N.of_nat n = size_t (Control_ActiveControlLevels w0))
    by (unfold n; apply Nnat.N2Nat.id).
  assert (Hb : (size_t (Control_ActiveControlLevels w0) < 2 ^ 32)%N)
    by (apply N.mod_lt; discriminate).
  induction m as [|m IH]; intros k w Hk Hw.
  - cbn [seq fold_left flat_map app]. apply for_levels_exit.
    rewrite Hw, <- Hn. apply N.ltb_ge. lia.
  - cbn [seq fold_left flat_map app]. apply for_levels_round.
    + rewrite Hw, <- Hn. apply N.ltb_lt. lia.
    + assert (Hs : size_t (N.of_nat k + 1) = N.of_nat (S k)).
      { unfold size_t. rewrite N.mod_small; lia. }
      rewrite Hs. apply IH; [lia|]. now rewrite Hst.
Qed.

(** X2.  When running a level does not change the number of active
    levels [n], the loop runs every level once, in the order of the
    indices 0 to [n - 1], asking for the bound before each and once more
    at the end. *)
Theorem control_levels_in_order (w : W) :
  (forall i w', Control_ActiveControlLevels (Control_Run i w')
                = Control_ActiveControlLevels w') ->
  let n := N.to_nat (size_t (Control_ActiveControlLevels w)) in
  fst (run_control_levels w) = run_levels n w
  /\ snd (run_control_levels w) = level_calls n
  /\ filter is_ControlRun (snd (run_control_levels w))
     = map (fun i => Call.ControlRun (N.of_nat i)) (seq 0 n).
Proof.
  intros Hst n.
  pose proof (run_control_levels_for_levels w) as Hfor.
  destruct (run_control_levels w) as [w' l]. cbn [fst snd] in *.
  pose proof (for_levels_stable w Hst n 0 w eq_refl eq_refl) as Hst'.
  destruct (for_levels_unique Hfor Hst') as [-> ->].
  split; [reflexivity|]. split; [reflexivity|].
  rewrite filter_app. cbn [filter is_ControlRun]. rewrite app_nil_r.
  generalize 0 at 1 2. clear. induction n as [|n IH]; intros k; [reflexivity|].
  cbn [seq flat_map map app filter is_ControlRun]. now rewrite IH.
Qed.

End ControlLevelsExtras.

Ltac list_calls :=
  cbn [app andb Mode_eqb State_eqb];
  repeat first
    [ progress cbn [app before after_first filter count_calls length Nat.add
                    is_SendSensorData is_ControlRun Call.is_SetCommands
                    Call.is_ComputeOutputs Call.is_CommandEffectors]
    | rewrite <- app_assoc
    | rewrite before_app by apart
    | rewrite after_first_app by apart
    | rewrite filter_app
    | rewrite filter_none by apart ].

Section RoundExtras.
Context {W : Type} `{Collaborators W}.

(** *** What the mailbox accessors leave of the globals *)

Lemma globals_after_ReceiveConfigMessage (s : Main W) :
  MissionMode (after ReceiveConfigMessage s) = MissionMode s
  /\ MissionState (after ReceiveConfigMessage s) = MissionState s
  /\ RequestedMode (after ReceiveConfigMessage s) = RequestedMode s
  /\ EffectorCommands (after ReceiveConfigMessage s) = EffectorCommands s.
Proof.
  unfold after, ReceiveConfigMessage.
  destruct (SocComms_ReceiveConfigMessage _ _) as [[ok v] w]. repeat split.
Qed.

Lemma globals_after_ReceiveModeCommand (s : Main W) :
  MissionMode (after ReceiveModeCommand s) = MissionMode s
  /\ MissionState (after ReceiveModeCommand s) = MissionState s
  /\ EffectorCommands (after ReceiveModeCommand s) = EffectorCommands s.
Proof.
  unfold after, ReceiveModeCommand.
  destruct (SocComms_ReceiveModeCommand _ _) as [[ok v] w]. repeat split.
Qed.

Lemma globals_after_Configuration_block (s : Main W) :
  MissionMode (after Configuration_block s) = MissionMode s
  /\ MissionState (after Configuration_block s) = MissionState s
  /\ RequestedMode (after Configuration_block s) = RequestedMode s
  /\ EffectorCommands (after Configuration_block s) = EffectorCommands s.
Proof.
  destruct (globals_after_ReceiveConfigMessage s) as (Hm & Hs & Hr & He).
  unfold Configuration_block. autorewrite with prog.
  destruct (fst (result ReceiveConfigMessage s));
    cbn [set_world MissionMode MissionState RequestedMode EffectorCommands];
    repeat split; assumption.
Qed.

Lemma globals_after_request_mode (s : Main W) :
  MissionMode (after request_mode s) = MissionMode s
  /\ MissionState (after request_mode s) = MissionState s
  /\ EffectorCommands (after request_mode s) = EffectorCommands s.
Proof.
  destruct (globals_after_ReceiveModeCommand s) as (Hm & Hs & He).
  unfold request_mode. autorewrite with prog.
  destruct (result ReceiveModeCommand s);
    cbn [set_world MissionMode MissionState RequestedMode EffectorCommands];
    repeat split; assumption.
Qed.

(** X3.  A round with [Mode == Configuration] is frozen flight: its calls
    are [UpdateMode], [GetMode], [ReceiveConfigMessage], [Config.Update] if
    a configuration was received, [ReceiveModeCommand],
    [SetRequestedMode] if a mode command was received, and
    [CheckMessages]; no state is evaluated and no sensor, control-law or
    effector method is called; and the globals [MissionState] and
    [EffectorCommands] of main.cpp are as they were. *)
Theorem configuration_round_frozen (s : Main W) :
  mode_of_round s = Configuration ->
  let r := result ReceiveConfigMessage (mode_read s) in
  calls loop_body s
  = [Call.UpdateMode; Call.GetMode; Call.ReceiveConfigMessage]
      ++ (if fst r then [Call.ConfigUpdate (snd r)] else [])
      ++ Call.ReceiveModeCommand
      :: (if result ReceiveModeCommand (mode_done s)
          then [Call.SetRequestedMode
                  (RequestedMode (after ReceiveModeCommand (mode_done s)))]
          else [])
      ++ [Call.CheckMessages]
  /\ MissionMode (after loop_body s) = Configuration
  /\ MissionState (after loop_body s) = MissionState s
  /\ EffectorCommands (after loop_body s) = EffectorCommands s.
Proof.
  intros Hmode r.
  destruct (calls_loop_body_Configuration s Hmode) as [Hc Hd].
  split.
  - rewrite Hc, calls_Configuration_block, calls_request_mode. fold r.
    destruct (fst r); reflexivity.
  - rewrite after_loop_body.
    cbn [set_world MissionMode MissionState EffectorCommands].
    destruct (globals_after_request_mode (mode_done s)) as (-> & -> & ->).
    rewrite Hd.
    destruct (globals_after_Configuration_block (mode_read s))
      as (-> & -> & _ & ->).
    repeat split. exact Hmode.
Qed.

(** X4.  Sensor data are sent to the SOC exactly once in a [Run] round
    whose state is [SyncDataCollection], and in no other round; what
    precedes the sending in that round is the update of mode and state,
    the clearing of the IMU flag, the reading of the synchronous sensors
    and the fetching of the buffer, in this order; and the buffer sent is
    the one fetched after that reading. *)
Theorem sensor_data_sent_after_sync_read (s : Main W) :
  let sync := Mode_eqb (mode_of_round s) Run
              && State_eqb (state_of_round s) SyncDataCollection in
  let buffer :=
    Sensors_GetDataBuffer
      (Sensors_ReadSyncSensors
         (Mission_ClearImuDataReady
            (Mission_UpdateState (Mission_UpdateMode (world s))))) in
  filter is_SendSensorData (calls loop_body s)
  = (if sync then [Call.SendSensorData buffer] else [])
  /\ before is_SendSensorData (calls loop_body s)
     = (if sync
        then [Call.UpdateMode; Call.GetMode; Call.UpdateState; Call.GetState;
              Call.ClearImuDataReady; Call.ReadSyncSensors; Call.GetDataBuffer]
        else calls loop_body s).
Proof.
  cbv zeta. split.
  - round_cases s; list_calls; reflexivity.
  - round_cases s; list_calls; reflexivity.
Qed.

(** X5.  Commands of the SOC are applied last.  [Effectors.SetCommands]
    is called at most once in a round: in a [Run] round in which
    [ReceiveEffectorCommand] returned true and [UseSocEffectorComands]
    returned true, with the commands the accessor wrote and the
    throttle-safed value read then.  Within the round it comes after the
    block of the state, and no call of [ComputeOutputs] or
    [CommandEffectors] follows it. *)
Theorem soc_commands_applied_last (s : Main W) :
  let l := calls loop_body s in
  let s1 := after ReceiveEffectorCommand (blocks_done s) in
  filter Call.is_SetCommands l
  = (if Mode_eqb (mode_of_round s) Run
        && result ReceiveEffectorCommand (blocks_done s)
        && Mission_UseSocEffectorComands (world s1)
     then [Call.SetCommands (EffectorCommands s1) (Mission_ThrottleSafed (world s1))]
     else [])
  /\ count_calls Call.is_ComputeOutputs (after_first Call.is_SetCommands l) = 0
  /\ count_calls Call.is_CommandEffectors (after_first Call.is_SetCommands l) = 0
  /\ count_calls Call.is_SetCommands (after_first Call.is_SetCommands l) = 0.
Proof.
  cbv zeta. split; [exact (filter_SetCommands s)|].
  repeat split; round_cases s; list_calls; reflexivity.
Qed.

End RoundExtras.

Section FlightControlExtras.
Context {W : Type} `{Collaborators W}.

(** X15.  The effector outputs are computed from the control laws of the
    same round.  [Control.Run] is called only in a [Run] round whose state
    is [FlightControl]; in such a round [Effectors.ComputeOutputs] is
    called once, after the last control level has run, with the
    throttle-safed value read then; and no control level runs after it. *)
Theorem outputs_computed_after_control_laws (s : Main W) :
  let l := calls loop_body s in
  let fc := Mode_eqb (mode_of_round s) Run
            && State_eqb (state_of_round s) FlightControl in
  let w0 := Mission_ClearFlightControlFlag (world (state_read s)) in
  filter is_ControlRun l
  = (if fc then filter is_ControlRun (snd (run_control_levels w0)) else [])
  /\ filter Call.is_ComputeOutputs l
     = (if fc
        then [Call.ComputeOutputs (Mission_ThrottleSafed (fst (run_control_levels w0)))]
        else [])
  /\ filter is_ControlRun (after_first Call.is_ComputeOutputs l) = [].
Proof.
  cbv zeta.
  destruct (mode_of_round s) eqn:Hmode.
  - destruct (calls_loop_body_Configuration s Hmode) as [-> _].
    rewrite calls_Configuration_block, calls_request_mode.
    cbn [Mode_eqb andb].
    repeat match goal with |- context [if ?b then _ else _] => destruct b end;
      repeat split.
  - destruct (calls_loop_body_Run s Hmode) as [-> _].
    rewrite calls_handler, calls_soc_effector_commands, calls_request_mode.
    cbn [Mode_eqb andb].
    pose proof (run_control_levels_calls
                  (Mission_ClearFlightControlFlag (world (state_read s)))) as Hl.
    destruct (run_control_levels
                (Mission_ClearFlightControlFlag (world (state_read s)))) as [w1 lv].
    cbn [fst snd] in *.
    generalize (blocks_done s) (mode_done s). intros b d.
    destruct (state_of_round s); cbn [State_eqb];
      repeat match goal with |- context [if ?b then _ else _] => destruct b end;
      (split; [|split]); list_calls; rewrite ?app_nil_r; reflexivity.
Qed.

End FlightControlExtras.

(* ===================================================================== *)
(** * Part VII.  More of the route manager                                *)
(* ===================================================================== *)

Section RouteHeap.
Import FGRouteMgr.
Context `{RouteEnv}.

Lemma active_route_update_active (f : SGRoute -> SGRoute) (m : t) :
  active_route (update_route (active m) f m) = f (active_route m).
Proof. unfold active_route, update_route. cbn. apply load_store_same. Qed.

Lemma standby_route_update_standby (f : SGRoute -> SGRoute) (m : t) :
  standby_route (update_route (standby m) f m) = f (standby_route m).
Proof. unfold standby_route, update_route. cbn. apply load_store_same. Qed.

Lemma standby_route_update_active (f : SGRoute -> SGRoute) (m : t) :
  distinct_routes m ->
  standby_route (update_route (active m) f m) = standby_route m.
Proof.
  intros Hd. unfold standby_route, update_route. cbn.
  apply load_store_other. exact Hd.
Qed.

Lemma active_route_update_standby (f : SGRoute -> SGRoute) (m : t) :
  distinct_routes m ->
  active_route (update_route (standby m) f m) = active_route m.
Proof.
  intros Hd. unfold active_route, update_route. cbn.
  apply load_store_other. unfold distinct_routes in Hd. congruence.
Qed.

Lemma update_route_distinct (p : ptr) (f : SGRoute -> SGRoute) (m : t) :
  distinct_routes m -> distinct_routes (update_route p f m).
Proof. intros Hd. exact Hd. Qed.

(** [swap] with an empty and with a non-empty standby route. *)
Lemma swap_empty (m : t) :
  SGRoute_size (standby_route m) = 0%Z -> swap m = (false, m).
Proof. intros Hs. unfold swap. apply Z.eqb_eq in Hs. now rewrite Hs. Qed.

Lemma swap_loaded (m : t) :
  distinct_routes m ->
  SGRoute_size (standby_route m) <> 0%Z ->
  fst (swap m) = true
  /\ active (snd (swap m)) = standby m
  /\ standby (snd (swap m)) = active m
  /\ active_route (snd (swap m)) = SGRoute_set_current 0 (standby_route m)
  /\ standby_route (snd (swap m)) = active_route m
  /\ pos_set (snd (swap m)) = false
  /\ start_mode (snd (swap m)) = start_mode m
  /\ completion_mode (snd (swap m)) = completion_mode m.
Proof.
  intros Hd Hs. unfold swap. apply Z.eqb_neq in Hs. rewrite Hs.
  cbv zeta. cbn [fst snd].
  unfold active_route, standby_route, update_route.
  cbn [routes active standby pos_set start_mode completion_mode].
  rewrite load_store_same.
  rewrite load_store_other by (unfold distinct_routes in Hd; congruence).
  repeat split.
Qed.

(** The loop of [build] over the values listed. *)
Lemma build_loop (vs : list Value) (m : t) :
  distinct_routes m ->
  let m' := fold_left
              (fun acc it =>
                 update_route (standby acc)
                   (SGRoute_add_waypoint (SGWayPoint_of_Value it)) acc) vs m in
  standby_route m' = FGRouteNav.add_all vs (standby_route m)
  /\ active_route m' = active_route m
  /\ active m' = active m /\ standby m' = standby m
  /\ pos_set m' = pos_set m
  /\ start_mode m' = start_mode m /\ completion_mode m' = completion_mode m.
Proof.
  revert m. induction vs as [|v vs IH]; intros m Hd; cbn [fold_left].
  - repeat split.
  - destruct (IH (update_route (standby m)
                    (SGRoute_add_waypoint (SGWayPoint_of_Value v)) m)
                (@update_route_distinct _ _ _ Hd))
      as (Hs & Ha & Hpa & Hps & Hpos & Hsm & Hcm).
    rewrite standby_route_update_standby in Hs.
    rewrite active_route_update_standby in Ha by exact Hd.
    cbv zeta. unfold FGRouteNav.add_all in *. cbn [fold_left].
    repeat split; assumption.
Qed.

Lemma build_state (Config : Value) (m : t) :
  snd (fst (build Config m))
  = fold_left
      (fun acc it =>
         update_route (standby acc)
           (SGRoute_add_waypoint (SGWayPoint_of_Value it)) acc)
      (FGRouteNav.listed Config)
      (update_route (standby m) SGRoute_clear m).
Proof.
  unfold build, FGRouteNav.listed. cbn [fst snd].
  destruct (HasMember Config "waypoints"); reflexivity.
Qed.

Lemma build_fills_standby_aux (Config : Value) (m : t) :
  distinct_routes m ->
  standby_route (snd (fst (build Config m)))
  = FGRouteNav.add_all (FGRouteNav.listed Config) (SGRoute_clear (standby_route m))
  /\ active_route (snd (fst (build Config m))) = active_route m
  /\ active (snd (fst (build Config m))) = active m
  /\ standby (snd (fst (build Config m))) = standby m
  /\ pos_set (snd (fst (build Config m))) = pos_set m
  /\ start_mode (snd (fst (build Config m))) = start_mode m
  /\ completion_mode (snd (fst (build Config m))) = completion_mode m.
Proof.
  intros Hd. rewrite build_state.
  destruct (@build_loop (FGRouteNav.listed Config)
              (update_route (standby m) SGRoute_clear m)
              (@update_route_distinct _ _ _ Hd))
    as (Hs & Ha & Hpa & Hps & Hpos & Hsm & Hcm).
  cbv zeta in *.
  rewrite standby_route_update_standby in Hs.
  rewrite active_route_update_standby in Ha by exact Hd.
  repeat split; assumption.
Qed.

(** X6.  [build] replaces the standby route and nothing else: when it
    returns, the standby route is the old one cleared with the waypoints
    of the configuration's ["waypoints"] member added in the order
    listed, or just cleared when the configuration has no such member;
    the active route, the two pointers, [pos_set] and the modes are as
    before. *)
Theorem build_fills_standby (Config : Value) (m : t) :
  distinct_routes m ->
  let m' := snd (fst (build Config m)) in
  standby_route m'
  = FGRouteNav.add_all (FGRouteNav.listed Config) (SGRoute_clear (standby_route m))
  /\ (HasMember Config "waypoints" = false ->
      standby_route m' = SGRoute_clear (standby_route m))
  /\ active_route m' = active_route m
  /\ active m' = active m /\ standby m' = standby m
  /\ pos_set m' = pos_set m
  /\ start_mode m' = start_mode m /\ completion_mode m' = completion_mode m.
Proof.
  intros Hd m'. subst m'.
  destruct (@build_fills_standby_aux Config m Hd)
    as (Hs & Ha & Hpa & Hps & Hpos & Hsm & Hcm).
  split; [exact Hs|]. split.
  - intros Hno. rewrite Hs. unfold FGRouteNav.listed. now rewrite Hno.
  - repeat split; assumption.
Qed.

(** The size of a route built from a cleared one, for a route class that
    counts its waypoints. *)
Lemma add_all_size (vs : list Value) (r : SGRoute) :
  (forall wp r', SGRoute_size (SGRoute_add_waypoint wp r') = (SGRoute_size r' + 1)%Z) ->
  SGRoute_size (FGRouteNav.add_all vs r) = (SGRoute_size r + Z.of_nat (length vs))%Z.
Proof.
  intros Hadd. unfold FGRouteNav.add_all. revert r.
  induction vs as [|v vs IH]; intros r; cbn [fold_left length].
  - lia.
  - rewrite IH, Hadd. lia.
Qed.

(** X7.  [init] installs the route of the configuration, or none.  For a
    route class that counts its waypoints ([clear] leaves none, each
    [add_waypoint] adds one): if the configuration lists no waypoint, or
    has no ["waypoints"] member, [init] returns with both routes cleared,
    the pointers where they were and [pos_set] as before, the swap having
    failed unnoticed; otherwise it returns with the pointers exchanged,
    the route built from the list active at [set_current(0)], the former
    active route cleared on standby, and [pos_set] false. *)
Theorem init_installs_route (Config : Value) (m : t) :
  distinct_routes m ->
  (forall r, SGRoute_size (SGRoute_clear r) = 0%Z) ->
  (forall wp r, SGRoute_size (SGRoute_add_waypoint wp r) = (SGRoute_size r + 1)%Z) ->
  exists m',
    fst (init Config m) = Returned m'
    /\ (FGRouteNav.listed Config = [] ->
        active m' = active m /\ standby m' = standby m
        /\ active_route m' = SGRoute_clear (active_route m)
        /\ standby_route m' = SGRoute_clear (SGRoute_clear (standby_route m))
        /\ pos_set m' = pos_set m)
    /\ (FGRouteNav.listed Config <> [] ->
        active m' = standby m /\ standby m' = active m
        /\ active_route m'
           = SGRoute_set_current 0
               (FGRouteNav.add_all (FGRouteNav.listed Config)
                  (SGRoute_clear (SGRoute_clear (standby_route m))))
        /\ standby_route m' = SGRoute_clear (active_route m)
        /\ pos_set m' = false).
Proof.
  intros Hd Hclear Hadd.
  set (m1 := update_route (active m) SGRoute_clear m).
  set (m2 := update_route (standby m1) SGRoute_clear m1).
  assert (Hd2 : distinct_routes m2) by exact Hd.
  assert (Hs2 : standby_route m2 = SGRoute_clear (standby_route m)).
  { unfold m2. rewrite standby_route_update_standby.
    unfold m1. now rewrite standby_route_update_active. }
  assert (Ha2 : active_route m2 = SGRoute_clear (active_route m)).
  { unfold m2. rewrite active_route_update_standby by exact Hd.
    unfold m1. apply active_route_update_active. }
  destruct (@build_fills_standby_aux Config m2 Hd2)
    as (Hs3 & Ha3 & Hpa & Hps & Hpos & _).
  set (m3 := snd (fst (build Config m2))) in *.
  assert (Hinit : fst (init Config m) = Returned (snd (swap m3))).
  { unfold init. fold m1. fold m2. unfold m3, build. reflexivity. }
  assert (Hd3 : distinct_routes m3)
    by (unfold distinct_routes; rewrite Hpa, Hps; exact Hd).
  assert (Hsize : SGRoute_size (standby_route m3)
                  = Z.of_nat (length (FGRouteNav.listed Config))).
  { rewrite Hs3, add_all_size by exact Hadd. rewrite Hclear. lia. }
  exists (snd (swap m3)). split; [exact Hinit|]. split.
  - intros Hnone. rewrite Hnone in Hsize, Hs3. cbn in Hsize.
    rewrite (@swap_empty m3 Hsize). cbn [snd].
    rewrite Hpa, Hps, Ha3, Ha2, Hs3, Hs2, Hpos.
    repeat split.
  - intros Hsome.
    assert (Hne : SGRoute_size (standby_route m3) <> 0%Z).
    { rewrite Hsize. destruct (FGRouteNav.listed Config); [contradiction|].
      cbn [length]. lia. }
    destruct (@swap_loaded m3 Hd3 Hne) as (_ & -> & -> & -> & -> & -> & _).
    rewrite Hpa, Hps, Ha3, Ha2, Hs3, Hs2.
    repeat split.
Qed.

End RouteHeap.

Section UpdateFacts.
Import FGRouteMgr FGRouteNav.
Context `{RouteNav}.

Lemma keeps_standby_refl (m : t) : keeps_standby m m.
Proof. repeat split. Qed.

Lemma keeps_standby_trans (m1 m2 m3 : t) :
  keeps_standby m1 m2 -> keeps_standby m2 m3 -> keeps_standby m1 m3.
Proof.
  intros (Ha & Hs & Hr & Hc) (Ha' & Hs' & Hr' & Hc').
  unfold keeps_standby. rewrite Ha', Hs', Hr', Hc'. auto.
Qed.

Lemma keeps_standby_distinct (m m' : t) :
  keeps_standby m m' -> distinct_routes m -> distinct_routes m'.
Proof.
  intros (Ha & Hs & _) Hd. unfold distinct_routes in *. congruence.
Qed.

Lemma keeps_standby_update_active (f : SGRoute -> SGRoute) (m : t) :
  distinct_routes m -> keeps_standby m (update_route (active m) f m).
Proof.
  intros Hd. unfold keeps_standby.
  rewrite (@standby_route_update_active _ f m Hd). auto.
Qed.

Lemma position_keeps (inp : Sensed) (lon lat : real) (m : t) :
  distinct_routes m -> keeps_standby m (fst (position inp lon lat m)).
Proof.
  intros Hd. unfold position.
  destruct (negb (pos_set m) && (gps_fix inp =? 1)%Z); cbn [fst].
  - exact (@keeps_standby_update_active _ m Hd).
  - apply keeps_standby_refl.
Qed.

Lemma start_up_keeps (m : t) :
  distinct_routes m -> keeps_standby m (start_up m).
Proof.
  intros Hd. unfold start_up.
  destruct (start_mode m); [apply keeps_standby_refl|].
  destruct (SGRoute_get_waypoint_index (active_route m) =? 0)%Z;
    [|apply keeps_standby_refl].
  destruct (1 <? SGRoute_size (active_route m))%Z.
  - exact (@keeps_standby_update_active _ m Hd).
  - repeat split.
Qed.

Lemma complete_leg_keeps (d : real) (m : t) :
  distinct_routes m -> keeps_standby m (complete_leg d m).
Proof.
  intros Hd. unfold complete_leg.
  pose proof (@keeps_standby_update_active (SGRoute_set_acquired true) m Hd) as H1.
  pose proof (keeps_standby_distinct H1 Hd) as Hd1.
  pose proof (@keeps_standby_update_active SGRoute_increment_current _ Hd1) as H2.
  destruct (completion_mode m); destruct (r_ltb d c_50);
    try apply keeps_standby_refl.
  - exact (keeps_standby_trans H1 H2).
  - cbv zeta.
    match goal with |- context [if ?b then _ else _] => destruct b end.
    + exact (keeps_standby_trans H1 H2).
    + exact H1.
Qed.

(** The shape of one [update]: what it does to the manager, to [count]
    and what it prints, for some distance [d] to the waypoint tracked and
    some numbers [vs] in the status line. *)
Lemma update_shape (inp : Sensed) (m : t) (nv : Nav) :
  exists (lon lat d : real) (vs : list real),
    let m1 := fst (position inp lon lat m) in
    let routed := (0 <? SGRoute_size (active_route m1))%Z in
    fst (fst (update inp m nv))
    = (if routed then complete_leg d (start_up m1) else m1)
    /\ count (snd (fst (update inp m nv)))
       = (if routed then (if (10 <? count nv)%Z then 0 else count nv + 1) else count nv)%Z
    /\ snd (update inp m nv)
       = snd (position inp lon lat m)
         ++ (if routed && (10 <? count nv)%Z
             then [say "crs:%.0f err:%.0f xtrk:%.1f dist:%.0f\n" vs] else [])
    /\ (routed = false -> snd (fst (update inp m nv)) = nv).
Proof.
  unfold update.
  set (lon := r_mul (lon_rad inp) r2d). set (lat := r_mul (lat_rad inp) r2d).
  exists lon, lat.
  destruct (position inp lon lat m) as [m1 out1]. cbn [fst snd].
  destruct (0 <? SGRoute_size (active_route m1))%Z.
  - destruct (CourseAndDistance_to _ lon lat) as [dc dd].
    destruct (CourseAndDistance_from _ _) as [lc ld].
    destruct (10 <? count nv)%Z; cbn [fst snd count andb].
    + eexists _, _. repeat split. discriminate.
    + eexists _, []. repeat split. discriminate.
  - exists c_0, []. cbn [fst snd andb]. repeat split.
Qed.

Lemma position_pos_set (inp : Sensed) (lon lat : real) (m : t) :
  pos_set (fst (position inp lon lat m)) = pos_set m || (gps_fix inp =? 1)%Z.
Proof.
  unfold position. destruct (pos_set m) eqn:Hp; cbn [negb andb orb].
  - exact Hp.
  - destruct (gps_fix inp =? 1)%Z; [reflexivity|exact Hp].
Qed.

Lemma position_start_mode (inp : Sensed) (lon lat : real) (m : t) :
  start_mode (fst (position inp lon lat m)) = start_mode m.
Proof.
  unfold position. destruct (negb (pos_set m) && (gps_fix inp =? 1)%Z); reflexivity.
Qed.

Lemma position_says (inp : Sensed) (lon lat : real) (m : t) :
  snd (position inp lon lat m)
  = if negb (pos_set m) && (gps_fix inp =? 1)%Z
    then [say "Positioning relative waypoints...\n" []] else [].
Proof.
  unfold position. destruct (negb (pos_set m) && (gps_fix inp =? 1)%Z); reflexivity.
Qed.

Lemma start_up_pos_set (m : t) : pos_set (start_up m) = pos_set m.
Proof.
  unfold start_up. destruct (start_mode m); [reflexivity|].
  destruct (_ =? 0)%Z; [|reflexivity]. destruct (1 <? _)%Z; reflexivity.
Qed.

Lemma start_up_first_wpt (m : t) :
  start_mode m = FIRST_WPT -> start_up m = m.
Proof. intros Hs. unfold start_up. now rewrite Hs. Qed.

Lemma complete_leg_pos_set (d : real) (m : t) :
  pos_set (complete_leg d m) = pos_set m.
Proof.
  unfold complete_leg. destruct (completion_mode m); destruct (r_ltb d c_50);
    try reflexivity.
  cbv zeta. match goal with |- context [if ?b then _ else _] => destruct b end;
    reflexivity.
Qed.

Lemma complete_leg_start_mode (d : real) (m : t) :
  start_mode (complete_leg d m) = start_mode m.
Proof.
  unfold complete_leg. destruct (completion_mode m); destruct (r_ltb d c_50);
    try reflexivity.
  cbv zeta. match goal with |- context [if ?b then _ else _] => destruct b end;
    reflexivity.
Qed.

Lemma update_pos_set (inp : Sensed) (m : t) (nv : Nav) :
  pos_set (fst (fst (update inp m nv))) = pos_set m || (gps_fix inp =? 1)%Z.
Proof.
  destruct (update_shape inp m nv) as (lon & lat & d & vs & Hm & _).
  cbv zeta in Hm. rewrite Hm.
  destruct (0 <? _)%Z.
  - now rewrite complete_leg_pos_set, start_up_pos_set, position_pos_set.
  - apply position_pos_set.
Qed.

(** One [update]. *)
Lemma update_keeps (inp : Sensed) (m : t) (nv : Nav) :
  distinct_routes m ->
  keeps_standby m (fst (fst (update inp m nv)))
  /\ pos_set (fst (fst (update inp m nv))) = pos_set m || (gps_fix inp =? 1)%Z
  /\ (start_mode m = FIRST_WPT -> start_mode (fst (fst (update inp m nv))) = FIRST_WPT).
Proof.
  intros Hd.
  destruct (update_shape inp m nv) as (lon & lat & d & vs & Hm & _).
  cbv zeta in Hm. rewrite Hm.
  pose proof (@position_keeps inp lon lat m Hd) as H1.
  pose proof (keeps_standby_distinct H1 Hd) as Hd1.
  pose proof (@start_up_keeps _ Hd1) as H2.
  pose proof (keeps_standby_distinct H2 Hd1) as Hd2.
  pose proof (@complete_leg_keeps d _ Hd2) as H3.
  destruct (0 <? _)%Z.
  - split; [exact (keeps_standby_trans H1 (keeps_standby_trans H2 H3))|].
    rewrite complete_leg_pos_set, start_up_pos_set, position_pos_set.
    rewrite complete_leg_start_mode.
    split; [reflexivity|]. intros Hs.
    rewrite start_up_first_wpt; rewrite position_start_mode; exact Hs.
  - split; [exact H1|]. rewrite position_pos_set, position_start_mode. auto.
Qed.

Lemma updates_cons (inp : Sensed) (rest : list Sensed) (m : t) (nv : Nav) :
  fst (updates (inp :: rest) m nv)
  = fst (updates rest (fst (fst (update inp m nv))) (snd (fst (update inp m nv))))
  /\ snd (updates (inp :: rest) m nv)
     = snd (update inp m nv)
       ++ snd (updates rest (fst (fst (update inp m nv))) (snd (fst (update inp m nv)))).
Proof.
  cbn [updates]. destruct (update inp m nv) as [[m1 nv1] out1]. cbn [fst snd].
  destruct (updates rest m1 nv1) as [[m2 nv2] out2]. split; reflexivity.
Qed.

(** X8.  However often [update] is called, it leaves the two route
    pointers, the standby route and the completion mode as they are: it
    works on the active route only.  [pos_set] is true afterwards exactly
    when it was true before or one of the calls saw a GPS fix of 1, and a
    start mode of [FIRST_WPT] stays. *)
Theorem update_works_on_active_route (inputs : list Sensed) (m : t) (nv : Nav) :
  distinct_routes m ->
  let m' := fst (fst (updates inputs m nv)) in
  keeps_standby m m'
  /\ pos_set m' = pos_set m || existsb (fun inp => (gps_fix inp =? 1)%Z) inputs
  /\ (start_mode m = FIRST_WPT -> start_mode m' = FIRST_WPT).
Proof.
  cbv zeta. revert m nv. induction inputs as [|inp rest IH]; intros m nv Hd.
  - cbn [updates fst existsb]. rewrite orb_false_r.
    split; [apply keeps_standby_refl|]. auto.
  - destruct (updates_cons inp rest m nv) as [-> _].
    destruct (@update_keeps inp m nv Hd) as (Hk & Hp & Hs).
    destruct (IH _ (snd (fst (update inp m nv))) (keeps_standby_distinct Hk Hd))
      as (Hk' & Hp' & Hs').
    split; [exact (keeps_standby_trans Hk Hk')|].
    split; [|auto].
    rewrite Hp', Hp. cbn [existsb]. now rewrite orb_assoc.
Qed.

Lemma filter_positioning_update (inp : Sensed) (m : t) (nv : Nav) :
  filter is_positioning (snd (update inp m nv))
  = if negb (pos_set m) && (gps_fix inp =? 1)%Z
    then [say "Positioning relative waypoints...\n" []] else [].
Proof.
  destruct (update_shape inp m nv) as (lon & lat & d & vs & _ & _ & Hout & _).
  cbv zeta in Hout. rewrite Hout, filter_app, position_says.
  destruct (negb (pos_set m) && (gps_fix inp =? 1)%Z);
    match goal with |- context [if ?b then [say _ vs] else []] => destruct b end;
    reflexivity.
Qed.

(** What the calls of [update] say about positioning, all together. *)
Lemma positioning_said (inputs : list Sensed) (m : t) (nv : Nav) :
  filter is_positioning (snd (updates inputs m nv))
  = if negb (pos_set m) && existsb (fun inp => (gps_fix inp =? 1)%Z) inputs
    then [say "Positioning relative waypoints...\n" []] else [].
Proof.
  revert m nv. induction inputs as [|inp rest IH]; intros m nv.
  - cbn [updates snd existsb filter]. now rewrite andb_false_r.
  - destruct (updates_cons inp rest m nv) as [_ ->].
    rewrite filter_app, filter_positioning_update, IH, update_pos_set.
    cbn [existsb].
    destruct (pos_set m), (gps_fix inp =? 1)%Z; cbn [negb andb orb app];
      reflexivity.
Qed.

(** X9.  The waypoints are positioned once: over any sequence of calls
    of [update], ["Positioning relative waypoints..."] is printed exactly
    once if [pos_set] is false at the start and some call sees a GPS fix
    of 1, and not at all otherwise. *)
Theorem positioned_once (inputs : list Sensed) (m : t) (nv : Nav) :
  length (filter is_positioning (snd (updates inputs m nv)))
  = if negb (pos_set m) && existsb (fun inp => (gps_fix inp =? 1)%Z) inputs
    then 1 else 0.
Proof.
  rewrite positioning_said.
  destruct (negb (pos_set m) && existsb (fun inp => (gps_fix inp =? 1)%Z) inputs);
    reflexivity.
Qed.

(** X10.  With no route to follow nothing happens: when the active route
    is empty and the position is set, any number of calls of [update]
    leaves the manager and the navigation outputs as they are and prints
    nothing. *)
Theorem update_without_route (inputs : list Sensed) (m : t) (nv : Nav) :
  (SGRoute_size (active_route m) <= 0)%Z ->
  pos_set m = true ->
  updates inputs m nv = (m, nv, []).
Proof.
  intros Hsize Hpos. induction inputs as [|inp rest IH]; [reflexivity|].
  assert (Hu : update inp m nv = (m, nv, [])).
  { unfold update, position. rewrite Hpos. cbn [negb andb].
    apply Z.ltb_ge in Hsize. now rewrite Hsize. }
  cbn [updates]. rewrite Hu, IH. reflexivity.
Qed.

End UpdateFacts.

Section UpdateCadence.
Import FGRouteMgr FGRouteNav.
Context `{RouteNav}.

(** The route class keeps its waypoints when [update] repositions them,
    moves on to the next one or marks one acquired. *)
Hypothesis size_refresh : forall wp z r,
  SGRoute_size (SGRoute_refresh_offset_positions wp z r) = SGRoute_size r.
Hypothesis size_increment : forall r,
  SGRoute_size (SGRoute_increment_current r) = SGRoute_size r.
Hypothesis size_acquired : forall b r,
  SGRoute_size (SGRoute_set_acquired b r) = SGRoute_size r.

Lemma position_size (inp : Sensed) (lon lat : real) (m : t) :
  SGRoute_size (active_route (fst (position inp lon lat m)))
  = SGRoute_size (active_route m).
Proof.
  unfold position. destruct (negb (pos_set m) && (gps_fix inp =? 1)%Z); cbn [fst].
  - unfold active_route, set_pos_set, update_route. cbn [routes active].
    now rewrite load_store_same, size_refresh.
  - reflexivity.
Qed.

Lemma start_up_size (m : t) :
  SGRoute_size (active_route (start_up m)) = SGRoute_size (active_route m).
Proof.
  unfold start_up. destruct (start_mode m); [reflexivity|].
  destruct (_ =? 0)%Z; [|reflexivity]. destruct (1 <? _)%Z; [|reflexivity].
  rewrite active_route_update_active. apply size_increment.
Qed.

Lemma complete_leg_size (d : real) (m : t) :
  SGRoute_size (active_route (complete_leg d m)) = SGRoute_size (active_route m).
Proof.
  assert (H1 : forall f m0, SGRoute_size (f (active_route m0)) = SGRoute_size (active_route m0) ->
               SGRoute_size (active_route (update_route (active m0) f m0))
               = SGRoute_size (active_route m0)).
  { intros f m0 Hf. now rewrite active_route_update_active. }
  unfold complete_leg. destruct (completion_mode m); destruct (r_ltb d c_50);
    try reflexivity.
  - change (active m) with (active (update_route (active m) (SGRoute_set_acquired true) m)) at 1.
    rewrite H1 by apply size_increment. apply H1, size_acquired.
  - cbv zeta. match goal with |- context [if ?b then _ else _] => destruct b end.
    + rewrite H1 by apply size_increment. apply H1, size_acquired.
    + apply H1, size_acquired.
Qed.

Lemma update_size (inp : Sensed) (m : t) (nv : Nav) :
  SGRoute_size (active_route (fst (fst (update inp m nv))))
  = SGRoute_size (active_route m).
Proof.
  destruct (update_shape inp m nv) as (lon & lat & d & vs & Hm & _).
  cbv zeta in Hm. rewrite Hm.
  destruct (0 <? _)%Z.
  - now rewrite complete_leg_size, start_up_size, position_size.
  - apply position_size.
Qed.

Lemma update_count (inp : Sensed) (m : t) (nv : Nav) :
  (0 < SGRoute_size (active_route m))%Z ->
  count (snd (fst (update inp m nv)))
  = (if (10 <? count nv)%Z then 0 else count nv + 1)%Z
  /\ length (filter is_status (snd (update inp m nv)))
     = if (10 <? count nv)%Z then 1 else 0.
Proof.
  intros Hsize.
  destruct (update_shape inp m nv) as (lon & lat & d & vs & _ & Hc & Hout & _).
  cbv zeta in Hc, Hout. rewrite position_size in Hc, Hout.
  apply Z.ltb_lt in Hsize. rewrite Hsize in Hc, Hout. cbn [andb] in Hout.
  split; [exact Hc|].
  rewrite Hout, filter_app, length_app, position_says.
  destruct (negb (pos_set m) && (gps_fix inp =? 1)%Z); destruct (10 <? count nv)%Z;
    reflexivity.
Qed.

(** X11.  On a route with waypoints the status line
    ["crs:... err:... xtrk:... dist:..."] is printed by every twelfth
    call of [update]: [count] runs from 0 to 11, the call that finds it
    at 11 prints and resets it.  After [n] calls from a count [c] between
    0 and 11 the count is [(c + n) mod 12] and [(c + n) / 12] lines have
    been printed. *)
Theorem status_every_twelfth (inputs : list Sensed) (m : t) (nv : Nav) :
  (0 < SGRoute_size (active_route m))%Z ->
  (0 <= count nv <= 11)%Z ->
  count (snd (fst (updates inputs m nv)))
  = ((count nv + Z.of_nat (length inputs)) mod 12)%Z
  /\ Z.of_nat (length (filter is_status (snd (updates inputs m nv))))
     = ((count nv + Z.of_nat (length inputs)) / 12)%Z.
Proof.
  revert m nv. induction inputs as [|inp rest IH]; intros m nv Hsize Hc.
  - cbn [updates fst snd filter length Z.of_nat]. rewrite Z.add_0_r.
    rewrite Z.mod_small, Z.div_small by lia. split; reflexivity.
  - destruct (updates_cons inp rest m nv) as [-> ->].
    destruct (update_count inp m nv Hsize) as [Hc1 Hs1].
    assert (Hsize1 : (0 < SGRoute_size (active_route (fst (fst (update inp m nv)))))%Z)
      by (now rewrite update_size).
    assert (Hc1' : (0 <= count (snd (fst (update inp m nv))) <= 11)%Z).
    { rewrite Hc1. destruct (10 <? count nv)%Z eqn:Hlt; [lia|].
      apply Z.ltb_ge in Hlt. lia. }
    destruct (IH _ _ Hsize1 Hc1') as [IHc IHs].
    rewrite IHc, filter_app, length_app, Nat2Z.inj_add, IHs, Hs1, Hc1.
    cbn [length]. rewrite Nat2Z.inj_succ.
    destruct (10 <? count nv)%Z eqn:Hlt.
    + apply Z.ltb_lt in Hlt. assert (Hn : count nv = 11%Z) by lia. rewrite Hn.
      replace (11 + Z.succ (Z.of_nat (length rest)))%Z
        with (0 + Z.of_nat (length rest) + 1 * 12)%Z by lia.
      rewrite Z.mod_add, Z.div_add by lia. split; [reflexivity|].
      cbn [Z.of_nat]. lia.
    + replace (count nv + Z.succ (Z.of_nat (length rest)))%Z
        with (count nv + 1 + Z.of_nat (length rest))%Z by lia.
      split; reflexivity.
Qed.

End UpdateCadence.

Section RouteEditing.
Import FGRouteMgr FGRouteNav.
Context `{RouteNav}.

(** X12.  [new_waypoint] always returns 1 and touches the standby route
    only: mode 0 adds the relative waypoint made of [field2] and [field1],
    in that order, mode 1 the absolute waypoint made of [field1] and
    [field2], and with any other mode nothing is added and 1 is returned
    all the same.  The active route, the pointers and [pos_set] stay. *)
Theorem new_waypoint_adds_to_standby (field1 field2 : real) (mode : Z) (m : t) :
  distinct_routes m ->
  let r := new_waypoint field1 field2 mode m in
  fst r = 1%Z
  /\ standby_route (snd r)
     = (if (mode =? 0)%Z
        then SGRoute_add_waypoint (SGWayPoint_make field2 field1 RELATIVE) (standby_route m)
        else if (mode =? 1)%Z
        then SGRoute_add_waypoint (SGWayPoint_make field1 field2 ABSOLUTE) (standby_route m)
        else standby_route m)
  /\ ((mode =? 0)%Z = false -> (mode =? 1)%Z = false -> snd r = m)
  /\ active_route (snd r) = active_route m
  /\ active (snd r) = active m /\ standby (snd r) = standby m
  /\ pos_set (snd r) = pos_set m.
Proof.
  intros Hd. cbv zeta. unfold new_waypoint.
  destruct (mode =? 0)%Z; [|destruct (mode =? 1)%Z]; cbn [fst snd].
  - rewrite standby_route_update_standby.
    rewrite (@active_route_update_standby _ _ m Hd).
    repeat split. discriminate.
  - rewrite standby_route_update_standby.
    rewrite (@active_route_update_standby _ _ m Hd).
    repeat split. discriminate.
  - repeat split.
Qed.

(** X13.  Swapping twice does not resume the first route where it was
    left.  After a successful [swap], a second one fails and changes
    nothing if the route flown before was empty; otherwise it succeeds
    and puts the pointers back, with both routes at [set_current(0)] and
    [pos_set] false. *)
Theorem swap_back (m : t) :
  distinct_routes m ->
  SGRoute_size (standby_route m) <> 0%Z ->
  let m1 := snd (swap m) in
  (SGRoute_size (active_route m) = 0%Z -> swap m1 = (false, m1))
  /\ (SGRoute_size (active_route m) <> 0%Z ->
      fst (swap m1) = true
      /\ active (snd (swap m1)) = active m
      /\ standby (snd (swap m1)) = standby m
      /\ active_route (snd (swap m1)) = SGRoute_set_current 0 (active_route m)
      /\ standby_route (snd (swap m1)) = SGRoute_set_current 0 (standby_route m)
      /\ pos_set (snd (swap m1)) = false).
Proof.
  intros Hd Hs. cbv zeta.
  destruct (@swap_loaded _ m Hd Hs) as (_ & Ha & Hb & Har & Hsr & _).
  assert (Hd1 : distinct_routes (snd (swap m)))
    by (unfold distinct_routes in *; congruence).
  split.
  - intros He. apply swap_empty. now rewrite Hsr.
  - intros Hne.
    assert (Hs1 : SGRoute_size (standby_route (snd (swap m))) <> 0%Z)
      by (now rewrite Hsr).
    destruct (@swap_loaded _ _ Hd1 Hs1) as (Hok & Ha' & Hb' & Har' & Hsr' & Hp' & _).
    rewrite Hok, Ha', Hb', Har', Hsr', Hp', Ha, Hb, Har, Hsr.
    repeat split.
Qed.

(** X14.  After [init] there is nothing to swap in: for a route class
    whose [clear] leaves no waypoint, [init] returns a manager on which
    [swap] returns false and changes nothing, whatever the configuration
    held. *)
Theorem swap_after_init_fails (Config : Value) (m : t) :
  distinct_routes m ->
  (forall r, SGRoute_size (SGRoute_clear r) = 0%Z) ->
  exists m',
    fst (init Config m) = Returned m' /\ swap m' = (false, m').
Proof.
  intros Hd Hclear.
  set (m1 := update_route (active m) SGRoute_clear m).
  set (m2 := update_route (standby m1) SGRoute_clear m1).
  assert (Hd2 : distinct_routes m2) by exact Hd.
  assert (Ha2 : active_route m2 = SGRoute_clear (active_route m)).
  { unfold m2. rewrite (@active_route_update_standby _ _ m1 Hd).
    unfold m1. apply active_route_update_active. }
  destruct (@build_fills_standby_aux _ Config m2 Hd2)
    as (Hs3 & Ha3 & Hpa & Hps & _).
  set (m3 := snd (fst (build Config m2))) in *.
  assert (Hinit : fst (init Config m) = Returned (snd (swap m3))).
  { unfold init. fold m1. fold m2. unfold m3, build. reflexivity. }
  assert (Hd3 : distinct_routes m3)
    by (unfold distinct_routes; rewrite Hpa, Hps; exact Hd).
  exists (snd (swap m3)). split; [exact Hinit|].
  destruct (Z.eq_dec (SGRoute_size (standby_route m3)) 0) as [He|Hne].
  - rewrite (@swap_empty _ m3 He). cbn [snd]. exact (@swap_empty _ m3 He).
  - destruct (@swap_loaded _ m3 Hd3 Hne) as (_ & _ & _ & _ & Hsr & _).
    apply swap_empty. rewrite Hsr, Ha3, Ha2. apply Hclear.
Qed.

(** X16.  A manager fresh from the constructor waits for its first GPS
    fix after [init], whatever the configuration: [init] returns with
    [pos_set] false, and of the calls of [update] that follow, the first
    one that sees a GPS fix of 1 prints
    ["Positioning relative waypoints..."], once and for all. *)
Theorem first_fix_positions_after_init
  (fresh_active fresh_standby : SGRoute) (Config : Value) :
  exists m',
    fst (init Config (create fresh_active fresh_standby)) = Returned m'
    /\ pos_set m' = false
    /\ forall inputs nv,
         filter is_positioning (snd (updates inputs m' nv))
         = if existsb (fun inp => (gps_fix inp =? 1)%Z) inputs
           then [say "Positioning relative waypoints...\n" []] else [].
Proof.
  set (m := create fresh_active fresh_standby).
  assert (Hd : distinct_routes m) by apply create_distinct_routes.
  set (m1 := update_route (active m) SGRoute_clear m).
  set (m2 := update_route (standby m1) SGRoute_clear m1).
  assert (Hd2 : distinct_routes m2) by exact Hd.
  destruct (@build_fills_standby_aux _ Config m2 Hd2)
    as (_ & _ & Hpa & Hps & Hpos & _).
  set (m3 := snd (fst (build Config m2))) in *.
  assert (Hinit : fst (init Config m) = Returned (snd (swap m3))).
  { unfold init. fold m1. fold m2. unfold m3, build. reflexivity. }
  assert (Hd3 : distinct_routes m3)
    by (unfold distinct_routes; rewrite Hpa, Hps; exact Hd).
  assert (Hp : pos_set (snd (swap m3)) = false).
  { destruct (Z.eq_dec (SGRoute_size (standby_route m3)) 0) as [He|Hne].
    - rewrite (@swap_empty _ m3 He). cbn [snd]. rewrite Hpos. reflexivity.
    - now destruct (@swap_loaded _ m3 Hd3 Hne) as (_ & _ & _ & _ & _ & Hp & _). }
  exists (snd (swap m3)). split; [exact Hinit|]. split; [exact Hp|].
  intros inputs nv. rewrite positioning_said, Hp. reflexivity.
Qed.

End RouteEditing.

(* ===================================================================== *)
(** * Part VIII.  The added properties on the samples                     *)
(* ===================================================================== *)

Section MoreLoopSamples.
Import Sample.

(** X2 on the plant with two control levels. *)
Lemma control_levels_in_order_witness :
  let w := world (fmu (mission Run false true false) idle) in
  filter is_ControlRun (snd (run_control_levels w))
  = [Call.ControlRun 0; Call.ControlRun 1].
Proof.
  intros w.
  destruct (@control_levels_in_order (Fmu nat) _ w) as (_ & _ & Hf).
  - intros i w'. reflexivity.
  - exact Hf.
Defined.

(** X3 at a [Configuration] round with a configuration pending. *)
Lemma configuration_round_frozen_witness :
  let s := fmu (mission Configuration false false false)
               (holding AircraftSocComms.Configuration [x01]) in
  calls loop_body s
  = [Call.UpdateMode; Call.GetMode; Call.ReceiveConfigMessage;
     Call.ConfigUpdate [x01]; Call.ReceiveModeCommand; Call.CheckMessages]
  /\ MissionState (after loop_body s) = MissionState s
  /\ EffectorCommands (after loop_body s) = EffectorCommands s.
Proof.
  intros s.
  destruct (@configuration_round_frozen (Fmu nat) _ s) as (Hc & _ & Hs & He).
  - reflexivity.
  - split; [exact Hc|]. split; [exact Hs|exact He].
Defined.

End MoreLoopSamples.

Section MoreRouteSamples.
Import Sample NavSample.

Lemma sample_distinct_routes (m : FGRouteMgr.t) :
  FGRouteMgr.active m = FGRouteMgr.route_a ->
  FGRouteMgr.standby m = FGRouteMgr.route_b ->
  FGRouteMgr.distinct_routes m.
Proof. intros Ha Hs. unfold FGRouteMgr.distinct_routes. congruence. Qed.

Lemma sample_size_clear (r : route) : SGRoute_size (SGRoute_clear r) = 0%Z.
Proof. reflexivity. Qed.

Lemma sample_size_add (wp : json) (r : route) :
  SGRoute_size (SGRoute_add_waypoint wp r) = (SGRoute_size r + 1)%Z.
Proof. cbn. rewrite length_app. cbn. lia. Qed.

(** X6 on [Sample.manager] and the configuration of two waypoints. *)
Lemma build_fills_standby_witness :
  FGRouteMgr.standby_route (snd (fst (FGRouteMgr.build two_waypoints manager)))
  = {| waypoints := [JNumber 7; JNumber 8]; current_wp := 0 |}
  /\ FGRouteMgr.active_route (snd (fst (FGRouteMgr.build two_waypoints manager)))
     = {| waypoints := [JNumber 1; JNumber 2]; current_wp := 1 |}.
Proof.
  destruct (@build_fills_standby route_env two_waypoints manager)
    as (Hs & _ & Ha & _).
  - apply sample_distinct_routes; reflexivity.
  - split; [exact Hs|exact Ha].
Defined.

(** X7 on [Sample.manager], with two waypoints and with none. *)
Lemma init_installs_route_witness :
  (exists m',
     fst (FGRouteMgr.init two_waypoints manager) = FGRouteMgr.Returned m'
     /\ FGRouteMgr.active m' = FGRouteMgr.route_b
     /\ FGRouteMgr.active_route m'
        = {| waypoints := [JNumber 7; JNumber 8]; current_wp := 0 |}
     /\ FGRouteMgr.standby_route m' = empty_route
     /\ FGRouteMgr.pos_set m' = false)
  /\ (exists m',
        fst (FGRouteMgr.init no_waypoints manager) = FGRouteMgr.Returned m'
        /\ FGRouteMgr.active m' = FGRouteMgr.route_a
        /\ FGRouteMgr.active_route m' = empty_route
        /\ FGRouteMgr.standby_route m' = empty_route
        /\ FGRouteMgr.pos_set m' = true).
Proof.
  assert (Hd : FGRouteMgr.distinct_routes manager)
    by (apply sample_distinct_routes; reflexivity).
  split.
  - destruct (@init_installs_route route_env two_waypoints manager Hd
                sample_size_clear sample_size_add) as (m' & Hi & _ & Hsome).
    destruct Hsome as (Ha & _ & Har & Hsr & Hp); [discriminate|].
    exists m'. split; [exact Hi|]. split; [exact Ha|].
    split; [exact Har|]. split; [exact Hsr|exact Hp].
  - destruct (@init_installs_route route_env no_waypoints manager Hd
                sample_size_clear sample_size_add) as (m' & Hi & Hnone & _).
    destruct Hnone as (Ha & _ & Har & Hsr & Hp); [reflexivity|].
    exists m'. split; [exact Hi|]. split; [exact Ha|].
    split; [exact Har|]. split; [exact Hsr|exact Hp].
Defined.

(** X8 on [manager_unset], over three calls the second of which sees a
    fix. *)
Lemma update_works_on_active_route_witness :
  let m' := fst (fst (FGRouteNav.updates [sensed 0; sensed 1; sensed 0]
                        manager_unset nav0)) in
  FGRouteMgr.standby_route m'
  = {| waypoints := [JNumber 3; JNumber 4; JNumber 5]; current_wp := 2 |}
  /\ FGRouteMgr.active m' = FGRouteMgr.route_a
  /\ FGRouteMgr.pos_set m' = true.
Proof.
  intros m'.
  destruct (@update_works_on_active_route route_env nav
              [sensed 0; sensed 1; sensed 0] manager_unset nav0)
    as ((Ha & _ & Hsr & _) & Hp & _).
  - apply sample_distinct_routes; reflexivity.
  - split; [exact Hsr|]. split; [exact Ha|exact Hp].
Defined.

(** X10 on the manager with no route. *)
Lemma update_without_route_witness :
  FGRouteNav.updates [sensed 1; sensed 0] manager_no_route nav0
  = (manager_no_route, nav0, []).
Proof.
  apply (@update_without_route route_env nav); [vm_compute; discriminate|reflexivity].
Defined.

Lemma sample_size_refresh (wp : json) (z : Z) (r : route) :
  SGRoute_size (SGRoute_refresh_offset_positions wp z r) = SGRoute_size r.
Proof. reflexivity. Qed.

Lemma sample_size_increment (r : route) :
  SGRoute_size (SGRoute_increment_current r) = SGRoute_size r.
Proof. reflexivity. Qed.

Lemma sample_size_acquired (b : bool) (r : route) :
  SGRoute_size (SGRoute_set_acquired b r) = SGRoute_size r.
Proof. reflexivity. Qed.

(** X11 over 25 calls on [Sample.manager]: two status lines, and the
    count at 1. *)
Lemma status_every_twelfth_witness :
  FGRouteNav.count
    (snd (fst (FGRouteNav.updates (repeat (sensed 1) 25) manager nav0))) = 1%Z
  /\ Z.of_nat (length (filter FGRouteNav.is_status
                         (snd (FGRouteNav.updates (repeat (sensed 1) 25) manager nav0))))
     = 2%Z.
Proof.
  apply (@status_every_twelfth route_env nav
           sample_size_refresh sample_size_increment sample_size_acquired
           (repeat (sensed 1) 25) manager nav0).
  - reflexivity.
  - split; discriminate.
Defined.

(** X12 on [Sample.manager]: a relative waypoint, and an unknown mode. *)
Lemma new_waypoint_adds_to_standby_witness :
  FGRouteMgr.standby_route (snd (FGRouteNav.new_waypoint (10%Z : real) (20%Z : real) 0 manager))
  = {| waypoints := [JNumber 3; JNumber 4; JNumber 5;
                     JArray [JNumber 20; JNumber 10; JNumber 0]];
       current_wp := 2 |}
  /\ snd (FGRouteNav.new_waypoint (10%Z : real) (20%Z : real) 2 manager) = manager.
Proof.
  assert (Hd : FGRouteMgr.distinct_routes manager)
    by (apply sample_distinct_routes; reflexivity).
  destruct (@new_waypoint_adds_to_standby route_env nav 10%Z 20%Z 0%Z manager Hd)
    as (_ & Hs & _).
  destruct (@new_waypoint_adds_to_standby route_env nav 10%Z 20%Z 2%Z manager Hd)
    as (_ & _ & Hsame & _).
  split; [exact Hs|]. apply Hsame; reflexivity.
Defined.

(** X13 on [Sample.manager], whose two routes both have waypoints. *)
Lemma swap_back_witness :
  let m1 := snd (FGRouteMgr.swap manager) in
  fst (FGRouteMgr.swap m1) = true
  /\ FGRouteMgr.active_route (snd (FGRouteMgr.swap m1))
     = {| waypoints := [JNumber 1; JNumber 2]; current_wp := 0 |}
  /\ FGRouteMgr.standby_route (snd (FGRouteMgr.swap m1))
     = {| waypoints := [JNumber 3; JNumber 4; JNumber 5]; current_wp := 0 |}.
Proof.
  intros m1.
  destruct (@swap_back route_env manager) as (_ & Hback).
  - apply sample_distinct_routes; reflexivity.
  - vm_compute; discriminate.
  - destruct Hback as (Hok & _ & _ & Har & Hsr & _); [vm_compute; discriminate|].
    split; [exact Hok|]. split; [exact Har|exact Hsr].
Defined.

(** X14 on [Sample.manager] and the configuration of two waypoints. *)
Lemma swap_after_init_fails_witness :
  exists m',
    fst (FGRouteMgr.init two_waypoints manager) = FGRouteMgr.Returned m'
    /\ FGRouteMgr.swap m' = (false, m').
Proof.
  apply (@swap_after_init_fails route_env two_waypoints manager).
  - apply sample_distinct_routes; reflexivity.
  - exact sample_size_clear.
Defined.

End MoreRouteSamples.
